(** * The research agent's control loop (src/agent.ts, [getResponse])

    A shallow embedding of the loop of [getResponse] and of [getSchema].
    The loop's local variables are the fields of [State]; the external
    collaborators (decision oracle, evaluator, failure analyzer, query
    rewriter, deduplicator, search and fetch adapters) are the fields of
    a per-step environment [StepEnv], each of which may fail.  A step is a
    computation in a small monad that logs the external calls it issues and
    stops at the first exception.

    Left out: prompt text (the oracle is an arbitrary function of the
    response schema), [sleep], console output, the action tracker and
    [storeContext], whose failures the source swallows. *)

From Stdlib Require Import ZArith Ascii.
From stdpp Require Import gmap strings list fin_maps pretty.

(** ** Data *)

Inductive SchemaType := STRING | ARRAY | OBJECT.

(** A schema property, without its description text. *)
Record SchemaProperty := {
  sp_type : SchemaType;
  sp_enum : option (list string);
  sp_maxItems : option nat
}.

Record ResponseSchema := {
  properties : list (string * SchemaProperty);
  required : list string
}.

Record Reference := { exactQuote : string; ref_url : string }.

(** What [JSON.parse] yields for an object: [action] and [thoughts], and the
    action-specific keys, each of which may be absent. *)
Record StepAction := {
  action : string;
  thoughts : string;
  answer : option string;
  references : option (list Reference);
  questionsToAnswer : option (list string);
  searchQuery : option string;
  URLTargets : option (list string)
}.

Record EvaluationResponse := { is_definitive : bool; reasoning : string }.

Record ErrorAnalysis := { ea_recap : string; ea_blame : string; ea_improvement : string }.

Record BadAttempt := {
  ba_question : string;
  ba_answer : option string;
  ba_evaluation : string;
  ba_recap : string;
  ba_blame : string;
  ba_improvement : string
}.

Inductive KnowledgeType := K_qa | K_url.

Record KnowledgeItem := {
  k_question : string;
  k_answer : option string;
  k_type : KnowledgeType
}.

Record SearchResult := { sr_title : string; sr_url : string; sr_description : string }.

(** [response.data], when present: its [url] and [content], an absent one
    being the empty string (both are falsy). *)
Record ReadResponse := { data : option (string * string) }.

(** The diary's entries: one constructor per text template of the source,
    carrying the values the template interpolates. *)
Inductive DiaryEntry :=
| DiaryLastResort (step badAttempts : nat) (q : string) (a : option string) (why : string)
| DiaryAnswered (step : nat) (q : string) (a : option string) (why : string)
| DiaryNoReferences (step : nat) (q : string) (a : option string)
| DiaryBadAnswer (step : nat) (q : string) (a : option string) (why : string)
| DiarySubAnswered (step : nat) (q : string) (a : option string) (why : string)
| DiaryReflected (step : nat) (q : string) (newGaps : list string)
| DiaryReflectStale (step : nat) (q : string) (oldQuestions : list string)
| DiarySearched (step : nat) (q : string) (keywords : list string)
| DiarySearchStale (step : nat) (q : string) (oldKeywords : list string)
| DiaryVisited (step : nat) (targets : list string)
| DiaryVisitStale (step : nat) (targets : list string).

Inductive StepResult :=
| ResultText (msg : string)
| ResultSearch (found : list (string * list SearchResult))
| ResultVisit (fetched : list (string * ReadResponse * nat)).

(** An entry of the module-level transcript [allContext]. *)
Record ContextEntry := {
  ce_totalStep : nat;
  ce_question : option string;
  ce_step : StepAction;
  ce_result : option StepResult
}.

(** ** [getSchema] *)

Definition when {A} (b : bool) (l : list A) : list A := if b then l else [].

Definition getSchema (allowReflect allowRead allowAnswer allowSearch : bool) : ResponseSchema :=
  let actions :=
    when allowSearch ["search"] ++ when allowAnswer ["answer"] ++
    when allowReflect ["reflect"] ++ when allowRead ["visit"] in
  {| properties :=
       [("action", {| sp_type := STRING; sp_enum := Some actions; sp_maxItems := None |});
        ("thoughts", {| sp_type := STRING; sp_enum := None; sp_maxItems := None |})] ++
       when allowSearch
         [("searchQuery", {| sp_type := STRING; sp_enum := None; sp_maxItems := None |})] ++
       when allowAnswer
         [("answer", {| sp_type := STRING; sp_enum := None; sp_maxItems := None |});
          ("references", {| sp_type := ARRAY; sp_enum := None; sp_maxItems := None |})] ++
       when allowReflect
         [("questionsToAnswer", {| sp_type := ARRAY; sp_enum := None; sp_maxItems := Some 2 |})] ++
       when allowRead
         [("URLTargets", {| sp_type := ARRAY; sp_enum := None; sp_maxItems := Some 2 |})];
     required := ["action"; "thoughts"] |}.

(** The [enum] of the schema's [action] property: the permitted actions. *)
Definition action_enum (sch : ResponseSchema) : list string :=
  match list_find (fun p => bool_decide (p.1 = "action")) (properties sch) with
  | Some (_, (_, p)) => default [] (sp_enum p)
  | None => []
  end.

(** ** [removeAllLineBreaks]: every CR LF, LF or CR becomes one space. *)

Definition CR : ascii := ascii_of_nat 13.
Definition LF : ascii := ascii_of_nat 10.

Fixpoint removeAllLineBreaks (text : string) : string :=
  match text with
  | EmptyString => EmptyString
  | String c rest =>
      if bool_decide (c = CR) then
        match rest with
        | String c' rest' =>
            if bool_decide (c' = LF) then String " " (removeAllLineBreaks rest')
            else String " " (removeAllLineBreaks rest)
        | EmptyString => String " " EmptyString
        end
      else if bool_decide (c = LF) then String " " (removeAllLineBreaks rest)
      else String c (removeAllLineBreaks rest)
  end.

(** JavaScript's [s || d] on strings: the empty string is falsy. *)
Definition or_else (s : option string) (d : string) : string :=
  match s with
  | Some (String c r) => String c r
  | _ => d
  end.

(** ** The loop's state

    The local variables of [getResponse], the token tracker's total
    ([usage]) and the module-level transcript [allContext].  [allURLs] is
    the URL frontier, a JavaScript object keyed by url. *)
Record State := {
  step : nat;
  totalStep : nat;
  badAttempts : nat;
  gaps : list string;
  allQuestions : list string;
  allKeywords : list string;
  allKnowledge : list KnowledgeItem;
  badContext : list BadAttempt;
  diaryContext : list DiaryEntry;
  allowAnswer : bool;
  allowSearch : bool;
  allowRead : bool;
  allowReflect : bool;
  thisStep : StepAction;
  isAnswered : bool;
  allURLs : gmap string string;
  visitedURLs : list string;
  usage : nat;
  allContext : list ContextEntry
}.

(** Field updates. *)
Definition set_step (v : nat) (s : State) : State :=
  {| step := v; totalStep := totalStep s; badAttempts := badAttempts s; gaps := gaps s;
     allQuestions := allQuestions s; allKeywords := allKeywords s;
     allKnowledge := allKnowledge s; badContext := badContext s;
     diaryContext := diaryContext s; allowAnswer := allowAnswer s;
     allowSearch := allowSearch s; allowRead := allowRead s; allowReflect := allowReflect s;
     thisStep := thisStep s; isAnswered := isAnswered s; allURLs := allURLs s;
     visitedURLs := visitedURLs s; usage := usage s; allContext := allContext s |}.

Definition set_totalStep (v : nat) (s : State) : State :=
  {| step := step s; totalStep := v; badAttempts := badAttempts s; gaps := gaps s;
     allQuestions := allQuestions s; allKeywords := allKeywords s;
     allKnowledge := allKnowledge s; badContext := badContext s;
     diaryContext := diaryContext s; allowAnswer := allowAnswer s;
     allowSearch := allowSearch s; allowRead := allowRead s; allowReflect := allowReflect s;
     thisStep := thisStep s; isAnswered := isAnswered s; allURLs := allURLs s;
     visitedURLs := visitedURLs s; usage := usage s; allContext := allContext s |}.

Definition set_badAttempts (v : nat) (s : State) : State :=
  {| step := step s; totalStep := totalStep s; badAttempts := v; gaps := gaps s;
     allQuestions := allQuestions s; allKeywords := allKeywords s;
     allKnowledge := allKnowledge s; badContext := badContext s;
     diaryContext := diaryContext s; allowAnswer := allowAnswer s;
     allowSearch := allowSearch s; allowRead := allowRead s; allowReflect := allowReflect s;
     thisStep := thisStep s; isAnswered := isAnswered s; allURLs := allURLs s;
     visitedURLs := visitedURLs s; usage := usage s; allContext := allContext s |}.

Definition set_gaps (v : list string) (s : State) : State :=
  {| step := step s; totalStep := totalStep s; badAttempts := badAttempts s; gaps := v;
     allQuestions := allQuestions s; allKeywords := allKeywords s;
     allKnowledge := allKnowledge s; badContext := badContext s;
     diaryContext := diaryContext s; allowAnswer := allowAnswer s;
     allowSearch := allowSearch s; allowRead := allowRead s; allowReflect := allowReflect s;
     thisStep := thisStep s; isAnswered := isAnswered s; allURLs := allURLs s;
     visitedURLs := visitedURLs s; usage := usage s; allContext := allContext s |}.

Definition set_allQuestions (v : list string) (s : State) : State :=
  {| step := step s; totalStep := totalStep s; badAttempts := badAttempts s; gaps := gaps s;
     allQuestions := v; allKeywords := allKeywords s; allKnowledge := allKnowledge s;
     badContext := badContext s; diaryContext := diaryContext s;
     allowAnswer := allowAnswer s; allowSearch := allowSearch s; allowRead := allowRead s;
     allowReflect := allowReflect s; thisStep := thisStep s; isAnswered := isAnswered s;
     allURLs := allURLs s; visitedURLs := visitedURLs s; usage := usage s;
     allContext := allContext s |}.

Definition set_allKeywords (v : list string) (s : State) : State :=
  {| step := step s; totalStep := totalStep s; badAttempts := badAttempts s; gaps := gaps s;
     allQuestions := allQuestions s; allKeywords := v; allKnowledge := allKnowledge s;
     badContext := badContext s; diaryContext := diaryContext s;
     allowAnswer := allowAnswer s; allowSearch := allowSearch s; allowRead := allowRead s;
     allowReflect := allowReflect s; thisStep := thisStep s; isAnswered := isAnswered s;
     allURLs := allURLs s; visitedURLs := visitedURLs s; usage := usage s;
     allContext := allContext s |}.

Definition set_allKnowledge (v : list KnowledgeItem) (s : State) : State :=
  {| step := step s; totalStep := totalStep s; badAttempts := badAttempts s; gaps := gaps s;
     allQuestions := allQuestions s; allKeywords := allKeywords s; allKnowledge := v;
     badContext := badContext s; diaryContext := diaryContext s;
     allowAnswer := allowAnswer s; allowSearch := allowSearch s; allowRead := allowRead s;
     allowReflect := allowReflect s; thisStep := thisStep s; isAnswered := isAnswered s;
     allURLs := allURLs s; visitedURLs := visitedURLs s; usage := usage s;
     allContext := allContext s |}.

Definition set_badContext (v : list BadAttempt) (s : State) : State :=
  {| step := step s; totalStep := totalStep s; badAttempts := badAttempts s; gaps := gaps s;
     allQuestions := allQuestions s; allKeywords := allKeywords s;
     allKnowledge := allKnowledge s; badContext := v; diaryContext := diaryContext s;
     allowAnswer := allowAnswer s; allowSearch := allowSearch s; allowRead := allowRead s;
     allowReflect := allowReflect s; thisStep := thisStep s; isAnswered := isAnswered s;
     allURLs := allURLs s; visitedURLs := visitedURLs s; usage := usage s;
     allContext := allContext s |}.

Definition set_diaryContext (v : list DiaryEntry) (s : State) : State :=
  {| step := step s; totalStep := totalStep s; badAttempts := badAttempts s; gaps := gaps s;
     allQuestions := allQuestions s; allKeywords := allKeywords s;
     allKnowledge := allKnowledge s; badContext := badContext s; diaryContext := v;
     allowAnswer := allowAnswer s; allowSearch := allowSearch s; allowRead := allowRead s;
     allowReflect := allowReflect s; thisStep := thisStep s; isAnswered := isAnswered s;
     allURLs := allURLs s; visitedURLs := visitedURLs s; usage := usage s;
     allContext := allContext s |}.

Definition set_allowAnswer (v : bool) (s : State) : State :=
  {| step := step s; totalStep := totalStep s; badAttempts := badAttempts s; gaps := gaps s;
     allQuestions := allQuestions s; allKeywords := allKeywords s;
     allKnowledge := allKnowledge s; badContext := badContext s;
     diaryContext := diaryContext s; allowAnswer := v; allowSearch := allowSearch s;
     allowRead := allowRead s; allowReflect := allowReflect s; thisStep := thisStep s;
     isAnswered := isAnswered s; allURLs := allURLs s; visitedURLs := visitedURLs s;
     usage := usage s; allContext := allContext s |}.

Definition set_allowSearch (v : bool) (s : State) : State :=
  {| step := step s; totalStep := totalStep s; badAttempts := badAttempts s; gaps := gaps s;
     allQuestions := allQuestions s; allKeywords := allKeywords s;
     allKnowledge := allKnowledge s; badContext := badContext s;
     diaryContext := diaryContext s; allowAnswer := allowAnswer s; allowSearch := v;
     allowRead := allowRead s; allowReflect := allowReflect s; thisStep := thisStep s;
     isAnswered := isAnswered s; allURLs := allURLs s; visitedURLs := visitedURLs s;
     usage := usage s; allContext := allContext s |}.

Definition set_allowRead (v : bool) (s : State) : State :=
  {| step := step s; totalStep := totalStep s; badAttempts := badAttempts s; gaps := gaps s;
     allQuestions := allQuestions s; allKeywords := allKeywords s;
     allKnowledge := allKnowledge s; badContext := badContext s;
     diaryContext := diaryContext s; allowAnswer := allowAnswer s;
     allowSearch := allowSearch s; allowRead := v; allowReflect := allowReflect s;
     thisStep := thisStep s; isAnswered := isAnswered s; allURLs := allURLs s;
     visitedURLs := visitedURLs s; usage := usage s; allContext := allContext s |}.

Definition set_allowReflect (v : bool) (s : State) : State :=
  {| step := step s; totalStep := totalStep s; badAttempts := badAttempts s; gaps := gaps s;
     allQuestions := allQuestions s; allKeywords := allKeywords s;
     allKnowledge := allKnowledge s; badContext := badContext s;
     diaryContext := diaryContext s; allowAnswer := allowAnswer s;
     allowSearch := allowSearch s; allowRead := allowRead s; allowReflect := v;
     thisStep := thisStep s; isAnswered := isAnswered s; allURLs := allURLs s;
     visitedURLs := visitedURLs s; usage := usage s; allContext := allContext s |}.

Definition set_isAnswered (v : bool) (s : State) : State :=
  {| step := step s; totalStep := totalStep s; badAttempts := badAttempts s; gaps := gaps s;
     allQuestions := allQuestions s; allKeywords := allKeywords s;
     allKnowledge := allKnowledge s; badContext := badContext s;
     diaryContext := diaryContext s; allowAnswer := allowAnswer s;
     allowSearch := allowSearch s; allowRead := allowRead s; allowReflect := allowReflect s;
     thisStep := thisStep s; isAnswered := v; allURLs := allURLs s;
     visitedURLs := visitedURLs s; usage := usage s; allContext := allContext s |}.

Definition set_allURLs (v : gmap string string) (s : State) : State :=
  {| step := step s; totalStep := totalStep s; badAttempts := badAttempts s; gaps := gaps s;
     allQuestions := allQuestions s; allKeywords := allKeywords s;
     allKnowledge := allKnowledge s; badContext := badContext s;
     diaryContext := diaryContext s; allowAnswer := allowAnswer s;
     allowSearch := allowSearch s; allowRead := allowRead s; allowReflect := allowReflect s;
     thisStep := thisStep s; isAnswered := isAnswered s; allURLs := v;
     visitedURLs := visitedURLs s; usage := usage s; allContext := allContext s |}.

Definition set_visitedURLs (v : list string) (s : State) : State :=
  {| step := step s; totalStep := totalStep s; badAttempts := badAttempts s; gaps := gaps s;
     allQuestions := allQuestions s; allKeywords := allKeywords s;
     allKnowledge := allKnowledge s; badContext := badContext s;
     diaryContext := diaryContext s; allowAnswer := allowAnswer s;
     allowSearch := allowSearch s; allowRead := allowRead s; allowReflect := allowReflect s;
     thisStep := thisStep s; isAnswered := isAnswered s; allURLs := allURLs s;
     visitedURLs := v; usage := usage s; allContext := allContext s |}.

Definition set_usage (v : nat) (s : State) : State :=
  {| step := step s; totalStep := totalStep s; badAttempts := badAttempts s; gaps := gaps s;
     allQuestions := allQuestions s; allKeywords := allKeywords s;
     allKnowledge := allKnowledge s; badContext := badContext s;
     diaryContext := diaryContext s; allowAnswer := allowAnswer s;
     allowSearch := allowSearch s; allowRead := allowRead s; allowReflect := allowReflect s;
     thisStep := thisStep s; isAnswered := isAnswered s; allURLs := allURLs s;
     visitedURLs := visitedURLs s; usage := v; allContext := allContext s |}.

Definition set_allContext (v : list ContextEntry) (s : State) : State :=
  {| step := step s; totalStep := totalStep s; badAttempts := badAttempts s; gaps := gaps s;
     allQuestions := allQuestions s; allKeywords := allKeywords s;
     allKnowledge := allKnowledge s; badContext := badContext s;
     diaryContext := diaryContext s; allowAnswer := allowAnswer s;
     allowSearch := allowSearch s; allowRead := allowRead s; allowReflect := allowReflect s;
     thisStep := thisStep s; isAnswered := isAnswered s; allURLs := allURLs s;
     visitedURLs := visitedURLs s; usage := usage s; allContext := v |}.

(** ** Run parameters, collaborators, exceptions *)

(** The arguments of [getResponse].  [existingUsage] is the total of the
    tracker passed in [existingContext], 0 for a fresh one.  The caller's
    numbers are integers; the loop's own counters start at 0 and only go up
    by one, and token counts are what the services report, so those are
    naturals. *)
Record Config := {
  question : string;
  tokenBudget : Z;
  maxBadAttempts : Z;
  existingUsage : nat
}.

(** What [model.generateContent] gives back: it throws, or it returns a
    response with [usageMetadata?.totalTokenCount] and a text on which
    [JSON.parse] succeeds ([Some]) or throws ([None]). *)
Inductive AgentReply :=
| AgentThrows
| AgentReplies (totalTokenCount : option nat) (text : option StepAction).

(** The collaborators during one iteration; [None] is a thrown exception.
    The adapters are indexed by the position of the call within the step,
    since two calls with the same argument need not agree.
    [completionOrder] decides in which order the fetches of one visit
    settle. *)
Record StepEnv := {
  generateContent : ResponseSchema -> AgentReply;
  evaluateAnswer : string -> option string -> option (EvaluationResponse * nat);
  analyzeSteps : list DiaryEntry -> option ErrorAnalysis;
  dedupQueries : list string -> list string -> option (list string);
  rewriteQuery : StepAction -> option (list string);
  searchAdapter : nat -> string -> option (list SearchResult);
  readUrl : nat -> string -> option (ReadResponse * nat);
  completionOrder : list nat
}.

Inductive Error :=
| BudgetExceeded (projected : nat) (budget : Z)
| OracleError
| SyntaxError
| EvaluatorError
| AnalyzerError
| DedupError
| RewriterError
| SearchError
| FetchError.

(** The external calls a computation issues, in the order issued. *)
Inductive Call :=
| CallAgent (sch : ResponseSchema)
| CallEvaluate (q : string) (a : option string)
| CallAnalyze (diary : list DiaryEntry)
| CallDedup (candidates seen : list string)
| CallRewrite (d : StepAction)
| CallSearch (query : string)
| CallRead (target : string).

(** ** The monad: a log of calls and a result or an exception *)

Inductive Result (A : Type) :=
| Ok (a : A)
| Throw (err : Error).
Arguments Ok {A} a.
Arguments Throw {A} err.

Definition M (A : Type) : Type := list Call * Result A.

Definition calls {A} (m : M A) : list Call := m.1.
Definition result {A} (m : M A) : Result A := m.2.

#[global] Instance M_ret : MRet M := fun A a => ([], Ok a).

#[global] Instance M_bind : MBind M := fun A B f m =>
  match m with
  | (log, Ok a) => let r := f a in (log ++ r.1, r.2)
  | (log, Throw err) => (log, Throw err)
  end.

Definition throw {A} (err : Error) : M A := ([], Throw err).
Definition emit (c : Call) : M unit := ([c], Ok tt).

(** Call a collaborator: log the call, throw [err] if it fails. *)
Definition call {A} (c : Call) (err : Error) (r : option A) : M A :=
  _ ← emit c; match r with Some a => mret a | None => throw err end.

(** How one iteration ends: the loop goes on, or [break]s. *)
Inductive Flow :=
| Continue (s : State)
| Break (s : State).

Definition flow_state (f : Flow) : State :=
  match f with Continue s | Break s => s end.

Definition estimatedTokens : nat := 50.

(** Modelled from the spec: [tokenTracker.trackUsage] of the tracker class
    (utils/token-tracker), which is not part of the sources; the spec
    describes a cumulative, monotonically increasing usage counter, read by
    [getTotalUsage]. *)
Definition trackUsage (tokens : nat) (s : State) : State :=
  set_usage (usage s + tokens) s.

Definition updateContext (entry : ContextEntry) (s : State) : State :=
  set_allContext (allContext s ++ [entry]) s.

Definition push_diary (d : DiaryEntry) (s : State) : State :=
  set_diaryContext (diaryContext s ++ [d]) s.

(** ** The four actions *)

Definition has_references (d : StepAction) : bool :=
  match references d with Some (_ :: _) => true | _ => false end.

(** [answer]: lines 381-494. *)
Definition answerAction (c : Config) (e : StepEnv) (currentQuestion : string)
    (d : StepAction) (s : State) : M Flow :=
  let s := updateContext {| ce_totalStep := totalStep s; ce_question := Some currentQuestion;
                            ce_step := d; ce_result := None |} s in
  '(evaluation, tokens) ← call (CallEvaluate currentQuestion (answer d)) EvaluatorError
                             (evaluateAnswer e currentQuestion (answer d));
  let s := trackUsage tokens s in
  if bool_decide (currentQuestion = question c) then
    if bool_decide (maxBadAttempts c ≤ Z.of_nat (badAttempts s))%Z then
      mret (Break (set_isAnswered false
        (push_diary (DiaryLastResort (step s) (badAttempts s) currentQuestion (answer d)
                       (reasoning evaluation)) s)))
    else if is_definitive evaluation then
      if has_references d || bool_decide (size (allURLs s) = 0) then
        mret (Break (set_isAnswered true
          (push_diary (DiaryAnswered (step s) currentQuestion (answer d)
                         (reasoning evaluation)) s)))
      else
        mret (Break (set_isAnswered true
          (push_diary (DiaryNoReferences (step s) currentQuestion (answer d)) s)))
    else
      let s := push_diary (DiaryBadAnswer (step s) currentQuestion (answer d)
                             (reasoning evaluation)) s in
      errorAnalysis ← call (CallAnalyze (diaryContext s)) AnalyzerError
                        (analyzeSteps e (diaryContext s));
      let record := {| ba_question := currentQuestion; ba_answer := answer d;
                       ba_evaluation := reasoning evaluation;
                       ba_recap := ea_recap errorAnalysis;
                       ba_blame := ea_blame errorAnalysis;
                       ba_improvement := ea_improvement errorAnalysis |} in
      let s := set_badContext (badContext s ++ [record]) s in
      let s := set_badAttempts (S (badAttempts s)) s in
      let s := set_allowAnswer false s in
      let s := set_diaryContext [] s in
      mret (Continue (set_step 0 s))
  else if is_definitive evaluation then
    let s := push_diary (DiarySubAnswered (step s) currentQuestion (answer d)
                           (reasoning evaluation)) s in
    mret (Continue (set_allKnowledge
      (allKnowledge s ++ [{| k_question := currentQuestion; k_answer := answer d;
                             k_type := K_qa |}]) s))
  else mret (Continue s).

Definition staleQuestions : string :=
  "I have tried all possible questions and found no useful information. I must think out of the box or different angle!!!".
Definition staleQueries : string :=
  "I have tried all possible queries and found no new information. I must think out of the box or different angle!!!".
Definition staleURLs : string :=
  "I have visited all possible URLs and found no new information. I must think out of the box or different angle!!!".

Definition stale_entry (msg : string) (d : StepAction) (s : State) : ContextEntry :=
  {| ce_totalStep := totalStep s; ce_question := None; ce_step := d;
     ce_result := Some (ResultText msg) |}.

(** Deduplicate [candidates] against [seen], when [seen] is not empty. *)
Definition dedupAgainst (e : StepEnv) (candidates seen : list string) : M (list string) :=
  match seen with
  | [] => mret candidates
  | _ :: _ => call (CallDedup candidates seen) DedupError (dedupQueries e candidates seen)
  end.

(** [reflect]: lines 495-525. *)
Definition reflectAction (c : Config) (e : StepEnv) (currentQuestion : string)
    (d : StepAction) (oldQuestions : list string) (s : State) : M Flow :=
  newGapQuestions ← dedupAgainst e oldQuestions (allQuestions s);
  match newGapQuestions with
  | _ :: _ =>
      let s := push_diary (DiaryReflected (step s) currentQuestion newGapQuestions) s in
      let s := set_gaps (gaps s ++ newGapQuestions) s in
      let s := set_allQuestions (allQuestions s ++ newGapQuestions) s in
      mret (Continue (set_gaps (gaps s ++ [question c]) s))
  | [] =>
      let s := push_diary (DiaryReflectStale (step s) currentQuestion oldQuestions) s in
      let s := updateContext (stale_entry staleQuestions d s) s in
      mret (Continue (set_allowReflect false s))
  end.

(** [allURLs[url] = title] on the plain object [allURLs] (line 563): the
    assignment creates or overwrites the key [url], except for the one name
    that every plain object inherits with a setter, ["__proto__"]; there
    the setter runs, ignores a value that is a string, and the object gets
    no such key. *)
Definition assignURL (url title : string) (m : gmap string string) : gmap string string :=
  if bool_decide (url = "__proto__") then m else <[url := title]> m.

(** [allURLs[r.url] = r.title] for every result, in order. *)
Definition mergeResults (results : list SearchResult) (m : gmap string string)
    : gmap string string :=
  foldl (fun m r => assignURL (sr_url r) (sr_title r) m) m results.

(** The [for (const query of keywordsQueries)] loop; [i] counts the calls. *)
Fixpoint searchLoop (e : StepEnv) (i : nat) (queries : list string)
    (found : list (string * list SearchResult)) (s : State)
    : M (list (string * list SearchResult) * State) :=
  match queries with
  | [] => mret (found, s)
  | query :: rest =>
      results ← call (CallSearch query) SearchError (searchAdapter e i query);
      let s := set_allURLs (mergeResults results (allURLs s)) s in
      let s := set_allKeywords (allKeywords s ++ [query]) s in
      searchLoop e (S i) rest (found ++ [(query, results)]) s
  end.

(** [search]: lines 526-596. *)
Definition searchAction (c : Config) (e : StepEnv) (currentQuestion : string)
    (d : StepAction) (s : State) : M Flow :=
  oldKeywords ← call (CallRewrite d) RewriterError (rewriteQuery e d);
  keywordsQueries ← dedupAgainst e oldKeywords (allKeywords s);
  match keywordsQueries with
  | _ :: _ =>
      '(searchResults, s) ← searchLoop e 0 keywordsQueries [] s;
      let s := push_diary (DiarySearched (step s) currentQuestion keywordsQueries) s in
      mret (Continue (updateContext
        {| ce_totalStep := totalStep s; ce_question := Some currentQuestion; ce_step := d;
           ce_result := Some (ResultSearch searchResults) |} s))
  | [] =>
      let s := push_diary (DiarySearchStale (step s) currentQuestion oldKeywords) s in
      let s := updateContext (stale_entry staleQueries d s) s in
      mret (Continue (set_allowSearch false s))
  end.

(** ** [visit] and its [Promise.all] *)

(** The order in which pending tasks settle: each number of [order] picks,
    modulo the number still pending, the next task to complete.  [n] is the
    number of pending tasks. *)
Fixpoint arrange {A} (n : nat) (order : list nat) (pending : list A) : list A :=
  match n with
  | 0 => []
  | S n' =>
      let k := hd 0 order `mod` length pending in
      match pending !! k with
      | Some x => x :: arrange n' (tail order) (delete k pending)
      | None => []
      end
  end.

Definition urlKnowledge (response : ReadResponse) : KnowledgeItem :=
  {| k_question := "What is in " +:+ or_else (fst <$> data response) "the URL" +:+ "?";
     k_answer := Some (removeAllLineBreaks
                         (or_else (snd <$> data response) "No content available"));
     k_type := K_url |}.

(** The part of the callback after [await readUrl(...)], run when the
    fetch of task [(i, target)] settles.  [readUrl] (tools/read) is given
    the tracker and charges it the tokens it returns. *)
Definition settle (e : StepEnv) (task : nat * string) (s : State) : M State :=
  match readUrl e task.1 task.2 with
  | None => throw FetchError
  | Some (response, tokens) =>
      let s := trackUsage tokens s in
      let s := set_allKnowledge (allKnowledge s ++ [urlKnowledge response]) s in
      let s := set_visitedURLs (visitedURLs s ++ [task.2]) s in
      mret (set_allURLs (delete task.2 (allURLs s)) s)
  end.

Fixpoint settleAll (e : StepEnv) (tasks : list (nat * string)) (s : State) : M State :=
  match tasks with
  | [] => mret s
  | task :: rest => s ← settle e task s; settleAll e rest s
  end.

(** [urlResults], in the order of the request. *)
Definition urlResults (e : StepEnv) (tasks : list (nat * string))
    : list (string * ReadResponse * nat) :=
  omap (fun task => (fun r => (task.2, r.1, r.2)) <$> readUrl e task.1 task.2) tasks.

Definition uniqueURLs (targets visited : list string) : list string :=
  match visited with
  | [] => targets
  | _ :: _ => filter (fun target => target ∉ visited) targets
  end.

(** The tasks of a visit: the urls to fetch, numbered in request order. *)
Definition tasksOf (unique : list string) : list (nat * string) :=
  imap (fun i target => (i, target)) unique.

(** [visit]: lines 597-647.  Every callback runs up to its [await], so all
    fetches are issued before any of them settles. *)
Definition visitAction (c : Config) (e : StepEnv) (currentQuestion : string)
    (d : StepAction) (targets : list string) (s : State) : M Flow :=
  match uniqueURLs targets (visitedURLs s) with
  | (_ :: _) as unique =>
      let tasks := tasksOf unique in
      _ ← ((CallRead <$> unique, Ok tt) : M unit);
      s ← settleAll e (arrange (length tasks) (completionOrder e) tasks) s;
      let s := push_diary (DiaryVisited (step s) targets) s in
      mret (Continue (updateContext
        {| ce_totalStep := totalStep s; ce_question := Some currentQuestion; ce_step := d;
           ce_result := Some (ResultVisit (urlResults e tasks)) |} s))
  | [] =>
      let s := push_diary (DiaryVisitStale (step s) targets) s in
      let s := updateContext (stale_entry staleURLs d s) s in
      mret (Continue (set_allowRead false s))
  end.

(** ** One iteration of the loop *)

(** Which branch of the [if ... else if] chain a decision takes. *)
Inductive Dispatch :=
| DoAnswer
| DoReflect (questions : list string)
| DoSearch
| DoVisit (targets : list string)
| DoNothing.

Definition dispatch (d : StepAction) : Dispatch :=
  if bool_decide (action d = "answer") then DoAnswer
  else if bool_decide (action d = "reflect") then
    match questionsToAnswer d with Some qs => DoReflect qs | None => DoNothing end
  else if bool_decide (action d = "search") then
    match searchQuery d with Some (String _ _) => DoSearch | _ => DoNothing end
  else if bool_decide (action d = "visit") then
    match URLTargets d with Some (t :: ts) => DoVisit (t :: ts) | _ => DoNothing end
  else DoNothing.

(** [gaps.length > 0 ? gaps.shift() : question] *)
Definition currentQuestionOf (c : Config) (s : State) : string :=
  hd (question c) (gaps s).

(** The schema of the request of the iteration that starts in [s]. *)
Definition stepSchema (s : State) : ResponseSchema :=
  getSchema (allowReflect s && bool_decide (length (gaps s) ≤ 1))
            (allowRead s && bool_decide (0 < size (allURLs s)))
            (allowAnswer s)
            (allowSearch s && bool_decide (size (allURLs s) < 20)).

(** The pre-flight check, then [model.generateContent], [trackUsage] and
    [JSON.parse]: lines 355-368 and 682-695. *)
Definition askAgent (c : Config) (e : StepEnv) (sch : ResponseSchema) (s : State)
    : M (StepAction * State) :=
  if bool_decide (tokenBudget c < Z.of_nat (usage s + estimatedTokens))%Z then
    throw (BudgetExceeded (usage s + estimatedTokens) (tokenBudget c))
  else
    _ ← emit (CallAgent sch);
    match generateContent e sch with
    | AgentThrows => throw OracleError
    | AgentReplies totalTokenCount text =>
        let s := trackUsage (default 0 totalTokenCount) s in
        match text with
        | None => throw SyntaxError
        | Some d => mret (d, s)
        end
    end.

(** The state once the decision [d] is parsed: counters advanced, the
    front gap taken, the four toggles back to [true]. *)
Definition afterDecision (d : StepAction) (s : State) : State :=
  {| step := S (step s); totalStep := S (totalStep s); badAttempts := badAttempts s;
     gaps := tail (gaps s); allQuestions := allQuestions s; allKeywords := allKeywords s;
     allKnowledge := allKnowledge s; badContext := badContext s;
     diaryContext := diaryContext s; allowAnswer := true; allowSearch := true;
     allowRead := true; allowReflect := true; thisStep := d; isAnswered := isAnswered s;
     allURLs := allURLs s; visitedURLs := visitedURLs s; usage := usage s;
     allContext := allContext s |}.

(** The [if ... else if] chain of lines 381-648, on the decision [d]. *)
Definition perform (c : Config) (e : StepEnv) (currentQuestion : string)
    (d : StepAction) (s : State) : M Flow :=
  match dispatch d with
  | DoAnswer => answerAction c e currentQuestion d s
  | DoReflect questions => reflectAction c e currentQuestion d questions s
  | DoSearch => searchAction c e currentQuestion d s
  | DoVisit targets => visitAction c e currentQuestion d targets s
  | DoNothing => mret (Continue s)
  end.

(** The body of the [while] loop, lines 317-650. *)
Definition iteration (c : Config) (e : StepEnv) (s : State) : M Flow :=
  '(d, s') ← askAgent c e (stepSchema s) s;
  perform c e (currentQuestionOf c s) d (afterDecision d s').

(** ** The run *)

Definition initialStep : StepAction :=
  {| action := "answer"; thoughts := ""; answer := Some ""; references := Some [];
     questionsToAnswer := None; searchQuery := None; URLTargets := None |}.

(** The state at the first test of the loop condition.  [transcript] is
    what [allContext] holds from earlier runs of the process. *)
Definition initialState (c : Config) (transcript : list ContextEntry) : State :=
  {| step := 0; totalStep := 0; badAttempts := 0; gaps := [question c];
     allQuestions := [question c]; allKeywords := []; allKnowledge := [];
     badContext := []; diaryContext := []; allowAnswer := true; allowSearch := true;
     allowRead := true; allowReflect := true; thisStep := initialStep;
     isAnswered := false; allURLs := ∅; visitedURLs := []; usage := existingUsage c;
     allContext := transcript |}.

(** The loop condition, line 316. *)
Definition loopCondition (c : Config) (s : State) : bool :=
  bool_decide (Z.of_nat (usage s) < tokenBudget c)%Z &&
  bool_decide (Z.of_nat (badAttempts s) ≤ maxBadAttempts c)%Z.

(** The [while] loop over the environments of its successive iterations.
    [None]: the loop wants another iteration and no environment is left. *)
Fixpoint loop (c : Config) (envs : list StepEnv) (s : State) : option (M State) :=
  if loopCondition c s then
    match envs with
    | [] => None
    | e :: rest =>
        match iteration c e s with
        | (log, Ok (Continue s')) => (fun m : M State => (log ++ m.1, m.2)) <$> loop c rest s'
        | (log, Ok (Break s')) => Some (log, Ok s')
        | (log, Throw err) => Some (log, Throw err)
        end
    end
  else Some (mret s).

(** What [getResponse] resolves to: the final decision and the tracker. *)
Record Response := { r_result : StepAction; r_usage : nat }.

(** The schema of the beast-mode request, line 678. *)
Definition beastSchema (s : State) : ResponseSchema :=
  getSchema false false (allowAnswer s) false.

(** After the loop, lines 652-698. *)
Definition afterLoop (c : Config) (beast : StepEnv) (s : State) : M Response :=
  let s := set_totalStep (S (totalStep s)) (set_step (S (step s)) s) in
  if isAnswered s then mret {| r_result := thisStep s; r_usage := usage s |}
  else
    '(d, s) ← askAgent c beast (beastSchema s) s;
    mret {| r_result := d; r_usage := usage s |}.

Definition getResponse (c : Config) (transcript : list ContextEntry)
    (envs : list StepEnv) (beast : StepEnv) : option (M Response) :=
  (fun m : M State => s ← m; afterLoop c beast s) <$> loop c envs (initialState c transcript).

(** The states at which the loop condition is tested: [iterate c envs s] is
    the state the loop arrives at from [s] after one iteration per
    environment of [envs], when none of them breaks or throws. *)
Fixpoint iterate (c : Config) (envs : list StepEnv) (s : State) : option State :=
  match envs with
  | [] => Some s
  | e :: rest =>
      if loopCondition c s then
        match result (iteration c e s) with
        | Ok (Continue s') => iterate c rest s'
        | _ => None
        end
      else None
  end.

(** ** Derived notions used in the statements *)

(** The record a rejected answer to the original question leaves behind. *)
Definition badAttemptOf (q : string) (d : StepAction) (ev : EvaluationResponse)
    (an : ErrorAnalysis) : BadAttempt :=
  {| ba_question := q; ba_answer := answer d; ba_evaluation := reasoning ev;
     ba_recap := ea_recap an; ba_blame := ea_blame an;
     ba_improvement := ea_improvement an |}.

(** The retry bookkeeping moves in one case only. *)
Definition rejectedAnswer (c : Config) (e : StepEnv) (s : State) (d : StepAction)
    (f : Flow) : Prop :=
  ∃ ev tokens an,
    action d = "answer" ∧
    currentQuestionOf c s = question c ∧
    (Z.of_nat (badAttempts s) < maxBadAttempts c)%Z ∧
    evaluateAnswer e (question c) (answer d) = Some (ev, tokens) ∧
    is_definitive ev = false ∧
    f = Continue (flow_state f) ∧
    badAttempts (flow_state f) = S (badAttempts s) ∧
    badContext (flow_state f) = badContext s ++ [badAttemptOf (question c) d ev an].

(** The invariant of the retry bookkeeping: one record per bad attempt,
    and the count within the ceiling. *)
Definition attemptsInv (c : Config) (s : State) : Prop :=
  length (badContext s) = badAttempts s ∧
  (Z.of_nat (badAttempts s) ≤ maxBadAttempts c)%Z.

(** No url is both visited and in the frontier. *)
Definition disjointURLs (s : State) : Prop :=
  ∀ target, target ∈ visitedURLs s -> allURLs s !! target = None.

(** The knowledge item the fetch of a task yields, when it succeeds. *)
Definition fetched (e : StepEnv) (task : nat * string) : option KnowledgeItem :=
  (fun r => urlKnowledge r.1) <$> readUrl e task.1 task.2.

(** The four action names the loop dispatches on. *)
Definition knownActions : list string := ["answer"; "reflect"; "search"; "visit"].

(** The queries of the search-adapter calls of a log, in the order issued. *)
Definition searchesOf (log : list Call) : list string :=
  omap (fun k => match k with CallSearch query => Some query | _ => None end) log.

(** What the search adapter of [e] returned to the calls that the log of
    one iteration holds; a call that threw returned nothing. *)
Definition searchReturns (e : StepEnv) (log : list Call) : list SearchResult :=
  mjoin (imap (fun j query => default [] (searchAdapter e j query)) (searchesOf log)).

(** The calls the action of decision [d] can issue: never the oracle, the
    search adapter only in a search. *)
Definition issuable (d : StepAction) (k : Call) : Prop :=
  match k with
  | CallAgent _ => False
  | CallSearch _ => dispatch d = DoSearch
  | _ => True
  end.

(** The urls a visit of [targets] fetches when [visited] is the visited
    list: the targets not in it, repetitions included. *)
Definition unvisited (visited targets : list string) : list string :=
  filter (fun target => target ∉ visited) targets.

(** ** Concrete runs

    Configurations and environments on which the statements below are
    evaluated. *)

Definition sampleConfig : Config :=
  {| question := "q"; tokenBudget := 1000; maxBadAttempts := 3; existingUsage := 0 |}.

(** A budget of 100 tokens. *)
Definition tightConfig : Config :=
  {| question := "q"; tokenBudget := 100; maxBadAttempts := 3; existingUsage := 0 |}.

(** No bad attempt is tolerated: the first answer to the original question
    breaks the loop unaccepted. *)
Definition strictConfig : Config :=
  {| question := "q"; tokenBudget := 1000; maxBadAttempts := 0; existingUsage := 0 |}.

(** Every collaborator throws, except the oracle, which replies [reply]. *)
Definition oracleOnly (reply : AgentReply) : StepEnv :=
  {| generateContent := fun _ => reply;
     evaluateAnswer := fun _ _ => None;
     analyzeSteps := fun _ => None;
     dedupQueries := fun _ _ => None;
     rewriteQuery := fun _ => None;
     searchAdapter := fun _ _ => None;
     readUrl := fun _ _ => None;
     completionOrder := [] |}.

Definition decision (name : string) : StepAction :=
  {| action := name; thoughts := ""; answer := None; references := None;
     questionsToAnswer := None; searchQuery := None; URLTargets := None |}.

Definition answerDecision (a : string) : StepAction :=
  {| action := "answer"; thoughts := ""; answer := Some a; references := None;
     questionsToAnswer := None; searchQuery := None; URLTargets := None |}.

Definition reflectDecision (qs : list string) : StepAction :=
  {| action := "reflect"; thoughts := ""; answer := None; references := None;
     questionsToAnswer := Some qs; searchQuery := None; URLTargets := None |}.

Definition searchDecision (query : string) : StepAction :=
  {| action := "search"; thoughts := ""; answer := None; references := None;
     questionsToAnswer := None; searchQuery := Some query; URLTargets := None |}.

Definition visitDecision (targets : list string) : StepAction :=
  {| action := "visit"; thoughts := ""; answer := None; references := None;
     questionsToAnswer := None; searchQuery := None; URLTargets := Some targets |}.

(** The beast-mode oracle: a well-formed best-effort answer. *)
Definition beastEnv : StepEnv :=
  oracleOnly (AgentReplies (Some 20) (Some (answerDecision "best effort"))).

Definition hedged : EvaluationResponse :=
  {| is_definitive := false; reasoning := "hedged" |}.

Definition diagnosis : ErrorAnalysis :=
  {| ea_recap := "recap"; ea_blame := "blame"; ea_improvement := "improvement" |}.

(** The oracle answers "maybe"; the evaluator rejects it; the analyzer
    returns [diagnosis]. *)
Definition rejectingEnv : StepEnv :=
  {| generateContent := fun _ => AgentReplies (Some 10) (Some (answerDecision "maybe"));
     evaluateAnswer := fun _ _ => Some (hedged, 5);
     analyzeSteps := fun _ => Some diagnosis;
     dedupQueries := fun _ _ => None;
     rewriteQuery := fun _ => None;
     searchAdapter := fun _ _ => None;
     readUrl := fun _ _ => None;
     completionOrder := [] |}.

(** The oracle answers at a cost of 60 tokens, the evaluator rejects the
    answer at a cost of 40. *)
Definition costlyRejectingEnv : StepEnv :=
  {| generateContent := fun _ => AgentReplies (Some 60) (Some (answerDecision "maybe"));
     evaluateAnswer := fun _ _ => Some (hedged, 40);
     analyzeSteps := fun _ => Some diagnosis;
     dedupQueries := fun _ _ => None;
     rewriteQuery := fun _ => None;
     searchAdapter := fun _ _ => None;
     readUrl := fun _ _ => None;
     completionOrder := [] |}.

(** The oracle proposes two sub-questions; both are new. *)
Definition freshReflectEnv : StepEnv :=
  {| generateContent := fun _ => AgentReplies (Some 10) (Some (reflectDecision ["a"; "b"]));
     evaluateAnswer := fun _ _ => None;
     analyzeSteps := fun _ => None;
     dedupQueries := fun candidates _ => Some candidates;
     rewriteQuery := fun _ => None;
     searchAdapter := fun _ _ => None;
     readUrl := fun _ _ => None;
     completionOrder := [] |}.

(** The oracle proposes the original question again; the deduplicator
    finds nothing new. *)
Definition staleReflectEnv : StepEnv :=
  {| generateContent := fun _ => AgentReplies (Some 10) (Some (reflectDecision ["q"]));
     evaluateAnswer := fun _ _ => None;
     analyzeSteps := fun _ => None;
     dedupQueries := fun _ _ => Some [];
     rewriteQuery := fun _ => None;
     searchAdapter := fun _ _ => None;
     readUrl := fun _ _ => None;
     completionOrder := [] |}.

(** The oracle asks for a search; the rewriter gives one keyword, which the
    deduplicator lets through; the search finds the page "u". *)
Definition searchEnv : StepEnv :=
  {| generateContent := fun _ => AgentReplies (Some 10) (Some (searchDecision "topic"));
     evaluateAnswer := fun _ _ => None;
     analyzeSteps := fun _ => None;
     dedupQueries := fun candidates _ => Some candidates;
     rewriteQuery := fun _ => Some ["topic"];
     searchAdapter := fun _ _ =>
       Some [{| sr_title := "t"; sr_url := "u"; sr_description := "" |}];
     readUrl := fun _ _ => None;
     completionOrder := [] |}.

(** The oracle asks to visit "u"; every fetch works. *)
Definition visitEnv : StepEnv :=
  {| generateContent := fun _ => AgentReplies (Some 10) (Some (visitDecision ["u"]));
     evaluateAnswer := fun _ _ => None;
     analyzeSteps := fun _ => None;
     dedupQueries := fun _ _ => None;
     rewriteQuery := fun _ => None;
     searchAdapter := fun _ _ => None;
     readUrl := fun _ target => Some ({| data := Some (target, "page") |}, 7);
     completionOrder := [] |}.

(** The oracle asks to visit "u" and "v"; the fetch of "v" fails. *)
Definition failingVisitEnv : StepEnv :=
  {| generateContent := fun _ => AgentReplies (Some 10) (Some (visitDecision ["u"; "v"]));
     evaluateAnswer := fun _ _ => None;
     analyzeSteps := fun _ => None;
     dedupQueries := fun _ _ => None;
     rewriteQuery := fun _ => None;
     searchAdapter := fun _ _ => None;
     readUrl := fun _ target =>
       if bool_decide (target = "v") then None
       else Some ({| data := Some (target, "page") |}, 7);
     completionOrder := [] |}.

(** A deduplicator that drops exactly the candidates already seen. *)
Definition exactDedup (candidates seen : list string) : option (list string) :=
  Some (filter (fun candidate => candidate ∉ seen) candidates).

Definition page (url title : string) : SearchResult :=
  {| sr_title := title; sr_url := url; sr_description := "" |}.

(** The oracle asks for a search; the rewriter gives the one keyword
    [keyword]; the deduplicator is exact; every search finds [pages]. *)
Definition keywordSearchEnv (keyword : string) (pages : list SearchResult) : StepEnv :=
  {| generateContent := fun _ => AgentReplies (Some 10) (Some (searchDecision keyword));
     evaluateAnswer := fun _ _ => None;
     analyzeSteps := fun _ => None;
     dedupQueries := exactDedup;
     rewriteQuery := fun _ => Some [keyword];
     searchAdapter := fun _ _ => Some pages;
     readUrl := fun _ _ => None;
     completionOrder := [] |}.

(** The oracle answers at a cost of 60 tokens, the evaluator rejects the
    answer at a cost of 200. *)
Definition wastefulRejectingEnv : StepEnv :=
  {| generateContent := fun _ => AgentReplies (Some 60) (Some (answerDecision "maybe"));
     evaluateAnswer := fun _ _ => Some (hedged, 200);
     analyzeSteps := fun _ => Some diagnosis;
     dedupQueries := fun _ _ => None;
     rewriteQuery := fun _ => None;
     searchAdapter := fun _ _ => None;
     readUrl := fun _ _ => None;
     completionOrder := [] |}.

(** The oracle asks to visit "u" once and "v" twice; every fetch works,
    and the last fetch to be issued settles first. *)
Definition revisitEnv : StepEnv :=
  {| generateContent := fun _ => AgentReplies (Some 10) (Some (visitDecision ["u"; "v"; "v"]));
     evaluateAnswer := fun _ _ => None;
     analyzeSteps := fun _ => None;
     dedupQueries := fun _ _ => None;
     rewriteQuery := fun _ => None;
     searchAdapter := fun _ _ => None;
     readUrl := fun i target =>
       Some ({| data := Some (target, if bool_decide (i = 0) then "first" else "second") |}, 7);
     completionOrder := [1] |}.

(** ** Further notions: what a run accumulates *)

(** The append-only records of a run: each list of [s] is an initial
    segment of the same list of [s']. *)
Definition grows (s s' : State) : Prop :=
  allKnowledge s `prefix_of` allKnowledge s' ∧
  allQuestions s `prefix_of` allQuestions s' ∧
  allKeywords s `prefix_of` allKeywords s' ∧
  visitedURLs s `prefix_of` visitedURLs s' ∧
  badContext s `prefix_of` badContext s' ∧
  allContext s `prefix_of` allContext s'.

(** The oracle answers a sub-question; the evaluator accepts what it is
    given. *)
Definition acceptingEnv : StepEnv :=
  {| generateContent := fun _ => AgentReplies (Some 10) (Some (answerDecision "42"));
     evaluateAnswer := fun _ _ => Some ({| is_definitive := true; reasoning := "clear" |}, 5);
     analyzeSteps := fun _ => None;
     dedupQueries := fun _ _ => None;
     rewriteQuery := fun _ => None;
     searchAdapter := fun _ _ => None;
     readUrl := fun _ _ => None;
     completionOrder := [] |}.

(** What holds of every state at which the loop condition is tested: no
    answer has been accepted yet, [step] has not overtaken [totalStep],
    every open gap is a recorded question, and the all-time list starts
    with the original question. *)
Definition loopInv (c : Config) (s : State) : Prop :=
  isAnswered s = false ∧
  step s ≤ totalStep s ∧
  (∀ g, g ∈ gaps s -> g ∈ allQuestions s) ∧
  head (allQuestions s) = Some (question c).

(** The gap queue holds a sub-question: the state after a reflect that
    found "a" and "b". *)
Definition subQuestionState : State :=
  set_gaps ["a"; "b"; "q"] (set_allQuestions ["q"; "a"; "b"] (initialState sampleConfig [])).

(** The state after a search and a visit of the page found. *)
Definition afterVisitState : State :=
  default (initialState sampleConfig [])
    (iterate sampleConfig [searchEnv; visitEnv] (initialState sampleConfig [])).

(** The oracle asks for a search; the rewriter gives one keyword, which the
    deduplicator rejects. *)
Definition staleSearchEnv : StepEnv :=
  {| generateContent := fun _ => AgentReplies (Some 10) (Some (searchDecision "topic"));
     evaluateAnswer := fun _ _ => None;
     analyzeSteps := fun _ => None;
     dedupQueries := fun _ _ => Some [];
     rewriteQuery := fun _ => Some ["topic"];
     searchAdapter := fun _ _ => None;
     readUrl := fun _ _ => None;
     completionOrder := [] |}.


(** A call that is not the fetch of an already visited url. *)
Definition freshRead (visited : list string) (k : Call) : Prop :=
  match k with
  | CallRead target => target ∉ visited
  | _ => True
  end.

(** The payload fields the schema declares for an action. *)
Definition payloadFields (name : string) : list string :=
  if bool_decide (name = "search") then ["searchQuery"]
  else if bool_decide (name = "answer") then ["answer"; "references"]
  else if bool_decide (name = "reflect") then ["questionsToAnswer"]
  else if bool_decide (name = "visit") then ["URLTargets"]
  else [].

(** The characters of a string that are a line break. *)
Definition lineBreaks (text : string) : list ascii :=
  filter (fun ch => ch = CR ∨ ch = LF) (String.list_ascii_of_string text).

(** ** [getPrompt] *)

(** [String.prototype.includes]. *)
Fixpoint includes (text search : string) : bool :=
  String.prefix search text ||
  match text with
  | EmptyString => false
  | String _ rest => includes rest search
  end.


Definition newline : string := String LF EmptyString.
Definition quote : string := String (ascii_of_nat 34) EmptyString.

(** [Array.prototype.join]. *)
Fixpoint join (sep : string) (l : list string) : string :=
  match l with
  | [] => ""
  | [x] => x
  | x :: rest => x +:+ sep +:+ join sep rest
  end.

(** A value interpolated into a template literal: an absent one prints as
    "undefined". *)
Definition shown (o : option string) : string := default "undefined" o.

(** The blocks [getPrompt] can push onto its [actions] array. *)
Inductive ActionBlock :=
| VisitBlock (entries : list (string * string))
| SearchBlock
| AnswerBlock (reflectHint : bool)
| BeastBlock
| ReflectBlock.


(** The [search] block, lines 187-190. *)
Definition searchText : list string :=
  ["**search**:";
   "- Use public search engines to find external sources";
   "- Focus on specific aspects of the question";
   "- Use keyword-based search queries only, not complete sentences"].

(** The beast-mode [answer] block, lines 200-247. *)
Definition beastText : list string :=
  ["**answer**:";
   "- You have gathered enough information to answer the question; they may not be perfect, but this is your very last chance to answer the question.";
   "- Use the most advanced reasoning ability to analyze every detail in the context.";
   "- When uncertain, make educated guesses based on available context and knowledge.";
   "- Responses must be definitive and comprehensive.";
   "- Structure your analysis using MECE (Mutually Exclusive, Collectively Exhaustive) principles.";
   "- Format your answer as a detailed analytical report using this structure:";
   "";
   "# Investigation Report";
   "";
   "## Executive Summary";
   "[1-2 paragraphs summarizing key findings]";
   "";
   "## Key Findings";
   "- Finding 1 [with supporting evidence]";
   "- Finding 2 [with supporting evidence]";
   "- Finding 3 [with supporting evidence]";
   "[etc...]";
   "";
   "## Detailed Analysis";
   "### Context Overview";
   "[Background information and context]";
   "";
   "### Primary Analysis";
   "[Core analysis of main points]";
   "";
   "### Secondary Considerations";
   "[Additional relevant factors]";
   "";
   "### Evidence Assessment";
   "- Source 1: [evaluation]";
   "- Source 2: [evaluation]";
   "[etc...]";
   "";
   "## Conclusions";
   "[Definitive statements based on analysis]";
   "";
   "## Recommendations";
   "- Recommendation 1";
   "- Recommendation 2";
   "[etc...]";
   "";
   "## References";
   "- [Source 1]";
   "- [Source 2]";
   "[etc...]";
   "";
   "Note: All sections must be comprehensive and backed by evidence from the provided context."].

(** The [reflect] block, lines 251-258. *)
Definition reflectText : list string :=
  ["**reflect**:";
   "- 仮説的なシナリオや体系的な分析を通じて重要な分析を実行";
   "- 知識のギャップを特定し、必要な明確化のための質問を作成";
   "- 質問の要件:";
   "  - オリジナルであること（既存の質問の変形は不可）";
   "  - 単一の概念に焦点を当てる";
   "  - 20語以内";
   "  - 複合的/複雑な質問は避ける"].

(** The footer, lines 268-274. *)
Definition footerText : list string :=
  ["厳密なJSON形式でのみ応答してください。";
   "";
   "重要な要件:";
   "- 1つのアクションタイプのみを含める";
   "- サポートされていないキーは追加しない";
   "- JSON以外のテキスト、マークダウン、説明は含めない";
   "- 厳密なJSON構文を維持する"].

(** One line of the url list, line 176. *)
Definition urlLine (entry : string * string) : string :=
  "  + " +:+ quote +:+ entry.1 +:+ quote +:+ ": " +:+ quote +:+ entry.2 +:+ quote.

(** The text of a block, lines 179-258. *)
Definition renderBlock (b : ActionBlock) : string :=
  match b with
  | VisitBlock entries =>
      join newline
        ["**visit**:";
         "- Select the most relevant URLs from the following list to gather external knowledge";
         join newline (urlLine <$> entries);
         "- Investigate specific URL content in detail when search results are sufficient";
         "- Full content of URLs is accessible"]
  | SearchBlock => join newline searchText
  | AnswerBlock reflectHint =>
      join newline
        ["**answer**:";
         "- Provide final answer only when 100% certain";
         "- Responses must be definitive (no ambiguity, uncertainty, or disclaimers)" +:+
         (if reflectHint
          then newline +:+ "- Use " +:+ quote +:+ "reflect" +:+ quote +:+ " if questions remain"
          else "")]
  | BeastBlock => join newline beastText
  | ReflectBlock => join newline reflectText
  end.

(** The [actions] array, lines 172-259.  [entries] is [Object.entries] of
    the frontier passed as [allURLs]. *)
Definition promptActions (allowReflect allowAnswer allowRead allowSearch : bool)
    (entries : list (string * string)) (beastMode : bool) : list ActionBlock :=
  when (bool_decide (0 < length entries) && allowRead) [VisitBlock entries] ++
  when allowSearch [SearchBlock] ++
  when allowAnswer [AnswerBlock allowReflect] ++
  when beastMode [BeastBlock] ++
  when allowReflect [ReflectBlock].

(** One entry of the knowledge section, line 139. *)
Definition knowledgeEntry (i : nat) (k : KnowledgeItem) : string :=
  "### 知識 " +:+ pretty (i + 1) +:+ ": " +:+ k_question k +:+ newline +:+ shown (k_answer k).

(** One entry of the failed attempts, lines 151-156. *)
Definition attemptEntry (i : nat) (b : BadAttempt) : string :=
  join newline
    ["### 試行 " +:+ pretty (i + 1);
     "- 質問: " +:+ ba_question b;
     "- 回答: " +:+ shown (ba_answer b);
     "- 却下理由: " +:+ ba_evaluation b;
     "- 行動の要約: " +:+ ba_recap b;
     "- 問題点: " +:+ ba_blame b].

(** The [sections] array, lines 118-274.  [now] is
    [new Date().toUTCString()]; an argument the caller leaves out behaves
    like an empty list. *)
Definition promptSections (now question : string) (context : list string)
    (allowReflect allowAnswer allowRead allowSearch : bool)
    (badContext : list BadAttempt) (knowledge : list KnowledgeItem)
    (entries : list (string * string)) (beastMode : bool) : list string :=
  [join newline
     ["現在の日時: " +:+ now;
      "";
      "あなたは多段階推論を専門とする高度なAIリサーチアナリストです。トレーニングデータと過去の学習経験を活用して、以下の質問に確実に回答してください：";
      "";
      "## 質問";
      question]] ++
  when (bool_decide (0 < length context))
    [join newline
       ["## これまでの行動";
        "以下の行動を実行しました：";
        "";
        join newline context]] ++
  when (bool_decide (0 < length knowledge))
    [join newline
       ["## 収集した知識";
        "元の質問に回答するのに役立つ可能性のある知識を収集しました。以下が現在までに収集した知識です：";
        "";
        join (newline +:+ newline) (imap knowledgeEntry knowledge)]] ++
  when (bool_decide (0 < length badContext))
    [join newline
       ["## 失敗した試行";
        "以下の行動を試みましたが、質問への回答を見つけることができませんでした。";
        "";
        join (newline +:+ newline) (imap attemptEntry badContext);
        "";
        "## 学んだ戦略";
        join newline (ba_improvement <$> badContext);
        ""]] ++
  [join newline
     ["## 実行可能なアクション";
      "";
      "現在のコンテキストに基づいて、以下のアクションの中から1つを選択してください：";
      "";
      join (newline +:+ newline)
        (renderBlock <$> promptActions allowReflect allowAnswer allowRead allowSearch
                           entries beastMode)];
   join newline footerText].

(** [getPrompt], lines 105-277.  The parameter [allQuestions] is declared
    and never read. *)
Definition getPrompt (now question : string) (context allQuestions : list string)
    (allowReflect allowAnswer allowRead allowSearch : bool)
    (badContext : list BadAttempt) (knowledge : list KnowledgeItem)
    (entries : list (string * string)) (beastMode : bool) : string :=
  join (newline +:+ newline)
    (promptSections now question context allowReflect allowAnswer allowRead allowSearch
       badContext knowledge entries beastMode).



(** The two prompts [getResponse] builds, lines 332-344 and 659-671: that
    of the iteration that starts in [s], and the beast-mode one after the
    loop.  [now] is the date, [context] the text of the diary and
    [entries] the [Object.entries] of the frontier. *)
Definition stepPrompt (c : Config) (now : string) (context : list string)
    (entries : list (string * string)) (s : State) : string :=
  getPrompt now (currentQuestionOf c s) context (allQuestions s)
    (allowReflect s && bool_decide (length (gaps s) ≤ 1))
    (allowAnswer s)
    (allowRead s && bool_decide (0 < size (allURLs s)))
    (allowSearch s && bool_decide (size (allURLs s) < 20))
    (badContext s) (allKnowledge s) entries false.

Definition beastPrompt (c : Config) (now : string) (context : list string)
    (entries : list (string * string)) (s : State) : string :=
  getPrompt now (question c) context (allQuestions s) false false false false
    (badContext s) (allKnowledge s) entries true.

(** The heading of an action's block in the prompt. *)
Definition heading (name : string) : string := "**" +:+ name +:+ "**:".

(** A text without an asterisk. *)
Definition plain (text : string) : Prop := includes text "*" = false.

Definition plainKnowledge (k : KnowledgeItem) : Prop :=
  plain (k_question k) ∧ plain (shown (k_answer k)).

Definition plainAttempt (b : BadAttempt) : Prop :=
  plain (ba_question b) ∧ plain (shown (ba_answer b)) ∧ plain (ba_evaluation b) ∧
  plain (ba_recap b) ∧ plain (ba_blame b) ∧ plain (ba_improvement b).

(** No text that goes into the prompts of state [s] has an asterisk. *)
Definition plainInputs (c : Config) (now : string) (context : list string)
    (entries : list (string * string)) (s : State) : Prop :=
  plain now ∧ plain (question c) ∧ Forall plain (gaps s) ∧ Forall plain context ∧
  Forall (fun entry => plain entry.1 ∧ plain entry.2) entries ∧
  Forall plainKnowledge (allKnowledge s) ∧ Forall plainAttempt (badContext s).

(** The state after a search that found the page "u". *)
Definition afterSearchState : State :=
  default (initialState sampleConfig [])
    (iterate sampleConfig [searchEnv] (initialState sampleConfig [])).

(** ** Report files: [extractTitle] and [getTimestamp]

    [extractTitle] depends on what JavaScript counts as white space, which
    is a matter of UTF-16 code units, so the report is a list of code
    units here. *)

(** The code units of an ASCII text. *)
Definition units (text : string) : list N :=
  N_of_ascii <$> String.list_ascii_of_string text.

(** White space and line terminators: what [trim] strips and [\s] matches. *)
Definition isWhiteSpace (u : N) : bool :=
  bool_decide (u ∈ [9; 10; 11; 12; 13; 32; 160; 5760; 8232; 8233; 8239; 8287; 12288; 65279]%N)
  || (8192 <=? u)%N && (u <=? 8202)%N.

(** [String.prototype.split] on a one-unit separator. *)
Fixpoint splitOn (sep : N) (text : list N) : list (list N) :=
  match text with
  | [] => [[]]
  | u :: rest =>
      if bool_decide (u = sep) then [] :: splitOn sep rest
      else match splitOn sep rest with
           | first :: others => (u :: first) :: others
           | [] => [[u]]
           end
  end.

Fixpoint startsWith (prefix text : list N) : bool :=
  match prefix, text with
  | [], _ => true
  | p :: prefix', u :: text' => bool_decide (u = p) && startsWith prefix' text'
  | _ :: _, [] => false
  end.

Fixpoint dropWhile {A} (f : A -> bool) (l : list A) : list A :=
  match l with
  | [] => []
  | x :: rest => if f x then dropWhile f rest else l
  end.

(** [String.prototype.trim]. *)
Definition trim (text : list N) : list N :=
  reverse (dropWhile isWhiteSpace (reverse (dropWhile isWhiteSpace text))).

(** [replace(/\s+/g, '_')]: every maximal run of white space becomes one
    underscore; [inRun] tells that the run has begun. *)
Fixpoint replaceRuns (inRun : bool) (text : list N) : list N :=
  match text with
  | [] => []
  | u :: rest =>
      if isWhiteSpace u then
        if inRun then replaceRuns true rest else 95%N :: replaceRuns true rest
      else u :: replaceRuns false rest
  end.

Definition lineFeed : N := 10.

(** The title a heading line gives: [line.substring(2).trim().replace(...)]. *)
Definition titleOf (line : list N) : list N :=
  replaceRuns false (trim (drop 2 line)).

(** [extractTitle], lines 728-736. *)
Definition extractTitle (report : list N) : list N :=
  match list_find (fun line => startsWith (units "# ") line) (splitOn lineFeed report) with
  | Some (_, line) => titleOf line
  | None => units "report"
  end.

(** What [getTimestamp] reads off [new Date()]: the year, the month counted
    from 0, the day of the month, the hours and the minutes. *)
Record LocalTime := {
  getFullYear : nat;
  getMonth : nat;
  getDate : nat;
  getHours : nat;
  getMinutes : nat
}.

(** [String.prototype.padStart]. *)
Definition padStart (targetLength : nat) (padString text : string) : string :=
  if bool_decide (targetLength ≤ String.length text) || bool_decide (padString = "") then text
  else
    let missing := targetLength - String.length text in
    String.substring 0 missing (foldr String.append "" (replicate missing padString)) +:+ text.

(** [String(n).padStart(2, '0')]. *)
Definition twoDigits (n : nat) : string := padStart 2 "0" (pretty n).

(** [getTimestamp], lines 717-725. *)
Definition getTimestamp (now : LocalTime) : string :=
  pretty (getFullYear now) +:+ "-" +:+ twoDigits (getMonth now + 1) +:+ "-" +:+
  twoDigits (getDate now) +:+ "-" +:+ twoDigits (getHours now) +:+ twoDigits (getMinutes now).

(** The local times a [Date] can give, in the years that print with four
    digits. *)
Definition validTime (t : LocalTime) : Prop :=
  1000 ≤ getFullYear t < 10 * 1000 ∧ getMonth t < 12 ∧ 1 ≤ getDate t ≤ 31 ∧
  getHours t < 24 ∧ getMinutes t < 60.

(** ** The evaluator's model: [createModel] and [evaluateAnswer] *)

(** What JavaScript code can throw, as far as a [catch] clause here looks
    at it.  [createModel] reads the [message] of what it caught: on [null]
    and [undefined] that read is itself a [TypeError]; any other value has
    a [message] or has none.  A [message] is [undefined] or [null], or a
    string, or some other value, of which only what
    [message.includes(phrase)] does matters: it throws (on a number, which
    has no such method, a [TypeError]) or returns something truthy or
    falsy. *)
Inductive Thrown :=
| Nullish
| Value (message : Message)
with Message :=
| NoMessage
| TextMessage (text : string)
| OtherMessage (includes : string -> Thrown + bool).

(** [message?.includes(phrase)]: truthy or falsy, [undefined] being falsy,
    or thrown. *)
Definition mentions (message : Message) (phrase : string) : Thrown + bool :=
  match message with
  | NoMessage => inr false
  | TextMessage text => inr (includes text phrase)
  | OtherMessage includes => includes phrase
  end.

Module ModelGenerator.
Section Models.
(** The temperature is a number and the schema any object; neither is
    looked into. *)
Context {Temperature Schema : Type}.

(** The [TypeError] of reading the property of the given name off [null]
    or [undefined]; its text is the engine's. *)
Context (typeError : string -> Thrown).

Record ModelConfig := {
  model : string;
  temperature : Temperature;
  fallbackModel : string
}.

(** What [getGenerativeModel] is asked for. *)
Record GenerativeModel := {
  gm_model : string;
  gm_temperature : Temperature;
  gm_responseMimeType : string;
  gm_responseSchema : Schema
}.

Definition getGenerativeModel (name : string) (config : ModelConfig) (schema : Schema)
    : GenerativeModel :=
  {| gm_model := name; gm_temperature := temperature config;
     gm_responseMimeType := "application/json"; gm_responseSchema := schema |}.

(** [createModel].  [probe m] is what [m.generateContent("test")] does:
    it returns ([None]) or throws.  The [catch] clause reads
    [error.message] before anything else, and rethrows [error] when
    neither phrase is found. *)
Definition createModel (probe : GenerativeModel -> option Thrown) (config : ModelConfig)
    (schema : Schema) : Thrown + GenerativeModel :=
  let primary := getGenerativeModel (model config) config schema in
  let fallback := getGenerativeModel (fallbackModel config) config schema in
  match probe primary with
  | None => inr primary
  | Some Nullish => inl (typeError "message")
  | Some (Value message) =>
      match mentions message "too many" with
      | inl raised => inl raised
      | inr true => inr fallback
      | inr false =>
          match mentions message "not available" with
          | inl raised => inl raised
          | inr true => inr fallback
          | inr false => inl (Value message)
          end
      end
  end.
End Models.
End ModelGenerator.

Module Evaluator.
Import ModelGenerator.
Section Evaluation.
Context {Temperature Schema : Type}.

(** What [model.generateContent(prompt)] does: it throws, or it returns
    a response with [usageMetadata?.totalTokenCount] and a text on which
    [JSON.parse] succeeds ([inr]) or throws ([inl]). *)
Inductive Generation :=
| GenerationThrows (error : Thrown)
| GenerationReplies (totalTokenCount : option nat) (text : Thrown + EvaluationResponse).

(** The services during one call. *)
Record Services := {
  probe : @GenerativeModel Temperature Schema -> option Thrown;
  generateContent : @GenerativeModel Temperature Schema -> Generation
}.

(** The module variable [model], and the total of the tracker the caller
    passes ([None]: no tracker is passed, as in the module's own [main]). *)
Record Memory := {
  model : option (@GenerativeModel Temperature Schema);
  tracker : option nat
}.

(** What a call leaves and gives: the memory, whether [createModel] was
    called, and the response or the error thrown. *)
Record Outcome := {
  memory : Memory;
  created : bool;
  returned : Thrown + EvaluationResponse
}.

(** The [TypeError] of reading the property of the given name off [null]
    or [undefined], as [tracker.trackUsage] does on a tracker that is
    [undefined]; its text is the engine's. *)
Context (typeError : string -> Thrown).

(** The [try] block with the model [m]; the [catch] clears [model]. *)
Definition evaluateWith (services : Services) (m : GenerativeModel) (was : Memory)
    (created : bool) : Outcome :=
  let failed (usage : option nat) (error : Thrown) :=
    {| memory := {| model := None; tracker := usage |}; created := created;
       returned := inl error |} in
  match generateContent services m with
  | GenerationThrows error => failed (tracker was) error
  | GenerationReplies totalTokenCount text =>
      match tracker was with
      | None => failed None (typeError "trackUsage")
      | Some total =>
          let usage := Some (total + default 0 totalTokenCount) in
          match text with
          | inl error => failed usage error
          | inr response =>
              {| memory := {| model := Some m; tracker := usage |}; created := created;
                 returned := inr response |}
          end
      end
  end.

(** [evaluateAnswer]; [config] is [modelConfigs.evaluator] and [schema]
    the module's [responseSchema]. *)
Definition evaluateAnswer (services : Services) (config : ModelConfig) (schema : Schema)
    (was : Memory) : Outcome :=
  match model was with
  | Some m => evaluateWith services m was false
  | None =>
      match createModel typeError (probe services) config schema with
      | inl error => {| memory := was; created := true; returned := inl error |}
      | inr m => evaluateWith services m was true
      end
  end.

(** A series of calls, each with its services, on the memory the
    previous one left. *)
Fixpoint evaluateAll (calls : list Services) (config : ModelConfig) (schema : Schema)
    (was : Memory) : list Outcome :=
  match calls with
  | [] => []
  | services :: rest =>
      let out := evaluateAnswer services config schema was in
      out :: evaluateAll rest config schema (memory out)
  end.
End Evaluation.
End Evaluator.


(** A call of the evaluator that threw. *)
Definition threw {Temperature Schema : Type}
    (out : @Evaluator.Outcome Temperature Schema) : bool :=
  match Evaluator.returned out with inl _ => true | inr _ => false end.

(** [modelConfigs.evaluator], with its temperature 0. *)
Definition evaluatorConfig : @ModelGenerator.ModelConfig nat :=
  {| ModelGenerator.model := "gemini-exp-1206"; ModelGenerator.temperature := 0;
     ModelGenerator.fallbackModel := "gemini-1.5-flash" |}.

(** Services in which the probe works and the model replies with a text
    that is not JSON, at a cost of 30 tokens. *)
Definition garbledServices : @Evaluator.Services nat unit :=
  {| Evaluator.probe := fun _ => None;
     Evaluator.generateContent := fun _ =>
       Evaluator.GenerationReplies (Some 30) (inl (Value (TextMessage "Unexpected token"))) |}.

(** Services in which the probe works and the model gives a verdict, at a
    cost of 30 tokens. *)
Definition workingServices : @Evaluator.Services nat unit :=
  {| Evaluator.probe := fun _ => None;
     Evaluator.generateContent := fun _ =>
       Evaluator.GenerationReplies (Some 30) (inr hedged) |}.

(** ** [saveFinalReport] *)

(** The file system and the translation model, each call of which may
    throw. *)
Record Outside := {
  mkdir : list N -> option Thrown;
  writeFile : list N -> list N -> option Thrown;
  translate : list N -> Thrown + list N
}.

(** What has been done on disk. *)
Inductive DiskEffect :=
| MadeDirectory (path : list N)
| WroteFile (path content : list N).

(** [translateToJapanese], lines 739-752: the prompt is the instruction,
    an empty line and the report. *)
Definition translateToJapanese (outside : Outside) (report : list N) : Thrown + list N :=
  translate outside
    (units "Translate the following English text into Japanese:" ++
     [lineFeed; lineFeed] ++ report).

Definition englishFileName (now : LocalTime) (report : list N) : list N :=
  units "outputs/" ++ units (getTimestamp now) ++ units "-" ++ extractTitle report ++
  units ".md".

Definition japaneseFileName (now : LocalTime) (report : list N) : list N :=
  units "outputs/" ++ units (getTimestamp now) ++ units "-" ++ extractTitle report ++
  units "-ja.md".

(** [saveFinalReport], lines 755-772: what was done, and the error thrown
    if any. *)
Definition saveFinalReport (outside : Outside) (now : LocalTime) (report : list N)
    : list DiskEffect * option Thrown :=
  match mkdir outside (units "outputs") with
  | Some error => ([], Some error)
  | None =>
      let made := [MadeDirectory (units "outputs")] in
      match writeFile outside (englishFileName now report) report with
      | Some error => (made, Some error)
      | None =>
          let english := made ++ [WroteFile (englishFileName now report) report] in
          match translateToJapanese outside report with
          | inl error => (english, Some error)
          | inr translated =>
              match writeFile outside (japaneseFileName now report) translated with
              | Some error => (english, Some error)
              | None =>
                  (english ++ [WroteFile (japaneseFileName now report) translated], None)
              end
          end
      end
  end.

(** A disk that works and a translation that fails. *)
Definition untranslatable : Outside :=
  {| mkdir := fun _ => None;
     writeFile := fun _ _ => None;
     translate := fun _ => inl (Value (TextMessage "quota")) |}.

(** * Properties *)

(** ** The definitions at work *)

Example first_request_offers_no_visit :
  action_enum (stepSchema (initialState sampleConfig [])) = ["search"; "answer"; "reflect"].
Proof. reflexivity. Qed.

Example line_breaks_become_spaces :
  removeAllLineBreaks (String "a" (String CR (String LF (String "b" (String LF "c"))))) =
  "a b c".
Proof. reflexivity. Qed.

Example unknown_action_is_skipped :
  result (iteration sampleConfig (oracleOnly (AgentReplies None (Some (decision "dance"))))
            (initialState sampleConfig [])) =
  Ok (Continue (afterDecision (decision "dance") (initialState sampleConfig []))).
Proof. reflexivity. Qed.

Example accepted_answer_is_returned :
  getResponse sampleConfig []
    [{| generateContent := fun _ => AgentReplies (Some 10) (Some (answerDecision "42"));
        evaluateAnswer := fun _ _ => Some ({| is_definitive := true; reasoning := "" |}, 5);
        analyzeSteps := fun _ => None; dedupQueries := fun _ _ => None;
        rewriteQuery := fun _ => None; searchAdapter := fun _ _ => None;
        readUrl := fun _ _ => None; completionOrder := [] |}]
    (oracleOnly AgentThrows) =
  Some ([CallAgent (stepSchema (initialState sampleConfig []));
         CallEvaluate "q" (Some "42")],
        Ok {| r_result := answerDecision "42"; r_usage := 15 |}).
Proof. vm_compute. reflexivity. Qed.

(** ** The monad and the request *)

Lemma bind_Ok {A B} (m : M A) (f : A -> M B) (a : A) :
  m.2 = Ok a -> m ≫= f = (m.1 ++ (f a).1, (f a).2).
Proof. destruct m as [log r]; simpl; intros ->; reflexivity. Qed.

Lemma bind_Throw {A B} (m : M A) (f : A -> M B) (err : Error) :
  m.2 = Throw err -> m ≫= f = (m.1, Throw err).
Proof. destruct m as [log r]; simpl; intros ->; reflexivity. Qed.

Lemma result_bind_Ok {A B} (m : M A) (f : A -> M B) (b : B) :
  result (m ≫= f) = Ok b -> ∃ a, result m = Ok a ∧ result (f a) = Ok b.
Proof.
  destruct m as [log [a|err]]; unfold result; simpl; [|discriminate].
  intros H; exists a; split; [reflexivity|exact H].
Qed.

Lemma call_Some {A} (k : Call) (err : Error) (a : A) :
  call k err (Some a) = ([k], Ok a).
Proof. reflexivity. Qed.

Lemma call_None {A} (k : Call) (err : Error) :
  call k err (@None A) = ([k], Throw err).
Proof. reflexivity. Qed.

Lemma result_call_Ok {A} (k : Call) (err : Error) (r : option A) (a : A) :
  result (call k err r) = Ok a -> r = Some a.
Proof. destruct r; unfold result; simpl; congruence. Qed.

Lemma flow_state_Continue s : flow_state (Continue s) = s.
Proof. reflexivity. Qed.

Lemma calls_bind {A B} (m : M A) (f : A -> M B) :
  calls (m ≫= f) =
  calls m ++ match result m with Ok a => calls (f a) | Throw _ => [] end.
Proof. destruct m as [log [a|err]]; cbn; [reflexivity|rewrite app_nil_r; reflexivity]. Qed.

Lemma calls_call {A} (k : Call) (err : Error) (r : option A) : calls (call k err r) = [k].
Proof. destruct r; reflexivity. Qed.

Lemma Forall_calls_bind {A B} (P : Call -> Prop) (m : M A) (f : A -> M B) :
  Forall P (calls m) ->
  (∀ a, result m = Ok a -> Forall P (calls (f a))) ->
  Forall P (calls (m ≫= f)).
Proof.
  intros Hm Hf. rewrite calls_bind. apply Forall_app; split; [exact Hm|].
  destruct (result m) as [a|err]; [apply Hf; reflexivity|constructor].
Qed.

Lemma Forall_calls_call {A} (P : Call -> Prop) k err (r : option A) :
  P k -> Forall P (calls (call k err r)).
Proof. intros Hk. rewrite calls_call. repeat constructor; exact Hk. Qed.

Lemma Forall_calls_ret {A} (P : Call -> Prop) (a : A) : Forall P (calls (mret a : M A)).
Proof. constructor. Qed.

Lemma action_enum_getSchema (allowReflect allowRead allowAnswer allowSearch : bool) :
  action_enum (getSchema allowReflect allowRead allowAnswer allowSearch) =
  when allowSearch ["search"] ++ when allowAnswer ["answer"] ++
  when allowReflect ["reflect"] ++ when allowRead ["visit"].
Proof. reflexivity. Qed.

(** The request of an iteration offers [answer] exactly when [allowAnswer]
    is set, and [reflect] only when [allowReflect] is. *)
Lemma answer_offered (s : State) :
  "answer" ∈ action_enum (stepSchema s) ↔ allowAnswer s = true.
Proof.
  unfold stepSchema; rewrite action_enum_getSchema.
  destruct (allowAnswer s), (allowSearch s && _), (allowReflect s && _), (allowRead s && _);
    simpl; split; intros H; try reflexivity; try discriminate;
    repeat (apply elem_of_cons in H as [H|H]; [discriminate|]);
    try (by apply elem_of_nil in H); set_solver.
Qed.

Lemma reflect_offered (s : State) :
  "reflect" ∈ action_enum (stepSchema s) -> allowReflect s = true.
Proof.
  unfold stepSchema; rewrite action_enum_getSchema.
  destruct (allowReflect s); [reflexivity|]; simpl.
  destruct (allowAnswer s), (allowSearch s && _), (allowRead s && _); simpl; intros H;
    repeat (apply elem_of_cons in H as [H|H]; [discriminate|]);
    by apply elem_of_nil in H.
Qed.

(** An oracle request that is issued and answered with parseable text. *)
Lemma askAgent_Ok c e sch s totalTokenCount d :
  (Z.of_nat (usage s + estimatedTokens) ≤ tokenBudget c)%Z ->
  generateContent e sch = AgentReplies totalTokenCount (Some d) ->
  askAgent c e sch s = ([CallAgent sch], Ok (d, trackUsage (default 0 totalTokenCount) s)).
Proof.
  intros Hb Hg; unfold askAgent.
  rewrite bool_decide_eq_false_2 by lia.
  cbn; rewrite Hg; reflexivity.
Qed.

Lemma askAgent_inv c e sch s d s' :
  result (askAgent c e sch s) = Ok (d, s') ->
  (Z.of_nat (usage s + estimatedTokens) ≤ tokenBudget c)%Z ∧
  ∃ totalTokenCount,
    generateContent e sch = AgentReplies totalTokenCount (Some d) ∧
    s' = trackUsage (default 0 totalTokenCount) s.
Proof.
  unfold askAgent; case_bool_decide as Hb; [discriminate|].
  cbn; destruct (generateContent e sch) as [|tok [d'|]]; cbn; try discriminate.
  intros [= <- <-]; split; [lia|]; eauto.
Qed.

Lemma iteration_Ok c e s totalTokenCount d :
  (Z.of_nat (usage s + estimatedTokens) ≤ tokenBudget c)%Z ->
  generateContent e (stepSchema s) = AgentReplies totalTokenCount (Some d) ->
  let m := perform c e (currentQuestionOf c s) d
             (afterDecision d (trackUsage (default 0 totalTokenCount) s)) in
  iteration c e s = (CallAgent (stepSchema s) :: m.1, m.2).
Proof.
  intros Hb Hg; unfold iteration.
  rewrite (askAgent_Ok _ _ _ _ _ _ Hb Hg); reflexivity.
Qed.

Lemma iteration_inv c e s f :
  result (iteration c e s) = Ok f ->
  (Z.of_nat (usage s + estimatedTokens) ≤ tokenBudget c)%Z ∧
  ∃ totalTokenCount d,
    generateContent e (stepSchema s) = AgentReplies totalTokenCount (Some d) ∧
    result (perform c e (currentQuestionOf c s) d
              (afterDecision d (trackUsage (default 0 totalTokenCount) s))) = Ok f.
Proof.
  unfold iteration; intros H.
  apply result_bind_Ok in H as ([d s'] & Ha & Hp).
  apply askAgent_inv in Ha as (Hb & tok & Hg & ->); eauto.
Qed.

(** ** The [answer] action *)

Lemma answerAction_rejected c e d s ev tokens an :
  (Z.of_nat (badAttempts s) < maxBadAttempts c)%Z ->
  evaluateAnswer e (question c) (answer d) = Some (ev, tokens) ->
  is_definitive ev = false ->
  analyzeSteps e (diaryContext s ++
    [DiaryBadAnswer (step s) (question c) (answer d) (reasoning ev)]) = Some an ->
  ∃ s', result (answerAction c e (question c) d s) = Ok (Continue s') ∧
        badContext s' = badContext s ++ [badAttemptOf (question c) d ev an] ∧
        badAttempts s' = S (badAttempts s) ∧
        allowAnswer s' = false ∧
        diaryContext s' = [] ∧
        step s' = 0 ∧
        totalStep s' = totalStep s.
Proof.
  intros Hlt Hev Hdef Han; unfold answerAction.
  rewrite Hev, call_Some; cbn -[Z.of_nat].
  rewrite bool_decide_eq_true_2 by reflexivity.
  rewrite bool_decide_eq_false_2 by lia.
  rewrite Hdef; cbn. unfold push_diary in Han |- *; cbn in Han |- *.
  rewrite Han; cbn.
  eexists; split; [reflexivity|]; cbn; repeat split.
Qed.

(** Whatever an iteration does, its decision is what [thisStep] holds
    afterwards, and [answer] is allowed again unless the decision was an
    [answer]. *)
Lemma searchLoop_frame e queries : ∀ i found s found' s',
  result (searchLoop e i queries found s) = Ok (found', s') ->
  thisStep s' = thisStep s ∧ allowAnswer s' = allowAnswer s ∧
  allowReflect s' = allowReflect s ∧ badAttempts s' = badAttempts s ∧
  badContext s' = badContext s ∧ visitedURLs s' = visitedURLs s ∧
  gaps s' = gaps s ∧ step s' = step s ∧ totalStep s' = totalStep s ∧
  diaryContext s' = diaryContext s.
Proof.
  induction queries as [|query rest IH]; intros i found s found' s' H.
  - cbn in H; injection H as <- <-; repeat split.
  - cbn [searchLoop] in H. apply result_bind_Ok in H as (results & _ & H).
    apply IH in H; cbn in H; exact H.
Qed.

Lemma settleAll_frame e tasks : ∀ s s',
  result (settleAll e tasks s) = Ok s' ->
  thisStep s' = thisStep s ∧ allowAnswer s' = allowAnswer s ∧
  allowReflect s' = allowReflect s ∧ badAttempts s' = badAttempts s ∧
  badContext s' = badContext s ∧ gaps s' = gaps s ∧ step s' = step s ∧
  totalStep s' = totalStep s ∧ diaryContext s' = diaryContext s.
Proof.
  induction tasks as [|task rest IH]; intros s s' H.
  - cbn in H; injection H as <-; repeat split.
  - cbn [settleAll] in H. apply result_bind_Ok in H as (s1 & H1 & H).
    apply IH in H. unfold settle in H1.
    destruct (readUrl e task.1 task.2) as [[response tokens]|]; [|discriminate].
    cbn in H1; injection H1 as <-; cbn in H; exact H.
Qed.

(** What a completed [answer] action does to the retry bookkeeping: nothing,
    unless the answer was to the original question, below the ceiling, and
    judged non-definitive. *)
Lemma answerAction_inv c e q d s f :
  result (answerAction c e q d s) = Ok f ->
  thisStep (flow_state f) = thisStep s ∧
  allowReflect (flow_state f) = allowReflect s ∧
  allURLs (flow_state f) = allURLs s ∧
  visitedURLs (flow_state f) = visitedURLs s ∧
  totalStep (flow_state f) = totalStep s ∧
  ((badAttempts (flow_state f) = badAttempts s ∧
    badContext (flow_state f) = badContext s ∧
    allowAnswer (flow_state f) = allowAnswer s) ∨
   (∃ ev tokens an,
      q = question c ∧
      (Z.of_nat (badAttempts s) < maxBadAttempts c)%Z ∧
      evaluateAnswer e q (answer d) = Some (ev, tokens) ∧
      is_definitive ev = false ∧
      f = Continue (flow_state f) ∧
      badAttempts (flow_state f) = S (badAttempts s) ∧
      badContext (flow_state f) = badContext s ++ [badAttemptOf q d ev an])).
Proof.
  unfold answerAction; intros H.
  apply result_bind_Ok in H as ([ev tokens] & Hev & H).
  apply result_call_Ok in Hev. cbn -[Z.of_nat mbind call] in H.
  case_bool_decide as Hq.
  - case_bool_decide as Hmax.
    + injection H as <-; cbn; auto 10.
    + destruct (is_definitive ev) eqn:Hdef.
      * destruct (has_references d || _); injection H as <-; cbn; auto 10.
      * apply result_bind_Ok in H as (an & Han & H).
        injection H as <-; cbn. repeat split.
        right; exists ev, tokens, an. repeat split; auto; lia.
  - destruct (is_definitive ev); injection H as <-; cbn; auto 10.
Qed.

Lemma dedupAgainst_inv e candidates seen l :
  result (dedupAgainst e candidates seen) = Ok l ->
  (seen = [] ∧ l = candidates) ∨
  (seen ≠ [] ∧ dedupQueries e candidates seen = Some l).
Proof.
  destruct seen as [|x seen]; cbn -[call].
  - intros [= <-]; auto.
  - intros H; apply result_call_Ok in H; right; split; [discriminate|exact H].
Qed.

Lemma reflectAction_inv c e q d questions s f :
  result (reflectAction c e q d questions s) = Ok f ->
  ∃ s', f = Continue s' ∧
    thisStep s' = thisStep s ∧ allowAnswer s' = allowAnswer s ∧
    badAttempts s' = badAttempts s ∧ badContext s' = badContext s ∧
    allURLs s' = allURLs s ∧ visitedURLs s' = visitedURLs s ∧
    totalStep s' = totalStep s.
Proof.
  unfold reflectAction; intros H.
  apply result_bind_Ok in H as (l & _ & H).
  destruct l; injection H as <-; eexists; (split; [reflexivity|]); cbn; auto 10.
Qed.

Lemma searchAction_inv c e q d s f :
  result (searchAction c e q d s) = Ok f ->
  ∃ s', f = Continue s' ∧
    thisStep s' = thisStep s ∧ allowAnswer s' = allowAnswer s ∧
    allowReflect s' = allowReflect s ∧
    badAttempts s' = badAttempts s ∧ badContext s' = badContext s ∧
    visitedURLs s' = visitedURLs s ∧ totalStep s' = totalStep s.
Proof.
  unfold searchAction; intros H.
  apply result_bind_Ok in H as (old & _ & H).
  apply result_bind_Ok in H as (l & _ & H).
  destruct l as [|k l].
  - injection H as <-; eexists; (split; [reflexivity|]); cbn; auto 10.
  - apply result_bind_Ok in H as ([found s1] & Hloop & H).
    apply searchLoop_frame in Hloop. injection H as <-.
    eexists; (split; [reflexivity|]); cbn; intuition.
Qed.

Lemma visitAction_inv c e q d targets s f :
  result (visitAction c e q d targets s) = Ok f ->
  ∃ s', f = Continue s' ∧
    thisStep s' = thisStep s ∧ allowAnswer s' = allowAnswer s ∧
    allowReflect s' = allowReflect s ∧
    badAttempts s' = badAttempts s ∧ badContext s' = badContext s ∧
    totalStep s' = totalStep s.
Proof.
  unfold visitAction; intros H.
  destruct (uniqueURLs targets (visitedURLs s)) as [|u unique].
  - injection H as <-; eexists; (split; [reflexivity|]); cbn; auto 10.
  - apply result_bind_Ok in H as (? & _ & H).
    apply result_bind_Ok in H as (s1 & Hs & H).
    apply settleAll_frame in Hs. injection H as <-.
    eexists; (split; [reflexivity|]); cbn; intuition.
Qed.

(** ** One iteration and the retry bookkeeping *)

Lemma dispatch_answer d : dispatch d = DoAnswer ↔ action d = "answer".
Proof.
  unfold dispatch; case_bool_decide as Ha; [tauto|].
  split; [|tauto]; intros H.
  repeat case_bool_decide;
    repeat match type of H with
           | context [match ?x with _ => _ end] => destruct x
           end; discriminate.
Qed.

Lemma iteration_bookkeeping c e s f :
  result (iteration c e s) = Ok f ->
  ∃ totalTokenCount d,
    generateContent e (stepSchema s) = AgentReplies totalTokenCount (Some d) ∧
    thisStep (flow_state f) = d ∧
    totalStep (flow_state f) = S (totalStep s) ∧
    ((badAttempts (flow_state f) = badAttempts s ∧
      badContext (flow_state f) = badContext s ∧
      allowAnswer (flow_state f) = true) ∨
     rejectedAnswer c e s d f).
Proof.
  intros H. apply iteration_inv in H as (_ & tok & d & Hg & H).
  exists tok, d; split; [exact Hg|].
  unfold perform in H. destruct (dispatch d) as [|qs| |ts|] eqn:Hd.
  - apply dispatch_answer in Hd.
    apply answerAction_inv in H as (Ht & _ & _ & _ & Hts & Hcase).
    split; [exact Ht|]. split; [exact Hts|].
    destruct Hcase as [(Hb & Hc & Ha)|(ev & tokens & an & Hq & Hlt & Hev & Hdef & Hf & Hb & Hc)].
    + left; repeat split; auto.
    + right. exists ev, tokens, an.
      rewrite <- Hq. repeat split; auto.
  - apply reflectAction_inv in H as (s' & -> & Ht & Ha & Hb & Hc & _ & _ & Hts).
    split; [exact Ht|]. split; [exact Hts|]. left; repeat split; auto.
  - apply searchAction_inv in H as (s' & -> & Ht & Ha & _ & Hb & Hc & _ & Hts).
    split; [exact Ht|]. split; [exact Hts|]. left; repeat split; auto.
  - apply visitAction_inv in H as (s' & -> & Ht & Ha & _ & Hb & Hc & Hts).
    split; [exact Ht|]. split; [exact Hts|]. left; repeat split; auto.
  - injection H as <-; cbn; auto 10.
Qed.

(** C4. When the current question is the original question, the
    bad-attempt count is below its ceiling and the evaluator judges the
    oracle's answer non-definitive (and the failure analyzer returns), the
    iteration goes on with: one Bad-Attempt Record appended, holding the
    question, the answer, the evaluator's reasoning and the analyzer's
    blame and improvement; the bad-attempt count one higher; [answer]
    disallowed and absent from the next request, and allowed again after
    the next iteration unless that one is itself an [answer]; the diary
    empty; the intra-attempt counter [step], which the iteration had
    advanced on entry, back at zero; [totalStep] unchanged by all this, at
    the value the iteration gave it on entry, one more than before. *)
Theorem rejected_answer_starts_new_attempt c e s totalTokenCount d ev tokens an :
  currentQuestionOf c s = question c ->
  (Z.of_nat (badAttempts s) < maxBadAttempts c)%Z ->
  (Z.of_nat (usage s + estimatedTokens) ≤ tokenBudget c)%Z ->
  generateContent e (stepSchema s) = AgentReplies totalTokenCount (Some d) ->
  action d = "answer" ->
  evaluateAnswer e (question c) (answer d) = Some (ev, tokens) ->
  is_definitive ev = false ->
  analyzeSteps e (diaryContext s ++
    [DiaryBadAnswer (S (step s)) (question c) (answer d) (reasoning ev)]) = Some an ->
  ∃ s', result (iteration c e s) = Ok (Continue s') ∧
    badContext s' = badContext s ++ [badAttemptOf (question c) d ev an] ∧
    ba_blame (badAttemptOf (question c) d ev an) = ea_blame an ∧
    ba_improvement (badAttemptOf (question c) d ev an) = ea_improvement an ∧
    badAttempts s' = S (badAttempts s) ∧
    allowAnswer s' = false ∧
    ("answer" ∉ action_enum (stepSchema s')) ∧
    (∀ e' f, result (iteration c e' s') = Ok f ->
       action (thisStep (flow_state f)) ≠ "answer" ->
       allowAnswer (flow_state f) = true) ∧
    diaryContext s' = [] ∧
    step s' = 0 ∧
    step (afterDecision d s) = S (step s) ∧
    totalStep s' = totalStep (afterDecision d s) ∧
    totalStep s' = S (totalStep s).
Proof.
  intros Hq Hlt Hb Hg Ha Hev Hdef Han.
  pose proof (iteration_Ok c e s _ _ Hb Hg) as Hit; cbn zeta in Hit.
  apply dispatch_answer in Ha. unfold perform in Hit; rewrite Ha, Hq in Hit.
  destruct (answerAction_rejected c e d
              (afterDecision d (trackUsage (default 0 totalTokenCount) s))
              ev tokens an Hlt Hev Hdef Han)
    as (s' & Hres & Hbc & Hba & Haa & Hdi & Hst & Hts).
  exists s'. split; [rewrite Hit; exact Hres|].
  repeat split; auto.
  - rewrite answer_offered, Haa; discriminate.
  - intros e' f Hf Hna.
    apply iteration_bookkeeping in Hf as (tok' & d' & _ & Ht & _ & [(_ & _ & Hallow)|Hrej]).
    + exact Hallow.
    + destruct Hrej as (? & ? & ? & Hans & _). rewrite <- Ht in Hans; contradiction.
Qed.

Lemma rejected_answer_starts_new_attempt_witness :
  ∃ s', result (iteration sampleConfig rejectingEnv (initialState sampleConfig [])) =
          Ok (Continue s') ∧
        badAttempts s' = 1 ∧ allowAnswer s' = false ∧ diaryContext s' = [] ∧
        step s' = 0 ∧ totalStep s' = 1.
Proof.
  destruct (rejected_answer_starts_new_attempt sampleConfig rejectingEnv
              (initialState sampleConfig []) (Some 10) (answerDecision "maybe")
              hedged 5 diagnosis)
    as (s' & Hres & _ & _ & _ & Hba & Haa & _ & _ & Hdi & Hst & _ & _ & Hts);
    [reflexivity | vm_compute; reflexivity | vm_compute; discriminate
    | reflexivity | reflexivity | reflexivity | reflexivity | reflexivity |].
  exists s'; repeat split; assumption.
Defined.

(** ** The bad-attempt counter over a run *)

Lemma iteration_attemptsInv c e s f :
  attemptsInv c s -> result (iteration c e s) = Ok f -> attemptsInv c (flow_state f).
Proof.
  intros [Hlen Hle] H.
  apply iteration_bookkeeping in H as (tok & d & _ & _ & _ & [(Hb & Hc & _)|Hrej]).
  - split; [rewrite Hc, Hb; exact Hlen | rewrite Hb; exact Hle].
  - destruct Hrej as (ev & tokens & an & _ & _ & Hlt & _ & _ & _ & Hb & Hc).
    split; [rewrite Hc, Hb, length_app; cbn; lia | rewrite Hb; lia].
Qed.

Lemma iterate_attemptsInv c envs : ∀ s s',
  attemptsInv c s -> iterate c envs s = Some s' -> attemptsInv c s'.
Proof.
  induction envs as [|e rest IH]; intros s s' Hinv H; cbn in H.
  - injection H as <-; exact Hinv.
  - destruct (loopCondition c s); [|discriminate].
    destruct (result (iteration c e s)) as [[s1|s1]|err] eqn:Hit; try discriminate.
    apply (IH s1 s'); [|exact H].
    apply (iteration_attemptsInv c e s (Continue s1) Hinv Hit).
Qed.

(** C5. In a run with a non-negative ceiling, at every state [s] the loop
    reaches and for every iteration completed from [s]: the bad-attempt
    counter is unchanged, together with the list of Bad-Attempt Records,
    or it grows by exactly one, and then the decision was an [answer] to
    the original question that the evaluator judged non-definitive; and
    the number of records appended so far, before and after the
    iteration, is at most [maxBadAttempts + 1]. *)
Theorem bad_attempts_grow_only_on_rejected_answer c transcript envs s :
  (0 ≤ maxBadAttempts c)%Z ->
  iterate c envs (initialState c transcript) = Some s ->
  (Z.of_nat (length (badContext s)) ≤ maxBadAttempts c + 1)%Z ∧
  ∀ e f, result (iteration c e s) = Ok f ->
    (Z.of_nat (length (badContext (flow_state f))) ≤ maxBadAttempts c + 1)%Z ∧
    ((badAttempts (flow_state f) = badAttempts s ∧
      badContext (flow_state f) = badContext s) ∨
     (badAttempts (flow_state f) = S (badAttempts s) ∧
      rejectedAnswer c e s (thisStep (flow_state f)) f)).
Proof.
  intros Hmax Hreach.
  assert (Hinv : attemptsInv c s).
  { apply (iterate_attemptsInv c envs (initialState c transcript)); [|exact Hreach].
    split; [reflexivity|exact Hmax]. }
  split; [destruct Hinv as [-> ?]; lia|].
  intros e f Hit.
  pose proof (iteration_attemptsInv c e s f Hinv Hit) as [Hlen Hle].
  split; [rewrite Hlen; lia|].
  apply iteration_bookkeeping in Hit as (tok & d & _ & Ht & _ & [(Hb & Hc & _)|Hrej]).
  - left; auto.
  - right; rewrite Ht; split; [|exact Hrej].
    destruct Hrej as (? & ? & ? & H); tauto.
Qed.

Lemma bad_attempts_grow_only_on_rejected_answer_witness :
  ∃ s, iterate sampleConfig [rejectingEnv] (initialState sampleConfig []) = Some s ∧
       badAttempts s = 1 ∧
       (Z.of_nat (length (badContext s)) ≤ maxBadAttempts sampleConfig + 1)%Z.
Proof.
  eexists; split; [vm_compute; reflexivity|]. split; [reflexivity|].
  apply (bad_attempts_grow_only_on_rejected_answer sampleConfig []
           [rejectingEnv] _ ltac:(vm_compute; discriminate) ltac:(vm_compute; reflexivity)).
Defined.

(** ** The [reflect] action *)

Lemma dispatch_reflect d qs :
  action d = "reflect" -> questionsToAnswer d = Some qs -> dispatch d = DoReflect qs.
Proof. unfold dispatch; intros -> ->; reflexivity. Qed.

Lemma dispatch_reflect_inv d qs : dispatch d = DoReflect qs -> action d = "reflect".
Proof.
  unfold dispatch; intros H.
  repeat case_bool_decide; try assumption;
    repeat match type of H with
           | context [match ?x with _ => _ end] => destruct x
           end; discriminate.
Qed.

(** [reflect] is allowed again after an iteration, unless that iteration
    was itself a [reflect]. *)
Lemma iteration_allowReflect c e s f :
  result (iteration c e s) = Ok f ->
  action (thisStep (flow_state f)) ≠ "reflect" ->
  allowReflect (flow_state f) = true.
Proof.
  intros H. apply iteration_inv in H as (_ & tok & d & _ & H).
  unfold perform in H. destruct (dispatch d) as [|qs| |ts|] eqn:Hd.
  - apply answerAction_inv in H as (_ & Hr & _); intros _; exact Hr.
  - apply dispatch_reflect_inv in Hd.
    apply reflectAction_inv in H as (s' & -> & Ht & _); cbn.
    rewrite Ht; cbn; intros Hne; contradiction.
  - apply searchAction_inv in H as (s' & -> & _ & _ & Hr & _); intros _; exact Hr.
  - apply visitAction_inv in H as (s' & -> & _ & _ & Hr & _); intros _; exact Hr.
  - injection H as <-; reflexivity.
Qed.

(** C6. In a reflect iteration where the deduplication of the proposed
    sub-questions against the all-time question list leaves at least one
    survivor: the survivors are pushed onto the gap queue (from which the
    current question was taken at the start of the iteration), the same
    survivors are appended to the all-time question list, and the original
    question is pushed onto the gap queue after them. *)
Theorem reflect_pushes_survivors_then_original c e s totalTokenCount d proposed survivors :
  (Z.of_nat (usage s + estimatedTokens) ≤ tokenBudget c)%Z ->
  generateContent e (stepSchema s) = AgentReplies totalTokenCount (Some d) ->
  action d = "reflect" ->
  questionsToAnswer d = Some proposed ->
  result (dedupAgainst e proposed (allQuestions s)) = Ok survivors ->
  survivors ≠ [] ->
  ∃ s', result (iteration c e s) = Ok (Continue s') ∧
    gaps s' = tail (gaps s) ++ survivors ++ [question c] ∧
    allQuestions s' = allQuestions s ++ survivors ∧
    last (gaps s') = Some (question c).
Proof.
  intros Hb Hg Ha Hq Hd Hne.
  pose proof (iteration_Ok c e s _ _ Hb Hg) as Hit; cbn zeta in Hit.
  unfold perform in Hit; rewrite (dispatch_reflect d proposed Ha Hq) in Hit.
  rewrite Hit; clear Hit. unfold result in *; cbn [snd].
  unfold reflectAction.
  erewrite bind_Ok by exact Hd. cbn [snd].
  destruct survivors as [|x survivors]; [contradiction|].
  eexists; split; [reflexivity|]. cbn.
  rewrite <- app_assoc. repeat split.
  rewrite !app_assoc. apply last_snoc.
Qed.

Lemma reflect_pushes_survivors_then_original_witness :
  ∃ s', result (iteration sampleConfig freshReflectEnv (initialState sampleConfig [])) =
          Ok (Continue s') ∧
        gaps s' = ["a"; "b"; "q"] ∧ allQuestions s' = ["q"; "a"; "b"].
Proof.
  destruct (reflect_pushes_survivors_then_original sampleConfig freshReflectEnv
              (initialState sampleConfig []) (Some 10) (reflectDecision ["a"; "b"])
              ["a"; "b"] ["a"; "b"])
    as (s' & Hres & Hg & Hq & _);
    [vm_compute; discriminate | reflexivity | reflexivity | reflexivity | reflexivity
    | discriminate |].
  exists s'; repeat split; assumption.
Defined.

(** The first iteration of a run: the gap queue holds the original question,
    the oracle proposes it again and the deduplicator reports a duplicate.
    The queue had one element before the iteration and has none after it. *)
Lemma stale_reflect_shortens_the_queue :
  length (gaps (initialState sampleConfig [])) = 1 ∧
  questionsToAnswer (reflectDecision ["q"]) = Some (allQuestions (initialState sampleConfig [])) ∧
  ∃ s', result (iteration sampleConfig staleReflectEnv (initialState sampleConfig [])) =
          Ok (Continue s') ∧
        length (gaps s') = 0.
Proof. split; [reflexivity|]. split; [reflexivity|]. eexists; split; reflexivity. Qed.

(** C7, amended. In a reflect iteration whose proposed sub-questions are all
    rejected by the deduplication against the all-time question list, the
    reflect action adds nothing to the gap queue: the queue after the
    iteration is the queue before it without its front element, which the
    iteration took as its current question (so its length is one less when
    the queue was not empty, and the same when it was).  [reflect] is then
    disallowed and absent from the next request, and allowed again after
    the next iteration unless that one is itself a [reflect]. *)
Theorem stale_reflect_only_pops_and_disables_reflect c e s totalTokenCount d proposed :
  (Z.of_nat (usage s + estimatedTokens) ≤ tokenBudget c)%Z ->
  generateContent e (stepSchema s) = AgentReplies totalTokenCount (Some d) ->
  action d = "reflect" ->
  questionsToAnswer d = Some proposed ->
  result (dedupAgainst e proposed (allQuestions s)) = Ok [] ->
  ∃ s', result (iteration c e s) = Ok (Continue s') ∧
    gaps s' = tail (gaps s) ∧
    length (gaps s') = length (gaps s) - 1 ∧
    allQuestions s' = allQuestions s ∧
    allowReflect s' = false ∧
    ("reflect" ∉ action_enum (stepSchema s')) ∧
    (∀ e' f, result (iteration c e' s') = Ok f ->
       action (thisStep (flow_state f)) ≠ "reflect" ->
       allowReflect (flow_state f) = true).
Proof.
  intros Hb Hg Ha Hq Hd.
  pose proof (iteration_Ok c e s _ _ Hb Hg) as Hit; cbn zeta in Hit.
  unfold perform in Hit; rewrite (dispatch_reflect d proposed Ha Hq) in Hit.
  rewrite Hit; clear Hit. unfold result in *; cbn [snd].
  unfold reflectAction.
  erewrite bind_Ok by exact Hd. cbn [snd].
  eexists; split; [reflexivity|]. cbn.
  split; [reflexivity|]. split; [destruct (gaps s); cbn; lia|].
  split; [reflexivity|]. split; [reflexivity|]. split.
  - intros Hin. apply reflect_offered in Hin. discriminate.
  - intros e' f Hf. apply (iteration_allowReflect c e' _ f Hf).
Qed.

Lemma stale_reflect_only_pops_and_disables_reflect_witness :
  ∃ s', result (iteration sampleConfig staleReflectEnv (initialState sampleConfig [])) =
          Ok (Continue s') ∧
        gaps s' = [] ∧ allowReflect s' = false.
Proof.
  destruct (stale_reflect_only_pops_and_disables_reflect sampleConfig staleReflectEnv
              (initialState sampleConfig []) (Some 10) (reflectDecision ["q"]) ["q"])
    as (s' & Hres & Hg & _ & _ & Hr & _);
    [vm_compute; discriminate | reflexivity | reflexivity | reflexivity | reflexivity |].
  exists s'; repeat split; assumption.
Defined.

(** ** Decisions the schema does not permit *)

Lemma dispatch_unknown d : action d ∉ knownActions -> dispatch d = DoNothing.
Proof.
  unfold knownActions, dispatch; intros Hn.
  repeat case_bool_decide; try reflexivity; exfalso; apply Hn; set_solver.
Qed.

(** On the first iteration [visit] is not among the permitted actions, the
    oracle's decision is a [visit], and the iteration completes normally:
    the page is fetched and recorded. *)
Lemma unoffered_visit_is_carried_out :
  (action (visitDecision ["u"]) ∉ action_enum (stepSchema (initialState sampleConfig []))) ∧
  generateContent visitEnv (stepSchema (initialState sampleConfig [])) =
    AgentReplies (Some 10) (Some (visitDecision ["u"])) ∧
  ∃ s', iteration sampleConfig visitEnv (initialState sampleConfig []) =
          ([CallAgent (stepSchema (initialState sampleConfig [])); CallRead "u"],
           Ok (Continue s')) ∧
        visitedURLs s' = ["u"] ∧ length (allKnowledge s') = 1.
Proof.
  split; [vm_compute; intros H; repeat (apply elem_of_cons in H as [H|H]; [discriminate|]);
          by apply elem_of_nil in H|].
  split; [reflexivity|]. eexists; split; [vm_compute; reflexivity|]. split; reflexivity.
Qed.

(** C8, amended. An oracle reply whose text is not parseable JSON is a hard
    failure of the iteration: [JSON.parse] throws and nothing of the
    iteration survives.  A parsed decision is not checked against the
    permitted actions: the loop dispatches on the action name alone,
    whatever the request's schema allowed, and a decision whose action is
    none of [answer], [reflect], [search], [visit] completes the iteration
    normally with no action carried out. *)
Theorem malformed_reply_throws_and_schema_is_not_enforced c e s totalTokenCount :
  (Z.of_nat (usage s + estimatedTokens) ≤ tokenBudget c)%Z ->
  (generateContent e (stepSchema s) = AgentReplies totalTokenCount None ->
   iteration c e s = ([CallAgent (stepSchema s)], Throw SyntaxError)) ∧
  (∀ d, generateContent e (stepSchema s) = AgentReplies totalTokenCount (Some d) ->
     let s1 := afterDecision d (trackUsage (default 0 totalTokenCount) s) in
     result (iteration c e s) = result (perform c e (currentQuestionOf c s) d s1) ∧
     (action d ∉ knownActions -> result (iteration c e s) = Ok (Continue s1))).
Proof.
  intros Hb; split.
  - intros Hg. unfold iteration, askAgent.
    rewrite bool_decide_eq_false_2 by lia. cbn. rewrite Hg. reflexivity.
  - intros d Hg s1.
    pose proof (iteration_Ok c e s _ _ Hb Hg) as Hit; cbn zeta in Hit.
    split; [rewrite Hit; reflexivity|].
    intros Hn. rewrite Hit. unfold perform. rewrite (dispatch_unknown d Hn). reflexivity.
Qed.

Lemma malformed_reply_throws_and_schema_is_not_enforced_witness :
  iteration sampleConfig (oracleOnly (AgentReplies (Some 10) None))
    (initialState sampleConfig []) =
  ([CallAgent (stepSchema (initialState sampleConfig []))], Throw SyntaxError).
Proof.
  apply (malformed_reply_throws_and_schema_is_not_enforced sampleConfig
           (oracleOnly (AgentReplies (Some 10) None)) (initialState sampleConfig [])
           (Some 10)).
  - vm_compute; discriminate.
  - reflexivity.
Defined.

(** ** After the loop: beast mode *)

Lemma iteration_allowAnswer c e s f :
  result (iteration c e s) = Ok f ->
  allowAnswer (flow_state f) = true ∨
  (f = Continue (flow_state f) ∧
   (Z.of_nat (badAttempts (flow_state f)) ≤ maxBadAttempts c)%Z).
Proof.
  intros H.
  apply iteration_bookkeeping in H as (tok & d & _ & _ & _ & [(_ & _ & Ha)|Hrej]).
  - left; exact Ha.
  - destruct Hrej as (ev & tokens & an & _ & _ & Hlt & _ & _ & Hf & Hb & _).
    right; split; [exact Hf | rewrite Hb; lia].
Qed.

(** When the loop is over, either [answer] is still allowed or the budget
    is used up. *)
Lemma loop_exit_allowAnswer c envs : ∀ s log s',
  loop c envs s = Some (log, Ok s') ->
  allowAnswer s = true ∨ (Z.of_nat (badAttempts s) ≤ maxBadAttempts c)%Z ->
  allowAnswer s' = true ∨ (tokenBudget c ≤ Z.of_nat (usage s'))%Z.
Proof.
  induction envs as [|e rest IH]; intros s log s' H Hs; cbn [loop] in H.
  - destruct (loopCondition c s) eqn:Hc; [discriminate|].
    injection H as <- <-. destruct Hs as [Hs|Hs]; [left; exact Hs|right].
    unfold loopCondition in Hc. apply andb_false_iff in Hc as [Hc|Hc];
      apply bool_decide_eq_false in Hc; lia.
  - destruct (loopCondition c s) eqn:Hc.
    + destruct (iteration c e s) as [log1 [[s1|s1]|err]] eqn:Hit.
      * destruct (loop c rest s1) as [[log2 r2]|] eqn:Hl; [|discriminate].
        cbn in H. injection H as <- ->.
        apply (IH s1 log2 s' Hl).
        assert (Hr : result (iteration c e s) = Ok (Continue s1)) by (rewrite Hit; reflexivity).
        apply iteration_allowAnswer in Hr as [Hr|[_ Hr]]; auto.
      * injection H as <- <-.
        assert (Hr : result (iteration c e s) = Ok (Break s1)) by (rewrite Hit; reflexivity).
        apply iteration_allowAnswer in Hr as [Hr|[Hr _]]; [left; exact Hr|discriminate].
      * discriminate.
    + injection H as <- <-. destruct Hs as [Hs|Hs]; [left; exact Hs|right].
      unfold loopCondition in Hc. apply andb_false_iff in Hc as [Hc|Hc];
        apply bool_decide_eq_false in Hc; lia.
Qed.

(** What [afterLoop] does when no answer was accepted. *)
Lemma afterLoop_unanswered c beast s :
  isAnswered s = false ->
  afterLoop c beast s =
    (if bool_decide (tokenBudget c < Z.of_nat (usage s + estimatedTokens))%Z then
       ([], Throw (BudgetExceeded (usage s + estimatedTokens) (tokenBudget c)))
     else
       match generateContent beast (beastSchema s) with
       | AgentThrows => ([CallAgent (beastSchema s)], Throw OracleError)
       | AgentReplies _ None => ([CallAgent (beastSchema s)], Throw SyntaxError)
       | AgentReplies totalTokenCount (Some d) =>
           ([CallAgent (beastSchema s)],
            Ok {| r_result := d; r_usage := usage s + default 0 totalTokenCount |})
       end).
Proof.
  intros Hans.
  unfold afterLoop. cbn [isAnswered set_totalStep set_step]. rewrite Hans.
  unfold askAgent, beastSchema. cbn [usage allowAnswer set_totalStep set_step].
  case_bool_decide; [reflexivity|].
  cbn. destruct (generateContent beast _) as [|tok [d|]]; reflexivity.
Qed.

(** A run whose only iteration is a rejected answer that uses up the
    budget: the loop exits unanswered with [answer] disabled, the
    beast-mode schema permits no action at all, and the run fails. *)
Lemma beast_mode_fails_an_exhausted_run :
  ∃ log s,
    loop tightConfig [costlyRejectingEnv] (initialState tightConfig []) = Some (log, Ok s) ∧
    isAnswered s = false ∧
    action_enum (beastSchema s) = [] ∧
    getResponse tightConfig [] [costlyRejectingEnv] beastEnv =
      Some (log, Throw (BudgetExceeded 150 100)).
Proof.
  eexists _, _; split; [vm_compute; reflexivity|].
  split; [reflexivity|]. split; reflexivity.
Qed.

(** C2, amended. When the loop is over with [isAnswered] false, the
    beast-mode schema is [getSchema(false, false, allowAnswer, false)]: its
    action enum is exactly ["answer"] when [allowAnswer] is set and empty
    otherwise, and in a run it is exactly ["answer"] whenever the request
    is issued.  The request is issued only if [usage + 50] is within the
    budget; otherwise the run fails with the budget error.  The run fails
    too when the oracle call throws or its text is not parseable JSON.
    Otherwise the parsed decision, whatever it is, is the run's result. *)
Theorem beast_mode_outcome c beast s :
  isAnswered s = false ->
  action_enum (beastSchema s) = when (allowAnswer s) ["answer"] ∧
  afterLoop c beast s =
    (if bool_decide (tokenBudget c < Z.of_nat (usage s + estimatedTokens))%Z then
       ([], Throw (BudgetExceeded (usage s + estimatedTokens) (tokenBudget c)))
     else
       match generateContent beast (beastSchema s) with
       | AgentThrows => ([CallAgent (beastSchema s)], Throw OracleError)
       | AgentReplies _ None => ([CallAgent (beastSchema s)], Throw SyntaxError)
       | AgentReplies totalTokenCount (Some d) =>
           ([CallAgent (beastSchema s)],
            Ok {| r_result := d; r_usage := usage s + default 0 totalTokenCount |})
       end) ∧
  (∀ transcript envs log,
     loop c envs (initialState c transcript) = Some (log, Ok s) ->
     (Z.of_nat (usage s + estimatedTokens) ≤ tokenBudget c)%Z ->
     action_enum (beastSchema s) = ["answer"]).
Proof.
  intros Hans. split; [unfold beastSchema; rewrite action_enum_getSchema;
                       destruct (allowAnswer s); reflexivity|].
  split.
  - apply afterLoop_unanswered; exact Hans.
  - intros transcript envs log Hl Hb.
    apply loop_exit_allowAnswer in Hl as [Ha|Hu];
      [|unfold estimatedTokens in Hb; lia|left; reflexivity].
    unfold beastSchema; rewrite action_enum_getSchema, Ha; reflexivity.
Qed.

Lemma beast_mode_outcome_witness :
  ∃ log s,
    loop strictConfig [rejectingEnv] (initialState strictConfig []) = Some (log, Ok s) ∧
    action_enum (beastSchema s) = ["answer"] ∧
    afterLoop strictConfig beastEnv s =
      ([CallAgent (beastSchema s)],
       Ok {| r_result := answerDecision "best effort"; r_usage := 35 |}).
Proof.
  eexists _, _; split; [vm_compute; reflexivity|].
  match goal with
  | |- action_enum (beastSchema ?s) = _ ∧ _ =>
      destruct (beast_mode_outcome strictConfig beastEnv s eq_refl) as (He & Ha & _)
  end.
  split; [exact He | exact Ha].
Defined.

(** ** The calls an action issues *)

(** Settling issues no call of its own: the fetches are already out. *)
Lemma settleAll_calls e tasks : ∀ s, calls (settleAll e tasks s) = [].
Proof.
  induction tasks as [|task rest IH]; intros s; [reflexivity|].
  cbn [settleAll]. unfold settle.
  destruct (readUrl e task.1 task.2) as [[response tokens]|]; [|reflexivity].
  unfold calls in *; cbn. apply IH.
Qed.

Lemma searchLoop_issuable d e queries : dispatch d = DoSearch -> ∀ i found s,
  Forall (issuable d) (calls (searchLoop e i queries found s)).
Proof.
  intros Hd. induction queries as [|query rest IH]; intros i found s; cbn [searchLoop].
  - apply Forall_calls_ret.
  - apply Forall_calls_bind; [apply Forall_calls_call; exact Hd|].
    intros results _. apply IH.
Qed.

Lemma dedupAgainst_issuable d e candidates seen :
  Forall (issuable d) (calls (dedupAgainst e candidates seen)).
Proof.
  destruct seen; cbn [dedupAgainst];
    [apply Forall_calls_ret | apply Forall_calls_call; exact I].
Qed.

(** No action calls the oracle, and only a search calls the search
    adapter. *)
Lemma perform_issuable c e q d s : Forall (issuable d) (calls (perform c e q d s)).
Proof.
  unfold perform. destruct (dispatch d) as [|qs| |ts|] eqn:Hd.
  - unfold answerAction.
    apply Forall_calls_bind; [apply Forall_calls_call; exact I|].
    intros [ev tokens] _. cbn -[Z.of_nat mbind call].
    repeat case_bool_decide; repeat match goal with
      | |- context [if ?b then _ else _] => destruct b
      end; try apply Forall_calls_ret;
      (apply Forall_calls_bind; [apply Forall_calls_call; exact I|]);
      intros an _; apply Forall_calls_ret.
  - unfold reflectAction.
    apply Forall_calls_bind; [apply dedupAgainst_issuable|].
    intros [|x l] _; apply Forall_calls_ret.
  - unfold searchAction.
    apply Forall_calls_bind; [apply Forall_calls_call; exact I|]. intros old _.
    apply Forall_calls_bind; [apply dedupAgainst_issuable|].
    intros [|k l] _; [apply Forall_calls_ret|].
    apply Forall_calls_bind; [apply searchLoop_issuable; exact Hd|].
    intros [found s1] _. apply Forall_calls_ret.
  - unfold visitAction.
    destruct (uniqueURLs ts (visitedURLs s)) as [|u unique];
      [apply Forall_calls_ret|].
    apply Forall_calls_bind.
    + unfold calls; cbn [fst]. apply Forall_fmap, Forall_forall. intros target _. exact I.
    + intros _ _. apply Forall_calls_bind.
      * rewrite settleAll_calls. constructor.
      * intros s1 _. apply Forall_calls_ret.
  - apply Forall_calls_ret.
Qed.

(** ** Budget exhaustion *)

Lemma askAgent_calls c e sch s :
  calls (askAgent c e sch s) =
  if bool_decide (tokenBudget c < Z.of_nat (usage s + estimatedTokens))%Z then []
  else [CallAgent sch].
Proof.
  unfold askAgent. case_bool_decide; [reflexivity|].
  rewrite calls_bind. cbn. destruct (generateContent e sch) as [|tok [d|]]; reflexivity.
Qed.

(** The oracle is called by the request of an iteration and by nothing
    else in it. *)
Lemma iteration_agent_calls c e s sch :
  CallAgent sch ∈ calls (iteration c e s) -> CallAgent sch ∈ calls (askAgent c e (stepSchema s) s).
Proof.
  unfold iteration. rewrite calls_bind. intros H.
  apply elem_of_app in H as [H|H]; [exact H|]. exfalso.
  destruct (result (askAgent c e (stepSchema s) s)) as [[d s']|err];
    [|by apply elem_of_nil in H].
  pose proof (perform_issuable c e (currentQuestionOf c s) d (afterDecision d s')) as Hall.
  rewrite Forall_forall in Hall. exact (Hall _ H).
Qed.

(** A run with a budget of 100 tokens whose first answer costs 60 tokens
    and is rejected at a cost of 200: the budget is exhausted with no
    answer accepted, usage stands at 260, more than the budget and one
    step's estimate together, beast mode issues no request, and the caller
    gets the budget error, not an answer. *)
Lemma exhausted_budget_raises :
  ∃ log s,
    loop tightConfig [wastefulRejectingEnv] (initialState tightConfig []) = Some (log, Ok s) ∧
    loopCondition tightConfig s = false ∧
    isAnswered s = false ∧
    usage s = 260 ∧
    (tokenBudget tightConfig + Z.of_nat estimatedTokens < Z.of_nat (usage s))%Z ∧
    getResponse tightConfig [] [wastefulRejectingEnv] beastEnv =
      Some (log, Throw (BudgetExceeded 310 100)).
Proof.
  eexists _, _; split; [vm_compute; reflexivity|].
  split; [reflexivity|]. split; [reflexivity|]. split; [reflexivity|].
  split; [vm_compute; reflexivity|]. vm_compute; reflexivity.
Qed.

(** C3, amended. When the loop is over with the budget used up
    ([usage ≥ tokenBudget]) and no accepted answer, the run ends in the
    "Token budget would be exceeded" error of the beast-mode pre-flight
    check: no beast-mode request is issued and no answer is returned.
    What bounds usage is that pre-flight check alone: an oracle request,
    in the loop or in beast mode, is issued only when [usage + 50] is
    within the budget, whatever becomes of the request. *)
Theorem exhausted_budget_ends_in_budget_error c transcript envs beast log s :
  loop c envs (initialState c transcript) = Some (log, Ok s) ->
  isAnswered s = false ->
  (tokenBudget c ≤ Z.of_nat (usage s))%Z ->
  getResponse c transcript envs beast =
    Some (log, Throw (BudgetExceeded (usage s + estimatedTokens) (tokenBudget c))) ∧
  (∀ e s0 sch,
     CallAgent sch ∈ calls (iteration c e s0) ->
     (Z.of_nat (usage s0 + estimatedTokens) ≤ tokenBudget c)%Z) ∧
  (∀ e s0 sch,
     CallAgent sch ∈ calls (afterLoop c e s0) ->
     (Z.of_nat (usage s0 + estimatedTokens) ≤ tokenBudget c)%Z).
Proof.
  intros Hl Hans Hu; split; [|split].
  - unfold getResponse; rewrite Hl; cbn [fmap option_fmap option_map].
    cbn [mbind M_bind]. rewrite (afterLoop_unanswered c beast s Hans).
    rewrite bool_decide_eq_true_2 by (unfold estimatedTokens; lia).
    cbn. rewrite app_nil_r. reflexivity.
  - intros e s0 sch H. apply iteration_agent_calls in H.
    rewrite askAgent_calls in H. case_bool_decide; [by apply elem_of_nil in H|lia].
  - intros e s0 sch H. unfold afterLoop in H.
    cbn [isAnswered set_totalStep set_step] in H.
    destruct (isAnswered s0); [by apply elem_of_nil in H|].
    rewrite calls_bind in H. apply elem_of_app in H as [H|H].
    + rewrite askAgent_calls in H. cbn [usage set_totalStep set_step] in H.
      case_bool_decide; [by apply elem_of_nil in H|lia].
    + destruct (result (askAgent _ _ _ _)) as [[d s1]|err]; by apply elem_of_nil in H.
Qed.

Lemma exhausted_budget_ends_in_budget_error_witness :
  ∃ log s,
    loop tightConfig [wastefulRejectingEnv] (initialState tightConfig []) = Some (log, Ok s) ∧
    usage s = 260 ∧
    getResponse tightConfig [] [wastefulRejectingEnv] beastEnv =
      Some (log, Throw (BudgetExceeded (usage s + estimatedTokens) (tokenBudget tightConfig))).
Proof.
  eexists _, _; split; [vm_compute; reflexivity|]. split; [reflexivity|].
  match goal with
  | |- _ = Some (?log, Throw (BudgetExceeded (usage ?s + _) _)) =>
      apply (proj1 (exhausted_budget_ends_in_budget_error tightConfig []
                      [wastefulRejectingEnv] beastEnv log s
                      ltac:(vm_compute; reflexivity) eq_refl
                      ltac:(vm_compute; discriminate)))
  end.
Defined.

(** ** Frontier and visited urls *)

Lemma assignURL_lookup url title (m : gmap string string) target :
  assignURL url title m !! target =
  if bool_decide (url = target ∧ url ≠ "__proto__") then Some title else m !! target.
Proof.
  unfold assignURL. case_bool_decide as Hp.
  - rewrite bool_decide_eq_false_2; [reflexivity|]. intros [_ H]; contradiction.
  - destruct (decide (url = target)) as [->|Hne].
    + rewrite lookup_insert_eq, bool_decide_eq_true_2; [reflexivity|auto].
    + rewrite lookup_insert_ne by exact Hne.
      rewrite bool_decide_eq_false_2; [reflexivity|]. intros [H _]; contradiction.
Qed.

Lemma mergeResults_app results1 results2 (m : gmap string string) :
  mergeResults (results1 ++ results2) m = mergeResults results2 (mergeResults results1 m).
Proof. unfold mergeResults. apply foldl_app. Qed.

(** A url keeps its entry, or its absence, when no result names it, and
    ["__proto__"] does whatever the results name. *)
Lemma mergeResults_lookup_other results : ∀ (m : gmap string string) target,
  (∀ r, r ∈ results -> sr_url r = target -> target = "__proto__") ->
  mergeResults results m !! target = m !! target.
Proof.
  unfold mergeResults.
  induction results as [|r results IH]; intros m target Hr; cbn; [reflexivity|].
  rewrite IH by (intros r' Hin; apply Hr; right; exact Hin).
  rewrite assignURL_lookup. case_bool_decide as H; [|reflexivity].
  destruct H as [Heq Hp]. exfalso; apply Hp. rewrite Heq.
  apply (Hr r); [left|exact Heq].
Qed.

Lemma mergeResults_is_Some results : ∀ (m : gmap string string) target,
  is_Some (m !! target) -> is_Some (mergeResults results m !! target).
Proof.
  unfold mergeResults.
  induction results as [|r results IH]; intros m target Hm; cbn; [exact Hm|].
  apply IH. rewrite assignURL_lookup. case_bool_decide; [eauto|exact Hm].
Qed.

(** Every url the results name is a key afterwards, but ["__proto__"]. *)
Lemma mergeResults_stored results (m : gmap string string) r :
  r ∈ results -> sr_url r ≠ "__proto__" -> is_Some (mergeResults results m !! sr_url r).
Proof.
  intros Hin Hp. apply list_elem_of_split in Hin as (l1 & l2 & ->).
  rewrite mergeResults_app. change (r :: l2) with ([r] ++ l2).
  rewrite mergeResults_app. apply mergeResults_is_Some.
  cbn. rewrite assignURL_lookup, bool_decide_eq_true_2 by auto. eauto.
Qed.

Lemma mergeResults_disjoint results (m : gmap string string) (visited : list string) :
  (∀ target, target ∈ visited -> m !! target = None) ->
  (∀ target, target ∈ visited -> mergeResults results m !! target = None) ↔
  (∀ r, r ∈ results -> sr_url r ≠ "__proto__" -> sr_url r ∉ visited).
Proof.
  intros Hm. split.
  - intros Hdis r Hin Hp Hv.
    destruct (mergeResults_stored results m r Hin Hp) as [x Hx].
    rewrite (Hdis _ Hv) in Hx. discriminate.
  - intros Hfresh target Hv.
    rewrite mergeResults_lookup_other; [apply Hm; exact Hv|].
    intros r Hin Heq. destruct (decide (target = "__proto__")) as [Hp|Hp]; [exact Hp|].
    exfalso. apply (Hfresh r Hin); [congruence|rewrite Heq; exact Hv].
Qed.

Lemma searchesOf_app log1 log2 : searchesOf (log1 ++ log2) = searchesOf log1 ++ searchesOf log2.
Proof. unfold searchesOf. apply omap_app. Qed.

Lemma searchesOf_searches queries : searchesOf (CallSearch <$> queries) = queries.
Proof. induction queries as [|q l IH]; cbn; [reflexivity|f_equal; exact IH]. Qed.

Lemma searchesOf_issuable d log :
  dispatch d ≠ DoSearch -> Forall (issuable d) log -> searchesOf log = [].
Proof.
  intros Hd Hall. induction Hall as [|k log Hk _ IH]; [reflexivity|].
  destruct k; cbn in *; try exact IH. contradiction.
Qed.

(** The searches of a completed search loop: one call per query, and the
    frontier takes what they returned, in order. *)
Lemma searchLoop_returns e queries : ∀ i found s found' s',
  result (searchLoop e i queries found s) = Ok (found', s') ->
  calls (searchLoop e i queries found s) = CallSearch <$> queries ∧
  allURLs s' =
    mergeResults (mjoin (imap (fun j query => default [] (searchAdapter e (i + j) query))
                           queries)) (allURLs s).
Proof.
  induction queries as [|query rest IH]; intros i found s found' s' H.
  - cbn in H; injection H as <- <-. split; reflexivity.
  - cbn [searchLoop] in H |- *.
    destruct (searchAdapter e i query) as [results|] eqn:Hs; [|discriminate].
    rewrite call_Some in H |- *. cbn [mbind M_bind fst snd] in H |- *.
    apply IH in H as [Hc Hu]. split.
    + unfold calls in *; cbn [fst] in *. rewrite Hc. reflexivity.
    + rewrite Hu. cbn [imap mjoin list_join]. rewrite Nat.add_0_r, Hs. cbn [default].
      rewrite mergeResults_app. cbn [allURLs set_allURLs set_allKeywords].
      f_equal. f_equal. apply imap_ext. intros j q _. cbn.
      replace (i + S j) with (S i + j) by lia. reflexivity.
Qed.

Lemma dedupAgainst_searches e candidates seen :
  searchesOf (calls (dedupAgainst e candidates seen)) = [].
Proof. destruct seen; cbn [dedupAgainst]; [reflexivity|]. rewrite calls_call. reflexivity. Qed.

(** What a completed search does to the two url stores. *)
Lemma searchAction_frontier c e q d s f :
  result (searchAction c e q d s) = Ok f ->
  allURLs (flow_state f) =
    mergeResults (searchReturns e (calls (searchAction c e q d s))) (allURLs s) ∧
  visitedURLs (flow_state f) = visitedURLs s.
Proof.
  intros H. unfold searchReturns. unfold searchAction in H |- *.
  rewrite calls_bind, searchesOf_app, calls_call.
  apply result_bind_Ok in H as (old & Hold & H). rewrite Hold.
  rewrite calls_bind, searchesOf_app, dedupAgainst_searches.
  apply result_bind_Ok in H as (l & Hl & H). rewrite Hl.
  destruct l as [|k l].
  - injection H as <-. split; reflexivity.
  - rewrite calls_bind.
    apply result_bind_Ok in H as ([found s2] & Hloop & H). rewrite Hloop.
    pose proof (searchLoop_frame _ _ _ _ _ _ _ Hloop) as (_ & _ & _ & _ & _ & Hv & _).
    apply searchLoop_returns in Hloop as [Hc Hu].
    injection H as <-. rewrite Hc. cbn [flow_state].
    split; [|exact Hv].
    cbn. rewrite app_nil_r, searchesOf_searches. exact Hu.
Qed.

Lemma settleAll_disjoint e tasks : ∀ s s',
  result (settleAll e tasks s) = Ok s' -> disjointURLs s -> disjointURLs s'.
Proof.
  induction tasks as [|task rest IH]; intros s s' H Hdis.
  - cbn in H; injection H as <-; exact Hdis.
  - cbn [settleAll] in H. apply result_bind_Ok in H as (s1 & H1 & H).
    apply IH in H; [exact H|]. unfold settle in H1.
    destruct (readUrl e task.1 task.2) as [[response tokens]|]; [|discriminate].
    cbn in H1; injection H1 as <-.
    intros target Hin; cbn in Hin |- *.
    apply lookup_delete_None.
    apply elem_of_app in Hin as [Hin|Hin]; [right; apply Hdis; exact Hin|left].
    apply list_elem_of_singleton in Hin; congruence.
Qed.

Lemma dispatch_search_inv d : dispatch d = DoSearch -> action d = "search".
Proof.
  unfold dispatch; intros H.
  repeat case_bool_decide; try assumption;
    repeat match type of H with
           | context [match ?x with _ => _ end] => destruct x
           end; discriminate.
Qed.

Lemma disjointURLs_same s s' :
  allURLs s' = allURLs s -> visitedURLs s' = visitedURLs s ->
  disjointURLs s -> disjointURLs s'.
Proof. unfold disjointURLs; intros -> ->; auto. Qed.

(** Every action but a search keeps the two url stores disjoint. *)
Lemma perform_disjoint c e q d s f :
  dispatch d ≠ DoSearch ->
  result (perform c e q d s) = Ok f ->
  disjointURLs s -> disjointURLs (flow_state f).
Proof.
  intros Hd H Hdis. unfold perform in H. destruct (dispatch d) as [|qs| |ts|].
  - apply answerAction_inv in H as (_ & _ & Hu & Hv & _).
    apply (disjointURLs_same s); assumption.
  - apply reflectAction_inv in H as (s' & -> & _ & _ & _ & _ & Hu & Hv & _).
    apply (disjointURLs_same s); assumption.
  - contradiction.
  - unfold visitAction in H.
    destruct (uniqueURLs ts (visitedURLs s)) as [|u unique].
    + injection H as <-. exact Hdis.
    + apply result_bind_Ok in H as (? & _ & H).
      apply result_bind_Ok in H as (s2 & Hs & H).
      apply settleAll_disjoint in Hs; [|exact Hdis].
      injection H as <-. exact Hs.
  - injection H as <-. exact Hdis.
Qed.

(** A search for "topic", a visit of the page found, and a search for a
    keyword not searched before, which the deduplicator lets through as it
    must, and which finds the same page: the page is then both visited and
    in the frontier. *)
Lemma search_puts_a_visited_url_back :
  ∃ s,
    iterate sampleConfig
      [keywordSearchEnv "topic" [page "u" "t"]; visitEnv;
       keywordSearchEnv "topic in depth" [page "u" "t"]]
      (initialState sampleConfig []) = Some s ∧
    allKeywords s = ["topic"; "topic in depth"] ∧
    "u" ∈ visitedURLs s ∧
    allURLs s !! "u" = Some "t" ∧
    ¬ disjointURLs s.
Proof.
  eexists; split; [vm_compute; reflexivity|].
  split; [reflexivity|].
  split; [apply list_elem_of_here|]. split; [vm_compute; reflexivity|].
  intros Hdis. specialize (Hdis "u" (list_elem_of_here _ _)).
  vm_compute in Hdis. discriminate.
Qed.

(** C1, amended. An iteration that completes keeps the visited urls and
    the frontier disjoint in every case but one: the visit action removes
    from the frontier each url it adds to the visited list, and answer,
    reflect and an ignored decision touch neither, so an iteration that is
    not a search keeps them disjoint; the search action puts every url the
    search adapter returns into the frontier (but ["__proto__"], which the
    frontier object cannot take as a key) without looking at the visited
    list, so after an iteration the two are disjoint exactly when none of
    those urls is already visited. *)
Theorem frontier_visited_disjoint_preserved c e s f :
  disjointURLs s ->
  result (iteration c e s) = Ok f ->
  (action (thisStep (flow_state f)) ≠ "search" -> disjointURLs (flow_state f)) ∧
  (disjointURLs (flow_state f) ↔
   ∀ r, r ∈ searchReturns e (calls (iteration c e s)) ->
     sr_url r ≠ "__proto__" -> sr_url r ∉ visitedURLs s).
Proof.
  intros Hdis H.
  apply iteration_inv in H as (Hb & tok & d & Hg & H).
  pose proof (iteration_Ok c e s _ _ Hb Hg) as Hit; cbn zeta in Hit.
  set (s1 := afterDecision d (trackUsage (default 0 tok) s)) in *.
  assert (Hdis1 : disjointURLs s1) by exact Hdis.
  assert (Hret : searchReturns e (calls (iteration c e s)) =
                 searchReturns e (calls (perform c e (currentQuestionOf c s) d s1)))
    by (rewrite Hit; reflexivity).
  rewrite Hret. clear Hret Hit.
  assert (Hdec : dispatch d = DoSearch ∨ dispatch d ≠ DoSearch)
    by (destruct (dispatch d); auto; right; discriminate).
  destruct Hdec as [Hd|Hd].
  - unfold perform in H |- *. rewrite Hd in H |- *.
    pose proof (searchAction_inv _ _ _ _ _ _ H) as (s' & -> & Ht & _).
    apply searchAction_frontier in H as [Hu Hv]. cbn [flow_state] in *.
    split.
    + intros Hne. exfalso. apply Hne. rewrite Ht. apply dispatch_search_inv; exact Hd.
    + unfold disjointURLs. rewrite Hu, Hv.
      apply (mergeResults_disjoint _ (allURLs s1) (visitedURLs s1)). exact Hdis1.
  - pose proof (perform_disjoint _ _ _ _ _ _ Hd H Hdis1) as Hdis'.
    unfold searchReturns.
    rewrite (searchesOf_issuable d _ Hd (perform_issuable c e _ d s1)).
    split; [intros _; exact Hdis'|].
    split; [intros _ r Hin; by apply elem_of_nil in Hin|intros _; exact Hdis'].
Qed.

Lemma frontier_visited_disjoint_preserved_witness :
  let e := keywordSearchEnv "more" [page "w" "t"; page "__proto__" "t"] in
  visitedURLs afterVisitState = ["u"] ∧
  disjointURLs afterVisitState ∧
  ∃ s, result (iteration sampleConfig e afterVisitState) = Ok (Continue s) ∧
       visitedURLs s = ["u"] ∧
       allURLs s !! "w" = Some "t" ∧
       disjointURLs s.
Proof.
  intros e.
  assert (Hv0 : visitedURLs afterSearchState = []) by (vm_compute; reflexivity).
  assert (Hv1 : visitedURLs afterVisitState = ["u"]) by (vm_compute; reflexivity).
  split; [exact Hv1|].
  assert (H0 : disjointURLs afterSearchState).
  { intros target Hin. rewrite Hv0 in Hin. by apply elem_of_nil in Hin. }
  assert (H1 : result (iteration sampleConfig visitEnv afterSearchState) =
               Ok (Continue afterVisitState)) by (vm_compute; reflexivity).
  destruct (frontier_visited_disjoint_preserved sampleConfig visitEnv afterSearchState
              (Continue afterVisitState) H0 H1) as [Hvisit _].
  rewrite flow_state_Continue in Hvisit.
  assert (Hdis : disjointURLs afterVisitState).
  { apply Hvisit.
    assert (Ha : action (thisStep afterVisitState) = "visit") by (vm_compute; reflexivity).
    rewrite Ha. discriminate. }
  split; [exact Hdis|].
  pose (s := flow_state (default (Continue afterVisitState)
               (match result (iteration sampleConfig e afterVisitState) with
                | Ok f => Some f | Throw _ => None end))).
  assert (H2 : result (iteration sampleConfig e afterVisitState) = Ok (Continue s))
    by (vm_compute; reflexivity).
  destruct (frontier_visited_disjoint_preserved sampleConfig e afterVisitState
              (Continue s) Hdis H2) as [_ Hiff].
  assert (Hret : searchReturns e (calls (iteration sampleConfig e afterVisitState)) =
                 [page "w" "t"; page "__proto__" "t"]) by (vm_compute; reflexivity).
  rewrite flow_state_Continue, Hret, Hv1 in Hiff.
  exists s. split; [exact H2|]. split; [vm_compute; reflexivity|].
  split; [vm_compute; reflexivity|].
  apply Hiff. intros r Hin Hp Hv.
  apply elem_of_cons in Hin as [->|Hin].
  - apply list_elem_of_singleton in Hv. discriminate.
  - apply list_elem_of_singleton in Hin as ->. apply Hp; reflexivity.
Defined.

(** ** The [visit] action *)

Lemma arrange_Permutation {A} n : ∀ order (pending : list A),
  n = length pending -> arrange n order pending ≡ₚ pending.
Proof.
  induction n as [|n IH]; intros order pending Hn.
  - destruct pending; [reflexivity|discriminate].
  - cbn [arrange].
    assert (Hk : hd 0 order `mod` length pending < length pending)
      by (apply Nat.mod_upper_bound; lia).
    destruct (lookup_lt_is_Some_2 pending _ Hk) as [x Hx]. rewrite Hx.
    etrans; [|symmetry; apply (delete_Permutation pending _ x Hx)].
    constructor. apply IH.
    rewrite length_delete by eauto. lia.
Qed.

Lemma uniqueURLs_filter targets visited :
  uniqueURLs targets visited = filter (fun target => target ∉ visited) targets.
Proof.
  destruct visited as [|v visited]; [|reflexivity]. cbn.
  induction targets as [|t targets IH]; [reflexivity|].
  rewrite filter_cons_True by apply not_elem_of_nil. f_equal; exact IH.
Qed.

Lemma tasksOf_lookup unique i target :
  unique !! i = Some target -> (i, target) ∈ tasksOf unique.
Proof.
  intros H. apply list_elem_of_lookup. exists i.
  unfold tasksOf. rewrite list_lookup_imap, H. reflexivity.
Qed.

Lemma tasksOf_elem unique task :
  task ∈ tasksOf unique -> unique !! task.1 = Some task.2.
Proof.
  intros H. apply list_elem_of_lookup in H as [i H].
  unfold tasksOf in H. rewrite list_lookup_imap in H.
  destruct (unique !! i) eqn:Hi; [|discriminate].
  injection H as <-. exact Hi.
Qed.

Lemma settleAll_fails e tasks : ∀ s task,
  task ∈ tasks -> readUrl e task.1 task.2 = None ->
  result (settleAll e tasks s) = Throw FetchError.
Proof.
  induction tasks as [|t rest IH]; intros s task Hin Hfail.
  - by apply elem_of_nil in Hin.
  - cbn [settleAll]. unfold settle.
    destruct (readUrl e t.1 t.2) as [[response tokens]|] eqn:Ht; [|reflexivity].
    apply elem_of_cons in Hin as [->|Hin]; [congruence|].
    unfold result in *; cbn. apply (IH _ task Hin Hfail).
Qed.

Lemma settleAll_lookup_None e tasks : ∀ s s' target,
  result (settleAll e tasks s) = Ok s' ->
  allURLs s !! target = None -> allURLs s' !! target = None.
Proof.
  induction tasks as [|t rest IH]; intros s s' target H Hnone.
  - cbn in H; injection H as <-; exact Hnone.
  - cbn [settleAll] in H. apply result_bind_Ok in H as (s1 & H1 & H).
    apply (IH s1 s' target H). unfold settle in H1.
    destruct (readUrl e t.1 t.2) as [[response tokens]|]; [|discriminate].
    cbn in H1; injection H1 as <-; cbn.
    apply lookup_delete_None; right; exact Hnone.
Qed.

Lemma settleAll_succeeds e tasks : ∀ s,
  (∀ task, task ∈ tasks -> is_Some (readUrl e task.1 task.2)) ->
  ∃ s', result (settleAll e tasks s) = Ok s' ∧
    visitedURLs s' = visitedURLs s ++ tasks.*2 ∧
    allKnowledge s' = allKnowledge s ++ omap (fetched e) tasks ∧
    length (omap (fetched e) tasks) = length tasks ∧
    (∀ task, task ∈ tasks -> allURLs s' !! task.2 = None).
Proof.
  induction tasks as [|t rest IH]; intros s Hall.
  - exists s; cbn. rewrite !app_nil_r. repeat split.
    intros task Hin; by apply elem_of_nil in Hin.
  - destruct (Hall t ltac:(left)) as [[response tokens] Ht].
    cbn [settleAll]. unfold settle. rewrite Ht.
    set (s1 := set_allURLs _ _).
    destruct (IH s1 (fun task Hin => Hall task ltac:(right; exact Hin)))
      as (s' & Hres & Hv & Hk & Hlen & Hgone).
    exists s'. split; [unfold result in *; cbn; exact Hres|].
    split; [rewrite Hv; cbn; rewrite <- app_assoc; reflexivity|].
    split; [rewrite Hk; cbn; unfold fetched at 2; rewrite Ht; cbn;
            rewrite <- app_assoc; reflexivity|].
    split; [cbn; unfold fetched at 1; rewrite Ht; cbn; rewrite Hlen; reflexivity|].
    intros task Hin. apply elem_of_cons in Hin as [->|Hin]; [|apply Hgone; exact Hin].
    apply (settleAll_lookup_None e rest s1 s' _ Hres).
    subst s1; cbn. apply lookup_delete_eq.
Qed.

Lemma dispatch_visit d t ts :
  action d = "visit" -> URLTargets d = Some (t :: ts) -> dispatch d = DoVisit (t :: ts).
Proof. unfold dispatch; intros -> ->; reflexivity. Qed.

(** A visit with something left to fetch: the reads are issued, then the
    fetches settle in the order the environment arranges. *)
Lemma visitAction_unfold c e q d targets s u rest :
  uniqueURLs targets (visitedURLs s) = u :: rest ->
  calls (visitAction c e q d targets s) = CallRead <$> (u :: rest) ∧
  match result (settleAll e (arrange (length (tasksOf (u :: rest))) (completionOrder e)
                               (tasksOf (u :: rest))) s) with
  | Ok s1 =>
      ∃ s', result (visitAction c e q d targets s) = Ok (Continue s') ∧
        visitedURLs s' = visitedURLs s1 ∧ allKnowledge s' = allKnowledge s1 ∧
        allURLs s' = allURLs s1
  | Throw err => result (visitAction c e q d targets s) = Throw err
  end.
Proof.
  intros Hu. unfold visitAction. rewrite Hu.
  set (settled := arrange _ _ _).
  pose proof (settleAll_calls e settled s) as Hc.
  destruct (settleAll e settled s) as [log [s1|err]]; unfold calls, result in *;
    cbn in Hc |- *; subst log; rewrite ?app_nil_r; split; try reflexivity.
  eexists; split; [reflexivity|]. cbn. repeat split.
Qed.

Lemma loop_iterate c before : ∀ s0 s rest,
  iterate c before s0 = Some s ->
  ∃ log0, loop c (before ++ rest) s0 =
          (fun m : M State => (log0 ++ m.1, m.2)) <$> loop c rest s.
Proof.
  induction before as [|e before IH]; intros s0 s rest H.
  - cbn in H; injection H as <-. exists []. cbn [app].
    destruct (loop c rest s0) as [[log r]|]; reflexivity.
  - cbn [iterate] in H. cbn [app loop].
    destruct (loopCondition c s0); [|discriminate].
    destruct (iteration c e s0) as [log [[s1|s1]|err]]; unfold result in H; cbn in H;
      try discriminate.
    destruct (IH s1 s rest H) as (log0 & ->). exists (log ++ log0).
    destruct (loop c rest s) as [[log1 r]|]; cbn; [|reflexivity].
    rewrite app_assoc; reflexivity.
Qed.

Lemma tasksOf_targets unique : (tasksOf unique).*2 = unique.
Proof.
  apply list_eq; intros i. unfold tasksOf.
  rewrite list_lookup_fmap, list_lookup_imap.
  destruct (unique !! i); reflexivity.
Qed.

Lemma uniqueURLs_nil visited : uniqueURLs [] visited = [].
Proof. destruct visited; reflexivity. Qed.

(** C9. In a visit iteration with at least one url not yet visited, the
    fetches of all those urls are issued, in request order, before any of
    them settles, whatever happens next.  If the fetch of any one of them
    fails, the iteration throws the fetch error: it yields no state, and a
    run that reaches it ends in that error, so nothing the iteration added
    to the knowledge or the visited list or removed from the frontier is
    kept.  If all of them succeed, the iteration goes on only after all
    have settled: every fetched url is in the visited list and out of the
    frontier, and one knowledge item per fetch has been added. *)
Theorem visit_fetches_together_and_fails_as_a_whole c e s totalTokenCount d targets u rest :
  (Z.of_nat (usage s + estimatedTokens) ≤ tokenBudget c)%Z ->
  generateContent e (stepSchema s) = AgentReplies totalTokenCount (Some d) ->
  action d = "visit" ->
  URLTargets d = Some targets ->
  uniqueURLs targets (visitedURLs s) = u :: rest ->
  calls (iteration c e s) = CallAgent (stepSchema s) :: (CallRead <$> (u :: rest)) ∧
  (∀ i target, (u :: rest) !! i = Some target -> readUrl e i target = None ->
     result (iteration c e s) = Throw FetchError ∧
     ∀ transcript before after beast,
       iterate c before (initialState c transcript) = Some s ->
       loopCondition c s = true ->
       ∃ log, getResponse c transcript (before ++ e :: after) beast =
              Some (log, Throw FetchError)) ∧
  ((∀ i target, (u :: rest) !! i = Some target -> is_Some (readUrl e i target)) ->
     ∃ s', result (iteration c e s) = Ok (Continue s') ∧
       visitedURLs s' ≡ₚ visitedURLs s ++ u :: rest ∧
       length (allKnowledge s') = length (allKnowledge s) + length (u :: rest) ∧
       ∀ target, target ∈ u :: rest -> allURLs s' !! target = None).
Proof.
  intros Hb Hg Ha Ht Hu.
  assert (Hd : dispatch d = DoVisit targets).
  { destruct targets as [|t ts]; [rewrite uniqueURLs_nil in Hu; discriminate|].
    apply dispatch_visit; assumption. }
  pose proof (iteration_Ok c e s _ _ Hb Hg) as Hit; cbn zeta in Hit.
  unfold perform in Hit; rewrite Hd in Hit.
  set (s1 := afterDecision d (trackUsage (default 0 totalTokenCount) s)) in *.
  destruct (visitAction_unfold c e (currentQuestionOf c s) d targets s1 u rest Hu)
    as [Hcalls Hres].
  set (settled := arrange _ _ _) in Hres.
  assert (Hperm : settled ≡ₚ tasksOf (u :: rest)) by (apply arrange_Permutation; reflexivity).
  split; [rewrite Hit; unfold calls in *; cbn [fst]; rewrite Hcalls; reflexivity|].
  split.
  - intros i target Hi Hfail.
    assert (Hin : (i, target) ∈ settled) by (rewrite Hperm; apply tasksOf_lookup; exact Hi).
    rewrite (settleAll_fails e settled s1 (i, target) Hin Hfail) in Hres.
    assert (Hthrow : result (iteration c e s) = Throw FetchError)
      by (rewrite Hit; exact Hres).
    split; [exact Hthrow|].
    intros transcript before after beast Hreach Hcond.
    destruct (loop_iterate c before _ s (e :: after) Hreach) as (log0 & Hloop).
    unfold getResponse. rewrite Hloop. cbn [loop]. rewrite Hcond.
    destruct (iteration c e s) as [log r]. unfold result in Hthrow; cbn in Hthrow.
    subst r. eexists; reflexivity.
  - intros Hall.
    destruct (settleAll_succeeds e settled s1) as (s2 & Hs2 & Hv & Hk & Hlen & Hgone).
    { intros task Hin. rewrite Hperm in Hin. apply tasksOf_elem in Hin.
      destruct task as [i target]. apply (Hall i target Hin). }
    rewrite Hs2 in Hres. destruct Hres as (s' & Hs' & Hv' & Hk' & Hu').
    exists s'. split; [rewrite Hit; exact Hs'|].
    split; [rewrite Hv', Hv, Hperm, tasksOf_targets; reflexivity|].
    split.
    { rewrite Hk', Hk, length_app, Hlen, Hperm. unfold tasksOf.
      rewrite length_imap. reflexivity. }
    intros target Hin. rewrite Hu'.
    apply list_elem_of_lookup in Hin as [i Hi].
    apply (Hgone (i, target)). rewrite Hperm. apply tasksOf_lookup; exact Hi.
Qed.

Lemma visit_fetches_together_and_fails_as_a_whole_witness :
  iteration sampleConfig failingVisitEnv (initialState sampleConfig []) =
    ([CallAgent (stepSchema (initialState sampleConfig [])); CallRead "u"; CallRead "v"],
     Throw FetchError).
Proof.
  destruct (visit_fetches_together_and_fails_as_a_whole sampleConfig failingVisitEnv
              (initialState sampleConfig []) (Some 10) (visitDecision ["u"; "v"])
              ["u"; "v"] "u" ["v"])
    as (Hcalls & Hfail & _);
    [vm_compute; discriminate | reflexivity | reflexivity | reflexivity | reflexivity |].
  destruct (Hfail 1 "v" eq_refl eq_refl) as [Hthrow _].
  destruct (iteration sampleConfig failingVisitEnv (initialState sampleConfig []))
    as [log r].
  unfold calls, result in *; cbn in Hcalls, Hthrow. subst log r. reflexivity.
Defined.

Lemma arrange_one {A} order (a : A) : arrange 1 order [a] = [a].
Proof. cbn [arrange length]. rewrite Nat.mod_1_r. reflexivity. Qed.

Lemma arrange_two {A} order (a b : A) :
  arrange 2 order [a; b] = [a; b] ∨ arrange 2 order [a; b] = [b; a].
Proof.
  change (arrange 2 order [a; b]) with
    (match [a; b] !! (hd 0 order `mod` 2) with
     | Some x => x :: arrange 1 (tail order) (delete (hd 0 order `mod` 2) [a; b])
     | None => []
     end).
  pose proof (Nat.mod_upper_bound (hd 0 order) 2 ltac:(lia)) as Hk.
  destruct (hd 0 order `mod` 2) as [|[|k]]; [left|right|lia];
    cbn [lookup list_lookup delete list_delete]; rewrite arrange_one; reflexivity.
Qed.

Lemma dispatch_no_targets d :
  action d = "visit" -> URLTargets d = Some [] -> dispatch d = DoNothing.
Proof. unfold dispatch; intros -> ->; reflexivity. Qed.

(** A visit all of whose fetches work: every fetch settles, in some
    order. *)
Lemma visitAction_succeeds c e q d targets s u rest :
  uniqueURLs targets (visitedURLs s) = u :: rest ->
  (∀ i target, (u :: rest) !! i = Some target -> is_Some (readUrl e i target)) ->
  ∃ s', result (visitAction c e q d targets s) = Ok (Continue s') ∧
    visitedURLs s' ≡ₚ visitedURLs s ++ u :: rest ∧
    length (allKnowledge s') = length (allKnowledge s) + length (u :: rest).
Proof.
  intros Hu Hall.
  destruct (visitAction_unfold c e q d targets s u rest Hu) as [_ Hres].
  set (settled := arrange _ _ _) in Hres.
  assert (Hperm : settled ≡ₚ tasksOf (u :: rest)) by (apply arrange_Permutation; reflexivity).
  destruct (settleAll_succeeds e settled s) as (s2 & Hs2 & Hv & Hk & Hlen & _).
  { intros task Hin. rewrite Hperm in Hin. apply tasksOf_elem in Hin.
    destruct task as [i target]. apply (Hall i target Hin). }
  rewrite Hs2 in Hres. destruct Hres as (s' & Hs' & Hv' & Hk' & _).
  exists s'. split; [exact Hs'|].
  split; [rewrite Hv', Hv, Hperm, tasksOf_targets; reflexivity|].
  rewrite Hk', Hk, length_app, Hlen, Hperm. unfold tasksOf.
  rewrite length_imap. reflexivity.
Qed.

(** C10. The urls of a visit request are checked against the visited list
    and against nothing else, not against each other.  The fetches issued
    are those of the requested urls that are not in the visited list, in
    request order and as often as requested; when they all work, each of
    them pushes its url onto the visited list and adds one knowledge item.
    So when the same not-yet-visited url is what remains twice, it is
    fetched twice, two knowledge items of kind [url] are appended (one per
    fetch, in the order the fetches settle), and the url is pushed twice
    onto the visited list. *)
Theorem repeated_target_is_fetched_twice c e s totalTokenCount d targets :
  (Z.of_nat (usage s + estimatedTokens) ≤ tokenBudget c)%Z ->
  generateContent e (stepSchema s) = AgentReplies totalTokenCount (Some d) ->
  action d = "visit" ->
  URLTargets d = Some targets ->
  calls (iteration c e s) =
    CallAgent (stepSchema s) :: (CallRead <$> unvisited (visitedURLs s) targets) ∧
  ((∀ i target, unvisited (visitedURLs s) targets !! i = Some target ->
      is_Some (readUrl e i target)) ->
   ∃ s', result (iteration c e s) = Ok (Continue s') ∧
     visitedURLs s' ≡ₚ visitedURLs s ++ unvisited (visitedURLs s) targets ∧
     length (allKnowledge s') =
       length (allKnowledge s) + length (unvisited (visitedURLs s) targets)) ∧
  (∀ target r0 t0 r1 t1,
     unvisited (visitedURLs s) targets = [target; target] ->
     readUrl e 0 target = Some (r0, t0) ->
     readUrl e 1 target = Some (r1, t1) ->
     ∃ s', result (iteration c e s) = Ok (Continue s') ∧
       visitedURLs s' = visitedURLs s ++ [target; target] ∧
       (allKnowledge s' = allKnowledge s ++ [urlKnowledge r0; urlKnowledge r1] ∨
        allKnowledge s' = allKnowledge s ++ [urlKnowledge r1; urlKnowledge r0]) ∧
       k_type (urlKnowledge r0) = K_url ∧ k_type (urlKnowledge r1) = K_url).
Proof.
  intros Hb Hg Ha Ht.
  pose proof (iteration_Ok c e s _ _ Hb Hg) as Hit; cbn zeta in Hit.
  set (s1 := afterDecision d (trackUsage (default 0 totalTokenCount) s)) in *.
  set (q := currentQuestionOf c s) in *.
  assert (Hcalls : calls (iteration c e s) = CallAgent (stepSchema s) :: calls (perform c e q d s1))
    by (rewrite Hit; reflexivity).
  assert (Hres : result (iteration c e s) = result (perform c e q d s1))
    by (rewrite Hit; reflexivity).
  rewrite Hcalls, Hres. clear Hit Hcalls Hres.
  change (visitedURLs s) with (visitedURLs s1).
  change (allKnowledge s) with (allKnowledge s1).
  unfold perform, unvisited.
  destruct targets as [|t ts].
  { rewrite (dispatch_no_targets d Ha Ht). cbn.
    split; [reflexivity|]. split.
    - intros _. eexists; split; [reflexivity|]. rewrite app_nil_r, Nat.add_0_r.
      split; reflexivity.
    - intros target r0 t0 r1 t1 Hkept; discriminate. }
  rewrite (dispatch_visit d _ _ Ha Ht), <- uniqueURLs_filter.
  destruct (uniqueURLs (t :: ts) (visitedURLs s1)) as [|u rest] eqn:Hu.
  { unfold visitAction. rewrite Hu. cbn.
    split; [reflexivity|]. split.
    - intros _. eexists; split; [reflexivity|]. cbn. rewrite app_nil_r, Nat.add_0_r.
      split; reflexivity.
    - intros target r0 t0 r1 t1 Hkept; discriminate. }
  split; [f_equal; apply (visitAction_unfold c e q d (t :: ts) s1 u rest Hu)|].
  split; [apply visitAction_succeeds; exact Hu|].
  intros target r0 t0 r1 t1 [= -> ->] H0 H1.
  destruct (visitAction_unfold c e q d (t :: ts) s1 target [target] Hu) as [_ Hres].
  change (tasksOf [target; target]) with [(0, target); (1, target)] in Hres.
  cbn [length] in Hres.
  destruct (arrange_two (completionOrder e) (0, target) (1, target)) as [Harr|Harr];
    rewrite Harr in Hres; cbn [settleAll] in Hres; unfold settle in Hres;
    cbn [fst snd] in Hres; rewrite ?H0, ?H1 in Hres; cbn in Hres;
    rewrite ?H0, ?H1 in Hres; cbn in Hres;
    destruct Hres as (s' & Hs' & Hv & Hk & _);
    exists s'; (split; [exact Hs'|]);
    (split; [rewrite Hv, <- app_assoc; reflexivity|]);
    (split; [|split; reflexivity]);
    [left|right]; rewrite Hk, <- app_assoc; reflexivity.
Qed.

Lemma repeated_target_is_fetched_twice_witness :
  visitedURLs afterVisitState = ["u"] ∧
  calls (iteration sampleConfig revisitEnv afterVisitState) =
    [CallAgent (stepSchema afterVisitState); CallRead "v"; CallRead "v"] ∧
  ∃ s', result (iteration sampleConfig revisitEnv afterVisitState) = Ok (Continue s') ∧
        visitedURLs s' = ["u"; "v"; "v"] ∧
        length (allKnowledge s') = length (allKnowledge afterVisitState) + 2.
Proof.
  assert (Hv : visitedURLs afterVisitState = ["u"]) by (vm_compute; reflexivity).
  assert (Hkept : unvisited (visitedURLs afterVisitState) ["u"; "v"; "v"] = ["v"; "v"])
    by (vm_compute; reflexivity).
  destruct (repeated_target_is_fetched_twice sampleConfig revisitEnv afterVisitState
              (Some 10) (visitDecision ["u"; "v"; "v"]) ["u"; "v"; "v"])
    as (Hcalls & _ & Hdouble);
    [vm_compute; discriminate | reflexivity | reflexivity | reflexivity |].
  rewrite Hkept in Hcalls, Hdouble.
  split; [exact Hv|]. split; [exact Hcalls|].
  destruct (Hdouble "v" {| data := Some ("v", "first") |} 7 {| data := Some ("v", "second") |} 7
              eq_refl eq_refl eq_refl) as (s' & Hs' & Hv' & Hk & _).
  exists s'. split; [exact Hs'|]. split; [rewrite Hv', Hv; reflexivity|].
  destruct Hk as [-> | ->]; rewrite length_app; reflexivity.
Defined.

(** * Further properties of the loop *)

(** ** What a run accumulates is never taken back *)

Lemma grows_refl s : grows s s.
Proof. repeat split; reflexivity. Qed.

Lemma grows_trans s1 s2 s3 : grows s1 s2 -> grows s2 s3 -> grows s1 s3.
Proof.
  intros (H1 & H2 & H3 & H4 & H5 & H6) (G1 & G2 & G3 & G4 & G5 & G6).
  repeat split; etrans; eassumption.
Qed.

Ltac grows_now :=
  cbn; repeat split; try reflexivity; repeat apply prefix_app_r; reflexivity.

Lemma answerAction_grows c e q d s f :
  result (answerAction c e q d s) = Ok f -> grows s (flow_state f).
Proof.
  unfold answerAction; intros H.
  apply result_bind_Ok in H as ([ev tokens] & _ & H).
  cbn -[Z.of_nat mbind call] in H.
  case_bool_decide.
  - case_bool_decide.
    + injection H as <-; grows_now.
    + destruct (is_definitive ev).
      * destruct (has_references d || _); injection H as <-; grows_now.
      * apply result_bind_Ok in H as (an & _ & H). injection H as <-; grows_now.
  - destruct (is_definitive ev); injection H as <-; grows_now.
Qed.

Lemma reflectAction_grows c e q d questions s f :
  result (reflectAction c e q d questions s) = Ok f -> grows s (flow_state f).
Proof.
  unfold reflectAction; intros H.
  apply result_bind_Ok in H as (l & _ & H).
  destruct l; injection H as <-; grows_now.
Qed.

Lemma searchLoop_grows e queries : ∀ i found s found' s',
  result (searchLoop e i queries found s) = Ok (found', s') -> grows s s'.
Proof.
  induction queries as [|query rest IH]; intros i found s found' s' H.
  - cbn in H; injection H as <- <-; apply grows_refl.
  - cbn [searchLoop] in H. apply result_bind_Ok in H as (results & _ & H).
    apply IH in H. eapply grows_trans; [|exact H]. grows_now.
Qed.

Lemma searchAction_grows c e q d s f :
  result (searchAction c e q d s) = Ok f -> grows s (flow_state f).
Proof.
  unfold searchAction; intros H.
  apply result_bind_Ok in H as (old & _ & H).
  apply result_bind_Ok in H as (l & _ & H).
  destruct l as [|k l].
  - injection H as <-; grows_now.
  - apply result_bind_Ok in H as ([found s1] & Hloop & H).
    apply searchLoop_grows in Hloop. injection H as <-.
    eapply grows_trans; [exact Hloop|]. grows_now.
Qed.

Lemma settleAll_grows e tasks : ∀ s s',
  result (settleAll e tasks s) = Ok s' -> grows s s'.
Proof.
  induction tasks as [|task rest IH]; intros s s' H.
  - cbn in H; injection H as <-; apply grows_refl.
  - cbn [settleAll] in H. apply result_bind_Ok in H as (s1 & H1 & H).
    apply IH in H. eapply grows_trans; [|exact H]. unfold settle in H1.
    destruct (readUrl e task.1 task.2) as [[response tokens]|]; [|discriminate].
    cbn in H1; injection H1 as <-. grows_now.
Qed.

Lemma visitAction_grows c e q d targets s f :
  result (visitAction c e q d targets s) = Ok f -> grows s (flow_state f).
Proof.
  unfold visitAction; intros H.
  destruct (uniqueURLs targets (visitedURLs s)) as [|u unique].
  - injection H as <-; grows_now.
  - apply result_bind_Ok in H as (? & _ & H).
    apply result_bind_Ok in H as (s1 & Hs & H).
    apply settleAll_grows in Hs. injection H as <-.
    eapply grows_trans; [exact Hs|]. grows_now.
Qed.

Lemma iteration_grows c e s f :
  result (iteration c e s) = Ok f -> grows s (flow_state f).
Proof.
  intros H. apply iteration_inv in H as (_ & tok & d & _ & H).
  apply (grows_trans _ (afterDecision d (trackUsage (default 0 tok) s))); [grows_now|].
  unfold perform in H. destruct (dispatch d).
  - apply (answerAction_grows _ _ _ _ _ _ H).
  - apply (reflectAction_grows _ _ _ _ _ _ _ H).
  - apply (searchAction_grows _ _ _ _ _ _ H).
  - apply (visitAction_grows _ _ _ _ _ _ _ H).
  - injection H as <-; apply grows_refl.
Qed.

Lemma iterate_grows c envs : ∀ s s', iterate c envs s = Some s' -> grows s s'.
Proof.
  induction envs as [|e rest IH]; intros s s' H; cbn in H.
  - injection H as <-; apply grows_refl.
  - destruct (loopCondition c s); [|discriminate].
    destruct (result (iteration c e s)) as [[s1|s1]|err] eqn:Hit; try discriminate.
    eapply grows_trans; [apply (iteration_grows c e s _ Hit)|apply IH; exact H].
Qed.

(** X1. Over any stretch of a run, and through the iteration that follows
    it (whether it goes on or breaks), the knowledge items, the all-time
    questions, the keywords, the visited urls, the Bad-Attempt Records and
    the transcript only grow at the end: what each list held before is an
    initial segment of what it holds after. *)
Theorem run_records_are_append_only c envs s s' e f :
  iterate c envs s = Some s' ->
  result (iteration c e s') = Ok f ->
  grows s s' ∧ grows s (flow_state f).
Proof.
  intros Hrun Hit. pose proof (iterate_grows c envs s s' Hrun) as Hg.
  split; [exact Hg|]. eapply grows_trans; [exact Hg|]. apply (iteration_grows c e s' f Hit).
Qed.

Lemma run_records_are_append_only_witness :
  ∃ s' f,
    iterate sampleConfig [searchEnv; visitEnv] (initialState sampleConfig []) = Some s' ∧
    result (iteration sampleConfig rejectingEnv s') = Ok f ∧
    grows (initialState sampleConfig []) (flow_state f) ∧
    length (allKnowledge (flow_state f)) = 1 ∧ length (badContext (flow_state f)) = 1.
Proof.
  eexists _, _. split; [vm_compute; reflexivity|]. split; [vm_compute; reflexivity|].
  split; [|split; reflexivity].
  refine (proj2 (run_records_are_append_only sampleConfig [searchEnv; visitEnv]
                   (initialState sampleConfig []) _ rejectingEnv _ _ _));
    vm_compute; reflexivity.
Defined.

(** ** Counters, questions and the end of the loop *)

(** What an action that lets the loop go on leaves of the control state. *)
Lemma searchLoop_control e queries : ∀ i found s found' s',
  result (searchLoop e i queries found s) = Ok (found', s') ->
  isAnswered s' = isAnswered s ∧ allQuestions s' = allQuestions s.
Proof.
  induction queries as [|query rest IH]; intros i found s found' s' H.
  - cbn in H; injection H as <- <-; split; reflexivity.
  - cbn [searchLoop] in H. apply result_bind_Ok in H as (results & _ & H).
    apply IH in H; exact H.
Qed.

Lemma settleAll_control e tasks : ∀ s s',
  result (settleAll e tasks s) = Ok s' ->
  isAnswered s' = isAnswered s ∧ allQuestions s' = allQuestions s.
Proof.
  induction tasks as [|task rest IH]; intros s s' H.
  - cbn in H; injection H as <-; split; reflexivity.
  - cbn [settleAll] in H. apply result_bind_Ok in H as (s1 & H1 & H).
    apply IH in H. unfold settle in H1.
    destruct (readUrl e task.1 task.2) as [[response tokens]|]; [|discriminate].
    cbn in H1; injection H1 as <-; exact H.
Qed.

Lemma perform_Continue c e q d s s' :
  result (perform c e q d s) = Ok (Continue s') ->
  isAnswered s' = isAnswered s ∧
  totalStep s' = totalStep s ∧
  step s' ≤ step s ∧
  ((gaps s' = gaps s ∧ allQuestions s' = allQuestions s) ∨
   (∃ survivors, gaps s' = gaps s ++ survivors ++ [question c] ∧
                 allQuestions s' = allQuestions s ++ survivors)).
Proof.
  unfold perform; intros H. destruct (dispatch d) as [|qs| |ts|].
  - unfold answerAction in H.
    apply result_bind_Ok in H as ([ev tokens] & _ & H).
    cbn -[Z.of_nat mbind call] in H.
    case_bool_decide.
    + case_bool_decide; [discriminate|].
      destruct (is_definitive ev).
      * destruct (has_references d || _); discriminate.
      * apply result_bind_Ok in H as (an & _ & H).
        injection H as <-; cbn. repeat split; [lia|left; split; reflexivity].
    + destruct (is_definitive ev); injection H as <-; cbn;
        repeat split; try lia; left; split; reflexivity.
  - unfold reflectAction in H. apply result_bind_Ok in H as (l & _ & H).
    destruct l as [|x l]; injection H as <-; cbn; repeat split; try lia.
    + left; split; reflexivity.
    + right. exists (x :: l). rewrite <- app_assoc. split; reflexivity.
  - pose proof (searchAction_inv _ _ _ _ _ _ H) as (s1 & [= <-] & _ & _ & _ & _ & _ & _ & Hts).
    unfold searchAction in H.
    apply result_bind_Ok in H as (old & _ & H).
    apply result_bind_Ok in H as (l & _ & H).
    destruct l as [|k l].
    + injection H as <-; cbn; repeat split; try lia. left; split; reflexivity.
    + apply result_bind_Ok in H as ([found s2] & Hloop & H).
      pose proof (searchLoop_frame _ _ _ _ _ _ _ Hloop)
        as (_ & _ & _ & _ & _ & _ & Hg & Hst & _ & _).
      apply searchLoop_control in Hloop as [Ha Hq].
      injection H as <-; cbn. repeat split; try assumption; try lia.
      left; split; assumption.
  - pose proof (visitAction_inv _ _ _ _ _ _ _ H) as (s1 & [= <-] & _ & _ & _ & _ & _ & Hts).
    unfold visitAction in H.
    destruct (uniqueURLs ts (visitedURLs s)) as [|u unique].
    + injection H as <-; cbn; repeat split; try lia. left; split; reflexivity.
    + apply result_bind_Ok in H as (? & _ & H).
      apply result_bind_Ok in H as (s2 & Hs & H).
      pose proof (settleAll_frame _ _ _ _ Hs) as (_ & _ & _ & _ & _ & Hg & Hst & _ & _).
      apply settleAll_control in Hs as [Ha Hq].
      injection H as <-; cbn. repeat split; try assumption; try lia.
      left; split; assumption.
  - injection H as <-. repeat split; try lia. left; split; reflexivity.
Qed.

Lemma initialState_loopInv c transcript : loopInv c (initialState c transcript).
Proof. repeat split; cbn; [lia|auto]. Qed.

Lemma iteration_loopInv c e s s' :
  loopInv c s -> result (iteration c e s) = Ok (Continue s') ->
  loopInv c s' ∧ totalStep s' = S (totalStep s).
Proof.
  intros (Ha & Hst & Hg & Hq) H.
  apply iteration_inv in H as (_ & tok & d & _ & H).
  apply perform_Continue in H as (Ha' & Hts & Hst' & Hcase).
  cbn in Ha', Hts, Hst', Hcase.
  assert (Htail : ∀ g, g ∈ tail (gaps s) -> g ∈ allQuestions s).
  { intros g Hin. apply Hg. destruct (gaps s); [exact Hin|right; exact Hin]. }
  assert (Horig : question c ∈ allQuestions s).
  { destruct (allQuestions s); [discriminate|]. injection Hq as ->. left. }
  split; [|exact Hts].
  split; [rewrite Ha'; exact Ha|]. split; [lia|].
  destruct Hcase as [[Hg' Hq']|(survivors & Hg' & Hq')]; rewrite Hg', Hq'.
  - split; [exact Htail|exact Hq].
  - split.
    + intros g Hin. rewrite !elem_of_app in Hin. rewrite elem_of_app.
      destruct Hin as [Hin|[Hin|Hin]]; [left; apply Htail; exact Hin|right; exact Hin|].
      apply list_elem_of_singleton in Hin as ->. left; exact Horig.
    + destruct (allQuestions s); [discriminate|exact Hq].
Qed.

Lemma iterate_loopInv c envs : ∀ s s',
  loopInv c s -> iterate c envs s = Some s' ->
  loopInv c s' ∧ totalStep s' = totalStep s + length envs.
Proof.
  induction envs as [|e rest IH]; intros s s' Hinv H; cbn in H.
  - injection H as <-; split; [exact Hinv|cbn; lia].
  - destruct (loopCondition c s); [|discriminate].
    destruct (result (iteration c e s)) as [[s1|s1]|err] eqn:Hit; try discriminate.
    destruct (iteration_loopInv c e s s1 Hinv Hit) as [Hinv1 Hts].
    destruct (IH s1 s' Hinv1 H) as [Hinv' Hts'].
    split; [exact Hinv'|cbn; lia].
Qed.

(** X2. At every state the loop reaches from the start of a run,
    [totalStep] is the number of iterations done so far, the intra-attempt
    counter [step] is at most [totalStep], and no answer has been accepted:
    [isAnswered] is only ever set by an iteration that breaks. *)
Theorem totalStep_counts_the_iterations c transcript envs s :
  iterate c envs (initialState c transcript) = Some s ->
  totalStep s = length envs ∧ step s ≤ totalStep s ∧ isAnswered s = false.
Proof.
  intros H.
  destruct (iterate_loopInv c envs _ s (initialState_loopInv c transcript) H)
    as [(Ha & Hst & _) Hts].
  cbn in Hts. repeat split; assumption.
Qed.

Lemma totalStep_counts_the_iterations_witness :
  ∃ s, iterate sampleConfig [searchEnv; rejectingEnv; visitEnv]
         (initialState sampleConfig []) = Some s ∧
       totalStep s = 3 ∧ step s = 1.
Proof.
  eexists. split; [vm_compute; reflexivity|].
  split; [|reflexivity].
  apply (totalStep_counts_the_iterations sampleConfig []
           [searchEnv; rejectingEnv; visitEnv]).
  vm_compute; reflexivity.
Defined.

Lemma reflectAction_calls c e q d proposed s :
  calls (reflectAction c e q d proposed s) =
  match allQuestions s with
  | [] => []
  | _ :: _ => [CallDedup proposed (allQuestions s)]
  end.
Proof.
  unfold reflectAction. rewrite calls_bind.
  destruct (allQuestions s) as [|q0 qs]; cbn [dedupAgainst].
  - cbn. destruct proposed; reflexivity.
  - rewrite calls_call.
    destruct (dedupQueries e proposed (q0 :: qs)) as [[|x l]|]; reflexivity.
Qed.

(** X3. At every state the loop reaches from the start of a run, the
    all-time question list starts with the original question, every open
    gap is in it, and so is the question the next iteration works on.  The
    list is therefore never empty, and a reflect decision always goes
    through the deduplicator: the iteration's calls begin with the oracle
    request and the deduplication of the proposed questions against the
    whole list. *)
Theorem every_question_worked_on_is_recorded c transcript envs s :
  iterate c envs (initialState c transcript) = Some s ->
  head (allQuestions s) = Some (question c) ∧
  (∀ g, g ∈ gaps s -> g ∈ allQuestions s) ∧
  currentQuestionOf c s ∈ allQuestions s ∧
  (∀ e totalTokenCount d proposed,
     (Z.of_nat (usage s + estimatedTokens) ≤ tokenBudget c)%Z ->
     generateContent e (stepSchema s) = AgentReplies totalTokenCount (Some d) ->
     action d = "reflect" ->
     questionsToAnswer d = Some proposed ->
     calls (iteration c e s) = [CallAgent (stepSchema s); CallDedup proposed (allQuestions s)]).
Proof.
  intros H.
  destruct (iterate_loopInv c envs _ s (initialState_loopInv c transcript) H)
    as [(_ & _ & Hg & Hq) _].
  assert (Horig : question c ∈ allQuestions s).
  { destruct (allQuestions s); [discriminate|]. injection Hq as ->. left. }
  split; [exact Hq|]. split; [exact Hg|]. split.
  - unfold currentQuestionOf. destruct (gaps s) as [|g gs] eqn:Hgs; [exact Horig|].
    apply Hg; left.
  - intros e tok d proposed Hb Hgen Ha Hp.
    pose proof (iteration_Ok c e s _ _ Hb Hgen) as Hit; cbn zeta in Hit.
    unfold perform in Hit; rewrite (dispatch_reflect d proposed Ha Hp) in Hit.
    rewrite Hit.
    pose proof (reflectAction_calls c e (currentQuestionOf c s) d proposed
                  (afterDecision d (trackUsage (default 0 tok) s))) as Hc.
    unfold calls in Hc |- *; cbn [fst]. rewrite Hc. cbn.
    destruct (allQuestions s) as [|q0 qs]; [discriminate|reflexivity].
Qed.

Lemma every_question_worked_on_is_recorded_witness :
  ∃ s, iterate sampleConfig [freshReflectEnv; searchEnv] (initialState sampleConfig []) =
         Some s ∧
       gaps s = ["b"; "q"] ∧ allQuestions s = ["q"; "a"; "b"] ∧
       currentQuestionOf sampleConfig s ∈ allQuestions s.
Proof.
  eexists. split; [vm_compute; reflexivity|].
  split; [reflexivity|]. split; [reflexivity|].
  apply (every_question_worked_on_is_recorded sampleConfig []
           [freshReflectEnv; searchEnv]).
  vm_compute; reflexivity.
Defined.

Lemma loop_nil_exit c s : loopCondition c s = false -> loop c [] s = Some ([], Ok s).
Proof. intros H; cbn; rewrite H; reflexivity. Qed.

(** X4. In a run with a non-negative [maxBadAttempts], the bad-attempt
    clause of the loop condition never stops the loop: at every state the
    loop reaches the count is within the ceiling.  So when the loop
    condition fails, the budget is used up, no answer has been accepted,
    and the run ends in the budget error of the beast-mode pre-flight
    check: a run returns a result only after an iteration that breaks. *)
Theorem loop_condition_fails_only_on_budget c transcript envs s beast :
  (0 ≤ maxBadAttempts c)%Z ->
  iterate c envs (initialState c transcript) = Some s ->
  loopCondition c s = false ->
  (Z.of_nat (badAttempts s) ≤ maxBadAttempts c)%Z ∧
  (tokenBudget c ≤ Z.of_nat (usage s))%Z ∧
  ∃ log, getResponse c transcript envs beast =
         Some (log, Throw (BudgetExceeded (usage s + estimatedTokens) (tokenBudget c))).
Proof.
  intros Hmax Hrun Hcond.
  assert (Hinv : attemptsInv c s).
  { apply (iterate_attemptsInv c envs (initialState c transcript)); [|exact Hrun].
    split; [reflexivity|exact Hmax]. }
  destruct Hinv as [_ Hle].
  destruct (iterate_loopInv c envs _ s (initialState_loopInv c transcript) Hrun)
    as [(Hans & _) _].
  assert (Hu : (tokenBudget c ≤ Z.of_nat (usage s))%Z).
  { unfold loopCondition in Hcond. apply andb_false_iff in Hcond as [Hc|Hc];
      apply bool_decide_eq_false in Hc; lia. }
  split; [exact Hle|]. split; [exact Hu|].
  destruct (loop_iterate c envs _ s [] Hrun) as (log0 & Hloop).
  rewrite app_nil_r in Hloop.
  unfold getResponse. rewrite Hloop, (loop_nil_exit c s Hcond).
  cbn [fmap option_fmap option_map fst snd mbind M_bind].
  rewrite (afterLoop_unanswered c beast s Hans).
  rewrite bool_decide_eq_true_2 by (unfold estimatedTokens; lia).
  eexists; reflexivity.
Qed.

Lemma loop_condition_fails_only_on_budget_witness :
  ∃ s, iterate tightConfig [costlyRejectingEnv] (initialState tightConfig []) = Some s ∧
       badAttempts s = 1 ∧
       ∃ log, getResponse tightConfig [] [costlyRejectingEnv] beastEnv =
              Some (log, Throw (BudgetExceeded (usage s + estimatedTokens) 100)).
Proof.
  eexists. split; [vm_compute; reflexivity|]. split; [reflexivity|].
  refine (proj2 (proj2 (loop_condition_fails_only_on_budget tightConfig []
                          [costlyRejectingEnv] _ beastEnv _ _ _)));
    vm_compute; first [reflexivity | discriminate].
Defined.

(** ** The outcomes of an [answer] *)

(** X5. An answer to the original question that the evaluator judges
    definitive, with the bad-attempt count below its ceiling, ends the run
    at once, with or without references: the iteration breaks with
    [isAnswered] set, the retry bookkeeping and the knowledge untouched,
    and what follows the loop returns that very decision without any
    further call, beast mode included.  The references only decide which
    entry closes the diary. *)
Theorem definitive_answer_is_returned_at_once c e s totalTokenCount d ev tokens :
  currentQuestionOf c s = question c ->
  (Z.of_nat (badAttempts s) < maxBadAttempts c)%Z ->
  (Z.of_nat (usage s + estimatedTokens) ≤ tokenBudget c)%Z ->
  generateContent e (stepSchema s) = AgentReplies totalTokenCount (Some d) ->
  action d = "answer" ->
  evaluateAnswer e (question c) (answer d) = Some (ev, tokens) ->
  is_definitive ev = true ->
  ∃ s', iteration c e s =
          ([CallAgent (stepSchema s); CallEvaluate (question c) (answer d)], Ok (Break s')) ∧
    isAnswered s' = true ∧
    badAttempts s' = badAttempts s ∧ badContext s' = badContext s ∧
    allKnowledge s' = allKnowledge s ∧
    last (diaryContext s') =
      Some (if has_references d || bool_decide (size (allURLs s) = 0)
            then DiaryAnswered (S (step s)) (question c) (answer d) (reasoning ev)
            else DiaryNoReferences (S (step s)) (question c) (answer d)) ∧
    ∀ beast, afterLoop c beast s' =
      ([], Ok {| r_result := d; r_usage := usage s + default 0 totalTokenCount + tokens |}).
Proof.
  intros Hq Hlt Hb Hg Ha Hev Hdef.
  pose proof (iteration_Ok c e s _ _ Hb Hg) as Hit; cbn zeta in Hit.
  apply dispatch_answer in Ha. unfold perform in Hit; rewrite Ha, Hq in Hit.
  rewrite Hit; clear Hit. unfold answerAction.
  rewrite Hev, call_Some. cbn -[Z.of_nat].
  rewrite bool_decide_eq_true_2 by reflexivity.
  rewrite bool_decide_eq_false_2 by lia.
  rewrite Hdef.
  destruct (has_references d || bool_decide (size (allURLs s) = 0));
    cbn; (eexists; split; [reflexivity|]); cbn;
    repeat split; apply last_snoc.
Qed.

Lemma definitive_answer_is_returned_at_once_witness :
  ∃ s', result (iteration sampleConfig acceptingEnv (initialState sampleConfig [])) =
          Ok (Break s') ∧
        isAnswered s' = true ∧
        afterLoop sampleConfig (oracleOnly AgentThrows) s' =
          ([], Ok {| r_result := answerDecision "42"; r_usage := 15 |}).
Proof.
  destruct (definitive_answer_is_returned_at_once sampleConfig acceptingEnv
              (initialState sampleConfig []) (Some 10) (answerDecision "42")
              {| is_definitive := true; reasoning := "clear" |} 5)
    as (s' & Hit & Hans & _ & _ & _ & _ & Hafter);
    [reflexivity | vm_compute; reflexivity | vm_compute; discriminate
    | reflexivity | reflexivity | reflexivity | reflexivity |].
  exists s'. split; [rewrite Hit; reflexivity|]. split; [exact Hans|]. apply Hafter.
Defined.

(** X6. An answer to the original question given when the bad-attempt count
    has reached its ceiling is never accepted, whatever the evaluator says
    of it, a definitive verdict included: the iteration breaks with
    [isAnswered] false and the retry bookkeeping untouched, the failure
    analyzer is not called, and the decision stays in [thisStep]. *)
Theorem answer_at_the_ceiling_is_not_accepted c e s totalTokenCount d ev tokens :
  currentQuestionOf c s = question c ->
  (maxBadAttempts c ≤ Z.of_nat (badAttempts s))%Z ->
  (Z.of_nat (usage s + estimatedTokens) ≤ tokenBudget c)%Z ->
  generateContent e (stepSchema s) = AgentReplies totalTokenCount (Some d) ->
  action d = "answer" ->
  evaluateAnswer e (question c) (answer d) = Some (ev, tokens) ->
  ∃ s', iteration c e s =
          ([CallAgent (stepSchema s); CallEvaluate (question c) (answer d)], Ok (Break s')) ∧
    isAnswered s' = false ∧
    thisStep s' = d ∧
    badAttempts s' = badAttempts s ∧ badContext s' = badContext s ∧
    last (diaryContext s') =
      Some (DiaryLastResort (S (step s)) (badAttempts s) (question c) (answer d)
              (reasoning ev)).
Proof.
  intros Hq Hge Hb Hg Ha Hev.
  pose proof (iteration_Ok c e s _ _ Hb Hg) as Hit; cbn zeta in Hit.
  apply dispatch_answer in Ha. unfold perform in Hit; rewrite Ha, Hq in Hit.
  rewrite Hit; clear Hit. unfold answerAction.
  rewrite Hev, call_Some. cbn -[Z.of_nat].
  rewrite bool_decide_eq_true_2 by reflexivity.
  rewrite bool_decide_eq_true_2 by lia.
  cbn. eexists; split; [reflexivity|]. cbn. repeat split. apply last_snoc.
Qed.

Lemma answer_at_the_ceiling_is_not_accepted_witness :
  ∃ s', result (iteration strictConfig acceptingEnv (initialState strictConfig [])) =
          Ok (Break s') ∧
        isAnswered s' = false.
Proof.
  destruct (answer_at_the_ceiling_is_not_accepted strictConfig acceptingEnv
              (initialState strictConfig []) (Some 10) (answerDecision "42")
              {| is_definitive := true; reasoning := "clear" |} 5)
    as (s' & Hit & Hans & _);
    [reflexivity | vm_compute; discriminate | vm_compute; discriminate
    | reflexivity | reflexivity | reflexivity |].
  exists s'. split; [rewrite Hit; reflexivity|exact Hans].
Defined.

(** X7. An answer to a sub-question never ends the loop and never touches
    the retry bookkeeping.  If the evaluator judges it definitive, one
    knowledge item of kind [qa] with the sub-question and the answer is
    appended and the diary gets an entry; if not, the answer is dropped:
    knowledge and diary stay as they were.  Either way the sub-question
    has left the gap queue. *)
Theorem sub_question_answer_is_kept_only_if_definitive c e s totalTokenCount d ev tokens :
  currentQuestionOf c s ≠ question c ->
  (Z.of_nat (usage s + estimatedTokens) ≤ tokenBudget c)%Z ->
  generateContent e (stepSchema s) = AgentReplies totalTokenCount (Some d) ->
  action d = "answer" ->
  evaluateAnswer e (currentQuestionOf c s) (answer d) = Some (ev, tokens) ->
  ∃ s', result (iteration c e s) = Ok (Continue s') ∧
    allKnowledge s' = allKnowledge s ++
      (if is_definitive ev
       then [{| k_question := currentQuestionOf c s; k_answer := answer d; k_type := K_qa |}]
       else []) ∧
    diaryContext s' = diaryContext s ++
      (if is_definitive ev
       then [DiarySubAnswered (S (step s)) (currentQuestionOf c s) (answer d) (reasoning ev)]
       else []) ∧
    gaps s' = tail (gaps s) ∧
    badAttempts s' = badAttempts s ∧ badContext s' = badContext s ∧
    allowAnswer s' = true ∧ isAnswered s' = isAnswered s.
Proof.
  intros Hq Hb Hg Ha Hev.
  pose proof (iteration_Ok c e s _ _ Hb Hg) as Hit; cbn zeta in Hit.
  apply dispatch_answer in Ha. unfold perform in Hit; rewrite Ha in Hit.
  rewrite Hit; clear Hit. unfold result; cbn [snd]. unfold answerAction.
  rewrite Hev, call_Some. cbn -[Z.of_nat].
  rewrite bool_decide_eq_false_2 by exact Hq.
  destruct (is_definitive ev); cbn; (eexists; split; [reflexivity|]); cbn;
    rewrite ?app_nil_r; repeat split.
Qed.

Lemma sub_question_answer_is_kept_only_if_definitive_witness :
  ∃ s', result (iteration sampleConfig acceptingEnv subQuestionState) = Ok (Continue s') ∧
        allKnowledge s' = [{| k_question := "a"; k_answer := Some "42"; k_type := K_qa |}] ∧
        gaps s' = ["b"; "q"].
Proof.
  destruct (sub_question_answer_is_kept_only_if_definitive sampleConfig acceptingEnv
              subQuestionState (Some 10) (answerDecision "42")
              {| is_definitive := true; reasoning := "clear" |} 5)
    as (s' & Hit & Hk & _ & Hg & _);
    [vm_compute; discriminate | vm_compute; discriminate
    | reflexivity | reflexivity | reflexivity |].
  exists s'. repeat split; assumption.
Defined.

(** ** The pre-flight check at the start of a run *)

(** X8. A run that starts with less than the estimated 50 tokens of budget
    left never calls anything: whether or not the loop condition holds at
    the start, the first pre-flight check (of the first iteration, or of
    beast mode) throws the budget error.  A fresh run with a token budget
    below 50 can therefore never produce an answer. *)
Theorem budget_below_the_estimate_fails_before_any_call c transcript e envs beast :
  (tokenBudget c < Z.of_nat (existingUsage c + estimatedTokens))%Z ->
  getResponse c transcript (e :: envs) beast =
    Some ([], Throw (BudgetExceeded (existingUsage c + estimatedTokens) (tokenBudget c))).
Proof.
  intros Hlow. unfold getResponse. cbn [loop].
  destruct (loopCondition c (initialState c transcript)) eqn:Hcond.
  - unfold iteration, askAgent. cbn [usage initialState].
    rewrite bool_decide_eq_true_2 by exact Hlow. reflexivity.
  - cbn [fmap option_fmap option_map mret M_ret mbind M_bind].
    rewrite (afterLoop_unanswered c beast (initialState c transcript) eq_refl).
    cbn [usage initialState].
    rewrite bool_decide_eq_true_2 by exact Hlow. reflexivity.
Qed.

Lemma budget_below_the_estimate_fails_before_any_call_witness :
  getResponse {| question := "q"; tokenBudget := 49; maxBadAttempts := 3; existingUsage := 0 |}
    [] [acceptingEnv] beastEnv =
  Some ([], Throw (BudgetExceeded 50 49)).
Proof.
  apply (budget_below_the_estimate_fails_before_any_call
           {| question := "q"; tokenBudget := 49; maxBadAttempts := 3; existingUsage := 0 |}
           [] acceptingEnv [] beastEnv).
  vm_compute; reflexivity.
Defined.

(** ** Visits and searches that find nothing new *)

Lemma visit_offered (s : State) :
  "visit" ∈ action_enum (stepSchema s) -> allowRead s = true.
Proof.
  unfold stepSchema; rewrite action_enum_getSchema.
  destruct (allowRead s); [reflexivity|]; simpl.
  destruct (allowAnswer s), (allowSearch s && _), (allowReflect s && _); simpl; intros H;
    repeat (apply elem_of_cons in H as [H|H]; [discriminate|]);
    by apply elem_of_nil in H.
Qed.

Lemma search_offered (s : State) :
  "search" ∈ action_enum (stepSchema s) -> allowSearch s = true.
Proof.
  unfold stepSchema; rewrite action_enum_getSchema.
  destruct (allowSearch s); [reflexivity|]; simpl.
  destruct (allowAnswer s), (allowRead s && _), (allowReflect s && _); simpl; intros H;
    repeat (apply elem_of_cons in H as [H|H]; [discriminate|]);
    by apply elem_of_nil in H.
Qed.

Lemma uniqueURLs_all_visited targets visited :
  (∀ target, target ∈ targets -> target ∈ visited) -> targets ≠ [] ->
  uniqueURLs targets visited = [].
Proof.
  intros Hall Hne. rewrite uniqueURLs_filter.
  clear Hne. induction targets as [|t targets IH]; [reflexivity|].
  rewrite filter_cons_False by (intros Hn; apply Hn, Hall; left).
  apply IH. intros target Hin; apply Hall; right; exact Hin.
Qed.

(** X9. A visit whose requested urls have all been visited already issues
    no fetch at all: the oracle request is the iteration's only call,
    knowledge, visited list and frontier stay as they were, and [visit] is
    disallowed, hence absent from the next request. *)
Theorem visit_of_visited_urls_fetches_nothing c e s totalTokenCount d targets :
  (Z.of_nat (usage s + estimatedTokens) ≤ tokenBudget c)%Z ->
  generateContent e (stepSchema s) = AgentReplies totalTokenCount (Some d) ->
  action d = "visit" ->
  URLTargets d = Some targets ->
  targets ≠ [] ->
  (∀ target, target ∈ targets -> target ∈ visitedURLs s) ->
  ∃ s', iteration c e s = ([CallAgent (stepSchema s)], Ok (Continue s')) ∧
    allowRead s' = false ∧
    ("visit" ∉ action_enum (stepSchema s')) ∧
    allKnowledge s' = allKnowledge s ∧
    visitedURLs s' = visitedURLs s ∧
    allURLs s' = allURLs s ∧
    usage s' = usage s + default 0 totalTokenCount.
Proof.
  intros Hb Hg Ha Ht Hne Hall.
  pose proof (iteration_Ok c e s _ _ Hb Hg) as Hit; cbn zeta in Hit.
  destruct targets as [|t ts]; [contradiction|].
  unfold perform in Hit; rewrite (dispatch_visit d t ts Ha Ht) in Hit.
  rewrite Hit; clear Hit. unfold visitAction.
  cbn [visitedURLs afterDecision trackUsage set_usage].
  rewrite (uniqueURLs_all_visited (t :: ts) (visitedURLs s) Hall Hne).
  eexists; split; [reflexivity|]. cbn.
  split; [reflexivity|]. split; [|repeat split].
  intros Hin. apply visit_offered in Hin. discriminate.
Qed.

Lemma visit_of_visited_urls_fetches_nothing_witness :
  visitedURLs afterVisitState = ["u"] ∧
  ∃ s', iteration sampleConfig visitEnv afterVisitState =
          ([CallAgent (stepSchema afterVisitState)], Ok (Continue s')) ∧
        allowRead s' = false ∧ length (allKnowledge s') = 1.
Proof.
  split; [reflexivity|].
  destruct (visit_of_visited_urls_fetches_nothing sampleConfig visitEnv afterVisitState
              (Some 10) (visitDecision ["u"]) ["u"])
    as (s' & Hit & Hr & _ & Hk & _);
    [vm_compute; discriminate | reflexivity | reflexivity | reflexivity | discriminate
    | intros target Hin; apply list_elem_of_singleton in Hin as ->; apply list_elem_of_here |].
  exists s'. split; [exact Hit|]. split; [exact Hr|]. rewrite Hk; reflexivity.
Defined.

Lemma dispatch_search d a r :
  action d = "search" -> searchQuery d = Some (String a r) -> dispatch d = DoSearch.
Proof. unfold dispatch; intros -> ->; reflexivity. Qed.

Lemma dedupAgainst_calls_no_search e candidates seen query :
  CallSearch query ∉ calls (dedupAgainst e candidates seen).
Proof.
  destruct seen as [|x seen]; cbn [dedupAgainst].
  - apply not_elem_of_nil.
  - rewrite calls_call. intros H. apply list_elem_of_singleton in H. discriminate.
Qed.

(** X10. A search whose keywords are all rejected by the deduplication
    against the keyword history (or for which the rewriter gives no
    keyword) calls no search adapter: frontier and keyword history stay as
    they were, and [search] is disallowed, hence absent from the next
    request. *)
Theorem search_without_new_keywords_searches_nothing
    c e s totalTokenCount d a r oldKeywords :
  (Z.of_nat (usage s + estimatedTokens) ≤ tokenBudget c)%Z ->
  generateContent e (stepSchema s) = AgentReplies totalTokenCount (Some d) ->
  action d = "search" ->
  searchQuery d = Some (String a r) ->
  rewriteQuery e d = Some oldKeywords ->
  result (dedupAgainst e oldKeywords (allKeywords s)) = Ok [] ->
  ∃ s', result (iteration c e s) = Ok (Continue s') ∧
    (∀ query, CallSearch query ∉ calls (iteration c e s)) ∧
    allowSearch s' = false ∧
    ("search" ∉ action_enum (stepSchema s')) ∧
    allURLs s' = allURLs s ∧
    allKeywords s' = allKeywords s.
Proof.
  intros Hb Hg Ha Hq Hrw Hd.
  pose proof (iteration_Ok c e s _ _ Hb Hg) as Hit; cbn zeta in Hit.
  unfold perform in Hit; rewrite (dispatch_search d a r Ha Hq) in Hit.
  set (s1 := afterDecision d (trackUsage (default 0 totalTokenCount) s)) in *.
  assert (Hsa : searchAction c e (currentQuestionOf c s) d s1 =
                (CallRewrite d :: calls (dedupAgainst e oldKeywords (allKeywords s)),
                 Ok (Continue (set_allowSearch false
                   (updateContext (stale_entry staleQueries d
                      (push_diary (DiarySearchStale (step s1) (currentQuestionOf c s)
                                     oldKeywords) s1))
                      (push_diary (DiarySearchStale (step s1) (currentQuestionOf c s)
                                     oldKeywords) s1)))))).
  { unfold searchAction. rewrite Hrw, call_Some.
    cbn [mbind M_bind fst snd app]. change (allKeywords s1) with (allKeywords s).
    destruct (dedupAgainst e oldKeywords (allKeywords s)) as [log res].
    unfold result in Hd; cbn in Hd; subst res. cbn. rewrite app_nil_r. reflexivity. }
  rewrite Hit, Hsa. eexists; split; [reflexivity|].
  split.
  - intros query Hin. unfold calls in Hin; cbn [fst] in Hin.
    apply elem_of_cons in Hin as [Hin|Hin]; [discriminate|].
    apply elem_of_cons in Hin as [Hin|Hin]; [discriminate|].
    apply (dedupAgainst_calls_no_search _ _ _ _ Hin).
  - cbn. split; [reflexivity|]. split; [|split; reflexivity].
    intros Hin. apply search_offered in Hin. discriminate.
Qed.

Lemma search_without_new_keywords_searches_nothing_witness :
  ∃ s', result (iteration sampleConfig staleSearchEnv afterVisitState) = Ok (Continue s') ∧
        allowSearch s' = false ∧ allKeywords s' = ["topic"].
Proof.
  destruct (search_without_new_keywords_searches_nothing sampleConfig staleSearchEnv
              afterVisitState (Some 10) (searchDecision "topic") "t" "opic" ["topic"])
    as (s' & Hit & _ & Hs & _ & _ & Hk);
    [vm_compute; discriminate | reflexivity | reflexivity | reflexivity | reflexivity
    | reflexivity |].
  exists s'. split; [exact Hit|]. split; [exact Hs|]. rewrite Hk; reflexivity.
Defined.

(** ** What a search adds *)






(** ** No second fetch of a visited url *)

Lemma dedupAgainst_freshRead visited e candidates seen :
  Forall (freshRead visited) (calls (dedupAgainst e candidates seen)).
Proof.
  destruct seen; cbn [dedupAgainst];
    [apply Forall_calls_ret | apply Forall_calls_call; exact I].
Qed.

Lemma searchLoop_freshRead visited e queries : ∀ i found s,
  Forall (freshRead visited) (calls (searchLoop e i queries found s)).
Proof.
  induction queries as [|query rest IH]; intros i found s; cbn [searchLoop].
  - apply Forall_calls_ret.
  - apply Forall_calls_bind; [apply Forall_calls_call; exact I|].
    intros results _. apply IH.
Qed.

Lemma perform_freshRead c e q d s :
  Forall (freshRead (visitedURLs s)) (calls (perform c e q d s)).
Proof.
  unfold perform. destruct (dispatch d) as [|qs| |ts|].
  - unfold answerAction.
    apply Forall_calls_bind; [apply Forall_calls_call; exact I|].
    intros [ev tokens] _. cbn -[Z.of_nat mbind call].
    repeat case_bool_decide; repeat match goal with
      | |- context [if ?b then _ else _] => destruct b
      end; try apply Forall_calls_ret;
      (apply Forall_calls_bind; [apply Forall_calls_call; exact I|]);
      intros an _; apply Forall_calls_ret.
  - unfold reflectAction.
    apply Forall_calls_bind; [apply dedupAgainst_freshRead|].
    intros [|x l] _; apply Forall_calls_ret.
  - unfold searchAction.
    apply Forall_calls_bind; [apply Forall_calls_call; exact I|]. intros old _.
    apply Forall_calls_bind; [apply dedupAgainst_freshRead|].
    intros [|k l] _; [apply Forall_calls_ret|].
    apply Forall_calls_bind; [apply searchLoop_freshRead|].
    intros [found s1] _. apply Forall_calls_ret.
  - unfold visitAction.
    destruct (uniqueURLs ts (visitedURLs s)) as [|u unique] eqn:Hu;
      [apply Forall_calls_ret|].
    apply Forall_calls_bind.
    + unfold calls; cbn [fst]. rewrite <- Hu, uniqueURLs_filter.
      apply Forall_fmap, Forall_forall. intros target Hin.
      apply list_elem_of_filter in Hin as [Hnew _]. exact Hnew.
    + intros _ _. apply Forall_calls_bind.
      * rewrite settleAll_calls. constructor.
      * intros s1 _. apply Forall_calls_ret.
  - apply Forall_calls_ret.
Qed.

(** X13. Whatever the decision and however the iteration ends, with a
    state or with an exception, no url that was already in the visited
    list when the iteration began is fetched during it. *)
Theorem visited_url_is_never_fetched_again c e s target :
  CallRead target ∈ calls (iteration c e s) -> target ∉ visitedURLs s.
Proof.
  intros Hin.
  assert (Hall : Forall (freshRead (visitedURLs s)) (calls (iteration c e s))).
  { unfold iteration. apply Forall_calls_bind.
    - unfold askAgent. case_bool_decide; [constructor|].
      apply Forall_calls_bind; [repeat constructor|].
      intros _ _. destruct (generateContent e (stepSchema s)) as [|tok [d|]];
        constructor.
    - intros [d s1] Hask. apply askAgent_inv in Hask as (_ & tok & _ & ->).
      apply (perform_freshRead c e (currentQuestionOf c s) d
               (afterDecision d (trackUsage (default 0 tok) s))). }
  rewrite Forall_forall in Hall. apply (Hall _ Hin).
Qed.

Lemma visited_url_is_never_fetched_again_witness :
  visitedURLs afterVisitState = ["u"] ∧
  calls (iteration sampleConfig failingVisitEnv afterVisitState) =
    [CallAgent (stepSchema afterVisitState); CallRead "v"] ∧
  "v" ∉ visitedURLs afterVisitState.
Proof.
  split; [reflexivity|].
  assert (Hcalls : calls (iteration sampleConfig failingVisitEnv afterVisitState) =
                   [CallAgent (stepSchema afterVisitState); CallRead "v"])
    by (vm_compute; reflexivity).
  split; [exact Hcalls|].
  apply (visited_url_is_never_fetched_again sampleConfig failingVisitEnv afterVisitState "v").
  rewrite Hcalls. apply list_elem_of_further, list_elem_of_here.
Defined.

(** * [getSchema] and [removeAllLineBreaks] *)

(** X14. Whatever the four flags, the schema declares the payload fields
    of exactly the actions it permits, in the order of the enum and after
    [action] and [thoughts]; no key and no action is declared twice; the
    required keys are declared; and the enum is empty only when all four
    flags are off. *)
Theorem schema_declares_the_fields_of_its_actions
    (allowReflect allowRead allowAnswer allowSearch : bool) :
  let sch := getSchema allowReflect allowRead allowAnswer allowSearch in
  (properties sch).*1 = ["action"; "thoughts"] ++ mjoin (payloadFields <$> action_enum sch) ∧
  NoDup (properties sch).*1 ∧
  NoDup (action_enum sch) ∧
  required sch ⊆ (properties sch).*1 ∧
  (action_enum sch = [] ↔
   allowReflect = false ∧ allowRead = false ∧ allowAnswer = false ∧ allowSearch = false).
Proof.
  destruct allowReflect, allowRead, allowAnswer, allowSearch; cbv zeta;
    (split; [reflexivity|]);
    (split; [apply (bool_decide_unpack _); vm_compute; exact I|]);
    (split; [apply (bool_decide_unpack _); vm_compute; exact I|]);
    (split; [intros key Hin; cbn in Hin |- *;
             repeat (apply elem_of_cons in Hin as [->|Hin]; [set_solver|]);
             by apply elem_of_nil in Hin|]);
    (split; [intros H; try discriminate H; repeat split; reflexivity
            |intros (H1 & H2 & H3 & H4); try discriminate; reflexivity]).
Qed.

Lemma removeAllLineBreaks_cons ch rest :
  removeAllLineBreaks (String ch rest) =
  if bool_decide (ch = CR) then
    match rest with
    | String c' rest' =>
        if bool_decide (c' = LF) then String " " (removeAllLineBreaks rest')
        else String " " (removeAllLineBreaks rest)
    | EmptyString => String " " EmptyString
    end
  else if bool_decide (ch = LF) then String " " (removeAllLineBreaks rest)
  else String ch (removeAllLineBreaks rest).
Proof. reflexivity. Qed.

Lemma removeAllLineBreaks_spec text :
  (lineBreaks (removeAllLineBreaks text) = [] ∧
   String.length (removeAllLineBreaks text) ≤ String.length text ∧
   (lineBreaks text = [] -> removeAllLineBreaks text = text)) ∧
  ∀ ch,
    lineBreaks (removeAllLineBreaks (String ch text)) = [] ∧
    String.length (removeAllLineBreaks (String ch text)) ≤ S (String.length text) ∧
    (lineBreaks (String ch text) = [] -> removeAllLineBreaks (String ch text) = String ch text).
Proof.
  induction text as [|c text [(IH1 & IH2 & IH3) IH]].
  - split; [repeat split; cbn; lia|].
    intros ch. cbn [removeAllLineBreaks]. unfold lineBreaks.
    cbn [String.list_ascii_of_string String.length].
    case_bool_decide as Hcr; [subst ch|case_bool_decide as Hlf; [subst ch|]].
    + split; [reflexivity|]. split; [cbn; lia|].
      rewrite filter_cons_True by (left; reflexivity). discriminate.
    + split; [reflexivity|]. split; [cbn; lia|].
      rewrite filter_cons_True by (right; reflexivity). discriminate.
    + cbn [String.list_ascii_of_string String.length].
      rewrite filter_cons_False by (intros [?|?]; contradiction).
      split; [reflexivity|]. split; [lia|reflexivity].
  - split; [apply IH|].
    intros ch. destruct (IH c) as (IHc1 & IHc2 & IHc3).
    rewrite (removeAllLineBreaks_cons ch (String c text)). cbv beta iota.
    unfold lineBreaks in *. cbn [String.list_ascii_of_string String.length] in *.
    case_bool_decide as Hcr; [subst ch|].
    + case_bool_decide as Hlf; [subst c|].
      * cbn [String.list_ascii_of_string String.length].
        rewrite filter_cons_False by (intros [?|?]; discriminate).
        split; [exact IH1|]. split; [lia|].
        rewrite filter_cons_True by (left; reflexivity). discriminate.
      * cbn [String.list_ascii_of_string String.length].
        rewrite filter_cons_False by (intros [?|?]; discriminate).
        split; [exact IHc1|]. split; [lia|].
        rewrite filter_cons_True by (left; reflexivity). discriminate.
    + case_bool_decide as Hlf; [subst ch|].
      * cbn [String.list_ascii_of_string String.length].
        rewrite filter_cons_False by (intros [?|?]; discriminate).
        split; [exact IHc1|]. split; [lia|].
        rewrite filter_cons_True by (right; reflexivity). discriminate.
      * cbn [String.list_ascii_of_string String.length].
        rewrite !filter_cons_False by (intros [?|?]; contradiction).
        split; [exact IHc1|]. split; [lia|].
        intros Hnone. f_equal. apply IHc3. exact Hnone.
Qed.

(** X15. [removeAllLineBreaks] returns a text with no carriage return and
    no line feed in it, never longer than the one it is given; it leaves a
    text without line breaks as it is, so applying it twice is the same as
    applying it once.  The answer of every knowledge item made from a
    fetched page is such a text. *)
Theorem removeAllLineBreaks_leaves_no_line_break text :
  lineBreaks (removeAllLineBreaks text) = [] ∧
  String.length (removeAllLineBreaks text) ≤ String.length text ∧
  (lineBreaks text = [] -> removeAllLineBreaks text = text) ∧
  removeAllLineBreaks (removeAllLineBreaks text) = removeAllLineBreaks text ∧
  (∀ response, ∃ a, k_answer (urlKnowledge response) = Some a ∧ lineBreaks a = []).
Proof.
  destruct (removeAllLineBreaks_spec text) as [(H1 & H2 & H3) _].
  split; [exact H1|]. split; [exact H2|]. split; [exact H3|]. split.
  - destruct (removeAllLineBreaks_spec (removeAllLineBreaks text)) as [(_ & _ & H) _].
    apply H, H1.
  - intros response. eexists; split; [reflexivity|].
    apply removeAllLineBreaks_spec.
Qed.

Lemma removeAllLineBreaks_leaves_no_line_break_witness :
  removeAllLineBreaks "one line" = "one line".
Proof.
  apply (proj1 (proj2 (proj2 (removeAllLineBreaks_leaves_no_line_break "one line")))).
  reflexivity.
Defined.

(** * [getPrompt] *)



(** * Report files *)

Example extractTitle_takes_the_first_heading :
  extractTitle (units "intro" ++ [lineFeed] ++ units "#  My   Report " ++ [lineFeed] ++
                units "# Second") = units "My_Report".
Proof. vm_compute. reflexivity. Qed.

Example getTimestamp_example :
  getTimestamp {| getFullYear := 2025; getMonth := 1; getDate := 7; getHours := 9;
                  getMinutes := 5 |} = "2025-02-07-0905".
Proof. vm_compute. reflexivity. Qed.

(** ** [extractTitle] *)

Lemma splitOn_nonempty sep text : splitOn sep text ≠ [].
Proof.
  destruct text as [|u rest]; cbn; [discriminate|].
  case_bool_decide; [discriminate|]. destruct (splitOn sep rest); discriminate.
Qed.

Lemma splitOn_line sep line : sep ∉ line -> splitOn sep line = [line].
Proof.
  induction line as [|u line IH]; intros Hno; [reflexivity|].
  cbn. rewrite bool_decide_eq_false_2 by (intros ->; apply Hno; left).
  rewrite IH by (intros Hin; apply Hno; right; exact Hin). reflexivity.
Qed.

Lemma splitOn_first_line sep line rest :
  sep ∉ line -> splitOn sep (line ++ sep :: rest) = line :: splitOn sep rest.
Proof.
  induction line as [|u line IH]; intros Hno.
  - cbn. rewrite bool_decide_eq_true_2 by reflexivity. reflexivity.
  - cbn. rewrite bool_decide_eq_false_2 by (intros ->; apply Hno; left).
    rewrite IH by (intros Hin; apply Hno; right; exact Hin). reflexivity.
Qed.

Lemma replaceRuns_no_white_space text : ∀ inRun u,
  u ∈ replaceRuns inRun text -> isWhiteSpace u = false.
Proof.
  induction text as [|v text IH]; intros inRun u Hin; cbn in Hin.
  - by apply elem_of_nil in Hin.
  - destruct (isWhiteSpace v) eqn:Hv.
    + destruct inRun; [apply (IH true u Hin)|].
      apply elem_of_cons in Hin as [->|Hin]; [reflexivity|apply (IH true u Hin)].
    + apply elem_of_cons in Hin as [->|Hin]; [exact Hv|apply (IH false u Hin)].
Qed.

Lemma extractTitle_cases report :
  (∃ line, line ∈ splitOn lineFeed report ∧ startsWith (units "# ") line = true ∧
           extractTitle report = titleOf line) ∨
  ((∀ line, line ∈ splitOn lineFeed report -> startsWith (units "# ") line = false) ∧
   extractTitle report = units "report").
Proof.
  unfold extractTitle.
  destruct (list_find _ (splitOn lineFeed report)) as [[i line]|] eqn:Hfind.
  - left. apply list_find_Some in Hfind as (Hi & Hp & _).
    exists line. split; [apply list_elem_of_lookup; eauto|].
    split; [apply Is_true_true; exact Hp|reflexivity].
  - right. split; [|reflexivity].
    intros line Hin. rewrite list_find_None, Forall_forall in Hfind.
    specialize (Hfind line Hin). destruct (startsWith _ line); [|reflexivity].
    exfalso; apply Hfind; exact I.
Qed.

(** X17. The title [extractTitle] returns never has a white-space
    character in it (no space, no tab, no line break), whatever the
    report: it is either the text "report", when no line of the report
    begins with "# ", or what is left of a line that does once the two
    characters are dropped, the ends trimmed and every run of white space
    replaced by one underscore. *)
Theorem title_has_no_white_space report :
  (∀ u, u ∈ extractTitle report -> isWhiteSpace u = false) ∧
  ((∀ line, line ∈ splitOn lineFeed report -> startsWith (units "# ") line = false) ->
   extractTitle report = units "report").
Proof.
  split.
  - intros u Hin.
    destruct (extractTitle_cases report) as [(line & _ & _ & Heq)|[_ Heq]];
      rewrite Heq in Hin.
    + apply (replaceRuns_no_white_space _ _ _ Hin).
    + revert u Hin. apply Forall_forall.
      apply (bool_decide_unpack _). vm_compute. exact I.
  - intros Hnone.
    destruct (extractTitle_cases report) as [(line & Hin & Hp & _)|[_ Heq]]; [|exact Heq].
    rewrite (Hnone line Hin) in Hp. discriminate.
Qed.

Lemma title_has_no_white_space_witness :
  extractTitle (units "no heading here") = units "report".
Proof.
  apply (title_has_no_white_space (units "no heading here")).
  apply Forall_forall. apply (bool_decide_unpack _). vm_compute. exact I.
Defined.

Lemma list_find_head {A} (P : A -> bool) (x : A) (l : list A) :
  list_find P (x :: l) =
  if P x then Some (0, x) else prod_map S id <$> list_find P l.
Proof.
  cbn. destruct (P x); [rewrite decide_True by exact I|rewrite decide_False by exact id];
    reflexivity.
Qed.

(** X18. [extractTitle] reads the report line by line and stops at the
    first heading: for a first line without a line feed in it, the title
    of a report that goes on after it is the title of that line if the
    line begins with "# ", and otherwise the title of the rest of the
    report; the title of a report that is that line alone is the title of
    the line if it begins with "# ", and "report" otherwise. *)
Theorem first_heading_gives_the_title line rest :
  lineFeed ∉ line ->
  extractTitle (line ++ lineFeed :: rest) =
    (if startsWith (units "# ") line then titleOf line else extractTitle rest) ∧
  extractTitle line =
    (if startsWith (units "# ") line then titleOf line else units "report").
Proof.
  intros Hno. unfold extractTitle.
  rewrite (splitOn_first_line lineFeed line rest Hno), (splitOn_line lineFeed line Hno).
  rewrite !list_find_head.
  destruct (startsWith (units "# ") line); [split; reflexivity|].
  split; [|reflexivity].
  destruct (list_find _ (splitOn lineFeed rest)) as [[i l]|]; reflexivity.
Qed.

Lemma first_heading_gives_the_title_witness :
  extractTitle (units "preface" ++ lineFeed :: units "# A  B") = units "A_B".
Proof.
  etrans.
  - apply (first_heading_gives_the_title (units "preface") (units "# A  B")).
    apply (bool_decide_unpack _). vm_compute. exact I.
  - vm_compute. reflexivity.
Defined.

Lemma dropWhile_nil {A} (f : A -> bool) l :
  dropWhile f l = [] ↔ Forall (fun x => f x = true) l.
Proof.
  induction l as [|x l IH]; cbn; [split; [constructor|reflexivity]|].
  destruct (f x) eqn:Hx.
  - rewrite IH. split; [intros H; constructor; assumption|intros H; inversion H; assumption].
  - split; [discriminate|]. intros H; inversion H; congruence.
Qed.

Lemma dropWhile_head {A} (f : A -> bool) l x rest :
  dropWhile f l = x :: rest -> f x = false.
Proof.
  induction l as [|y l IH]; cbn; [discriminate|].
  destruct (f y) eqn:Hy; [exact IH|]. intros [= <- _]; exact Hy.
Qed.

Lemma trim_nil text : trim text = [] ↔ Forall (fun u => isWhiteSpace u = true) text.
Proof.
  unfold trim. split.
  - intros H. apply (f_equal reverse) in H. rewrite reverse_involutive in H. cbn in H.
    apply dropWhile_nil in H. rewrite Forall_reverse in H.
    destruct (dropWhile isWhiteSpace text) as [|x rest] eqn:Hd.
    + apply dropWhile_nil; exact Hd.
    + apply dropWhile_head in Hd. inversion H; congruence.
  - intros H. apply dropWhile_nil in H. rewrite H. reflexivity.
Qed.

Lemma replaceRuns_nil text : replaceRuns false text = [] ↔ text = [].
Proof.
  destruct text as [|u rest]; cbn; [tauto|].
  destruct (isWhiteSpace u); split; discriminate.
Qed.

(** X19. The title can be empty: for a report that is one heading line, the
    title is the empty text exactly when everything after the "# " is
    white space; the fallback "report" is not used then. *)
Theorem heading_of_white_space_gives_the_empty_title line :
  startsWith (units "# ") line = true ->
  lineFeed ∉ line ->
  (extractTitle line = [] ↔ Forall (fun u => isWhiteSpace u = true) (drop 2 line)).
Proof.
  intros Hp Hno. unfold extractTitle.
  rewrite (splitOn_line lineFeed line Hno), list_find_head, Hp.
  unfold titleOf. rewrite replaceRuns_nil. apply trim_nil.
Qed.

Lemma heading_of_white_space_gives_the_empty_title_witness :
  extractTitle (units "#   ") = [].
Proof.
  apply (heading_of_white_space_gives_the_empty_title (units "#   ")).
  - reflexivity.
  - apply (bool_decide_unpack _). vm_compute. exact I.
  - apply (bool_decide_unpack _). vm_compute. exact I.
Defined.

(** ** [getTimestamp] *)

Lemma string_length_app (a b : string) :
  String.length (a +:+ b) = String.length a + String.length b.
Proof. induction a as [|ch a IH]; simpl; [reflexivity|f_equal; exact IH]. Qed.

Lemma string_app_inj_length (a a' b b' : string) :
  String.length a = String.length a' -> a +:+ b = a' +:+ b' -> a = a' ∧ b = b'.
Proof.
  revert a'. induction a as [|ch a IH]; intros [|ch' a'] Hlen Heq; cbn in *;
    try discriminate; [split; [reflexivity|exact Heq]|].
  injection Heq as -> Heq. injection Hlen as Hlen.
  destruct (IH a' Hlen Heq) as [-> ->]. split; reflexivity.
Qed.

Lemma NoDup_fmap_inj {A B} (f : A -> B) (l : list A) x y :
  NoDup (f <$> l) -> x ∈ l -> y ∈ l -> f x = f y -> x = y.
Proof.
  induction l as [|z l IH]; intros Hnd Hx Hy Heq; [by apply elem_of_nil in Hx|].
  cbn in Hnd. apply NoDup_cons in Hnd as [Hz Hnd].
  apply elem_of_cons in Hx as [->|Hx]; apply elem_of_cons in Hy as [->|Hy].
  - reflexivity.
  - exfalso; apply Hz. rewrite Heq. apply list_elem_of_fmap_2; exact Hy.
  - exfalso; apply Hz. rewrite <- Heq. apply list_elem_of_fmap_2; exact Hx.
  - apply IH; assumption.
Qed.

Lemma twoDigits_length n : n < 100 -> String.length (twoDigits n) = 2.
Proof.
  intros Hn.
  assert (H : Forall (fun n => String.length (twoDigits n) = 2) (seq 0 100))
    by (apply (bool_decide_unpack _); vm_compute; exact I).
  rewrite Forall_forall in H. apply H, elem_of_seq; lia.
Qed.

Lemma twoDigits_inj n m : n < 100 -> m < 100 -> twoDigits n = twoDigits m -> n = m.
Proof.
  intros Hn Hm.
  assert (H : NoDup (twoDigits <$> seq 0 100))
    by (apply (bool_decide_unpack _); vm_compute; exact I).
  apply (NoDup_fmap_inj twoDigits (seq 0 100) n m H); apply elem_of_seq; lia.
Qed.

Lemma year_length y : 1000 ≤ y < 10 * 1000 -> String.length (pretty y) = 4.
Proof.
  intros Hy.
  assert (H : forallb (fun y => String.length (pretty y) =? 4) (seq 1000 (9 * 1000)) = true)
    by (vm_compute; reflexivity).
  rewrite forallb_forall in H. apply Nat.eqb_eq, H, in_seq. lia.
Qed.

(** X20. For a local time in a year of four digits, the timestamp is 15
    characters long ([YYYY-MM-DD-HHMM], the month counted from 1), and it
    determines the time to the minute: two such times with the same
    timestamp are the same. *)
Theorem timestamp_identifies_the_minute t :
  validTime t ->
  String.length (getTimestamp t) = 15 ∧
  ∀ t', validTime t' -> getTimestamp t' = getTimestamp t -> t' = t.
Proof.
  intros (Hy & Hmo & Hd & Hh & Hmi).
  pose proof (year_length _ Hy) as Ly.
  pose proof (twoDigits_length (getMonth t + 1) ltac:(lia)) as Lmo.
  pose proof (twoDigits_length (getDate t) ltac:(lia)) as Ld.
  pose proof (twoDigits_length (getHours t) ltac:(lia)) as Lh.
  pose proof (twoDigits_length (getMinutes t) ltac:(lia)) as Lmi.
  split.
  - unfold getTimestamp. rewrite !string_length_app, Ly, Lmo, Ld, Lh, Lmi. reflexivity.
  - intros t' (Hy' & Hmo' & Hd' & Hh' & Hmi') Heq. unfold getTimestamp in Heq.
    pose proof (year_length _ Hy') as Ly'.
    pose proof (twoDigits_length (getMonth t' + 1) ltac:(lia)) as Lmo'.
    pose proof (twoDigits_length (getDate t') ltac:(lia)) as Ld'.
    pose proof (twoDigits_length (getHours t') ltac:(lia)) as Lh'.
    apply string_app_inj_length in Heq as [Hyear Heq]; [|rewrite Ly, Ly'; reflexivity].
    apply string_app_inj_length in Heq as [_ Heq]; [|reflexivity].
    apply string_app_inj_length in Heq as [Hmonth Heq]; [|rewrite Lmo, Lmo'; reflexivity].
    apply string_app_inj_length in Heq as [_ Heq]; [|reflexivity].
    apply string_app_inj_length in Heq as [Hday Heq]; [|rewrite Ld, Ld'; reflexivity].
    apply string_app_inj_length in Heq as [_ Heq]; [|reflexivity].
    apply string_app_inj_length in Heq as [Hhour Hmin]; [|rewrite Lh, Lh'; reflexivity].
    apply (inj pretty) in Hyear.
    apply twoDigits_inj in Hmonth; [|lia|lia].
    apply twoDigits_inj in Hday; [|lia|lia].
    apply twoDigits_inj in Hhour; [|lia|lia].
    apply twoDigits_inj in Hmin; [|lia|lia].
    destruct t, t'; cbn in *. f_equal; lia.
Qed.

Lemma timestamp_identifies_the_minute_witness :
  String.length (getTimestamp {| getFullYear := 2025; getMonth := 1; getDate := 7;
                                 getHours := 9; getMinutes := 5 |}) = 15.
Proof.
  apply (timestamp_identifies_the_minute
           {| getFullYear := 2025; getMonth := 1; getDate := 7; getHours := 9;
              getMinutes := 5 |}).
  unfold validTime; cbn; lia.
Defined.

(** * The evaluator's model *)





Example createModel_is_case_sensitive :
  ModelGenerator.createModel (Schema := unit) (fun _ => Nullish)
    (fun _ => Some (Value (TextMessage "Too Many Requests"))) evaluatorConfig tt =
  inl (Value (TextMessage "Too Many Requests")) ∧
  ModelGenerator.createModel (Schema := unit) (fun _ => Nullish)
    (fun _ => Some (Value (TextMessage "429: too many requests"))) evaluatorConfig tt =
  inr (ModelGenerator.getGenerativeModel "gemini-1.5-flash" evaluatorConfig tt).
Proof. split; reflexivity. Qed.

(** A probe that throws [null]: the caller is thrown the [TypeError] of
    the [catch] clause. *)
Example createModel_loses_a_thrown_null :
  ModelGenerator.createModel (Schema := unit)
    (fun name => Value (TextMessage ("Cannot read properties of null (reading '" +:+ name +:+ "')")))
    (fun _ => Some Nullish) evaluatorConfig tt =
  inl (Value (TextMessage "Cannot read properties of null (reading 'message')")).
Proof. reflexivity. Qed.

(** ** [evaluateAnswer] and its cached model *)

Section EvaluatorFacts.
Context {Temperature Schema : Type} (typeError : string -> Thrown).
Implicit Types (services : @Evaluator.Services Temperature Schema).
Implicit Types (config : @ModelGenerator.ModelConfig Temperature).
Implicit Types (was : @Evaluator.Memory Temperature Schema).

Lemma evaluateWith_cache services m was created :
  let out := Evaluator.evaluateWith typeError services m was created in
  (threw out = false ∧ Evaluator.model (Evaluator.memory out) = Some m) ∨
  (threw out = true ∧ Evaluator.model (Evaluator.memory out) = None).
Proof.
  unfold Evaluator.evaluateWith, threw.
  destruct (Evaluator.generateContent services m) as [error|tok [error|response]];
    destruct (Evaluator.tracker was); cbn; auto.
Qed.

Lemma evaluateAnswer_cache services config (schema : Schema) was :
  let out := Evaluator.evaluateAnswer typeError services config schema was in
  (Evaluator.created out = true ↔ Evaluator.model was = None) ∧
  ((threw out = false ∧ is_Some (Evaluator.model (Evaluator.memory out)) ∧
    (∀ m, Evaluator.model was = Some m -> Evaluator.model (Evaluator.memory out) = Some m)) ∨
   (threw out = true ∧ Evaluator.model (Evaluator.memory out) = None)).
Proof.
  unfold Evaluator.evaluateAnswer.
  destruct (Evaluator.model was) as [m|] eqn:Hm.
  - pose proof (evaluateWith_cache services m was false) as Hc. cbv zeta in Hc |- *.
    assert (Hcr : Evaluator.created (Evaluator.evaluateWith typeError services m was false)
                  = false).
    { unfold Evaluator.evaluateWith.
      destruct (Evaluator.generateContent services m) as [error|tok [error|response]];
        destruct (Evaluator.tracker was); reflexivity. }
    split; [rewrite Hcr; split; discriminate|].
    destruct Hc as [[Ht Hmem]|[Ht Hmem]]; [left|right; auto].
    split; [exact Ht|]. split; [rewrite Hmem; eauto|]. intros m' [= <-]; exact Hmem.
  - destruct (ModelGenerator.createModel _ _ config schema) as [error|m] eqn:Hcreate.
    + cbn. split; [tauto|]. right. split; [reflexivity|exact Hm].
    + pose proof (evaluateWith_cache services m was true) as Hc. cbv zeta in Hc |- *.
      assert (Hcr : Evaluator.created (Evaluator.evaluateWith typeError services m was true)
                    = true).
      { unfold Evaluator.evaluateWith.
        destruct (Evaluator.generateContent services m) as [error|tok [error|response]];
          destruct (Evaluator.tracker was); reflexivity. }
      split; [rewrite Hcr; tauto|].
      destruct Hc as [[Ht Hmem]|[Ht Hmem]]; [left|right; auto].
      split; [exact Ht|]. split; [rewrite Hmem; eauto|]. discriminate.
Qed.

(** X22. After a call of [evaluateAnswer] the module's [model] variable
    holds a model exactly when the call returned a response: any failure,
    of [createModel], of the generation, of the tracker or of the parsing,
    leaves it empty.  A model that was cached and worked stays the cached
    one, and [createModel] is called exactly when nothing was cached. *)
Theorem evaluator_caches_only_a_model_that_worked services config (schema : Schema) was :
  let out := Evaluator.evaluateAnswer typeError services config schema was in
  (is_Some (Evaluator.model (Evaluator.memory out)) ↔ threw out = false) ∧
  (Evaluator.created out = true ↔ Evaluator.model was = None) ∧
  (∀ m, Evaluator.model was = Some m -> threw out = false ->
     Evaluator.model (Evaluator.memory out) = Some m).
Proof.
  cbv zeta.
  destruct (evaluateAnswer_cache services config schema was) as [Hcr Hcase].
  cbv zeta in Hcr, Hcase.
  split; [|split; [exact Hcr|]].
  - destruct Hcase as [(Ht & Hs & _)|(Ht & Hn)].
    + tauto.
    + rewrite Hn, Ht. split; [intros [? ?]; discriminate|discriminate].
  - intros m Hm Hok. destruct Hcase as [(_ & _ & Hkeep)|(Ht & _)]; [auto|congruence].
Qed.

(** X23. In any series of calls of [evaluateAnswer], [createModel] is
    called at most once more than the number of calls that threw, and not
    even that once when a model was cached at the start: between two
    failures the model is created once and reused. *)
Theorem createModel_is_called_once_between_failures
    (calls : list Evaluator.Services) config (schema : Schema) was :
  let outs := Evaluator.evaluateAll typeError calls config schema was in
  length (filter (fun out => Evaluator.created out = true) outs) ≤
  length (filter (fun out => threw out = true) outs) +
  match Evaluator.model was with Some _ => 0 | None => 1 end.
Proof.
  cbv zeta. revert was. induction calls as [|services rest IH]; intros was.
  - cbn. lia.
  - cbn [Evaluator.evaluateAll].
    set (out := Evaluator.evaluateAnswer typeError services config schema was).
    destruct (evaluateAnswer_cache services config schema was) as [Hcr Hcase].
    cbv zeta in Hcr, Hcase. fold out in Hcr, Hcase.
    specialize (IH (Evaluator.memory out)).
    rewrite !filter_cons.
    destruct (Evaluator.model was) as [m|] eqn:Hm.
    + assert (Hc : Evaluator.created out ≠ true) by (rewrite Hcr; discriminate).
      rewrite decide_False by exact Hc.
      destruct Hcase as [(Ht & [m' Hs] & _)|(Ht & Hn)].
      * rewrite decide_False by (rewrite Ht; discriminate). rewrite Hs in IH. lia.
      * rewrite decide_True by exact Ht. rewrite Hn in IH. cbn [length]. lia.
    + assert (Hc : Evaluator.created out = true) by (apply Hcr; reflexivity).
      rewrite decide_True by exact Hc.
      destruct Hcase as [(Ht & [m' Hs] & _)|(Ht & Hn)].
      * rewrite decide_False by (rewrite Ht; discriminate). rewrite Hs in IH.
        cbn [length]. lia.
      * rewrite decide_True by exact Ht. rewrite Hn in IH. cbn [length]. lia.
Qed.

(** X24. The tracker is charged before the response is parsed: when the
    model replies with a text that is not parseable JSON, the call throws
    and clears the cached model, and the tokens of that reply have been
    added to the tracker all the same.  Without a tracker no call ever
    returns a response. *)
Theorem unparsable_verdict_is_still_charged services config (schema : Schema) was
    m total totalTokenCount error :
  Evaluator.model was = Some m ->
  Evaluator.tracker was = Some total ->
  Evaluator.generateContent services m =
    Evaluator.GenerationReplies totalTokenCount (inl error) ->
  let out := Evaluator.evaluateAnswer typeError services config schema was in
  Evaluator.returned out = inl error ∧
  Evaluator.tracker (Evaluator.memory out) = Some (total + default 0 totalTokenCount) ∧
  Evaluator.model (Evaluator.memory out) = None ∧
  ∀ services' was',
    Evaluator.tracker was' = None ->
    threw (Evaluator.evaluateAnswer typeError services' config schema was') = true.
Proof.
  intros Hm Ht Hg. cbv zeta. unfold Evaluator.evaluateAnswer. rewrite Hm.
  unfold Evaluator.evaluateWith. rewrite Hg, Ht. cbn.
  repeat split.
  intros services' was' Hnone. unfold Evaluator.evaluateAnswer, threw.
  destruct (Evaluator.model was') as [m'|].
  - unfold Evaluator.evaluateWith. rewrite Hnone.
    destruct (Evaluator.generateContent services' m') as [e|tok text]; reflexivity.
  - destruct (ModelGenerator.createModel _ _ config schema) as [e|m']; [reflexivity|].
    unfold Evaluator.evaluateWith. rewrite Hnone.
    destruct (Evaluator.generateContent services' m') as [e|tok text]; reflexivity.
Qed.
End EvaluatorFacts.

Lemma evaluator_caches_only_a_model_that_worked_witness :
  let m := ModelGenerator.getGenerativeModel "gemini-1.5-flash" evaluatorConfig tt in
  Evaluator.model
    (Evaluator.memory
       (Evaluator.evaluateAnswer (fun _ => Value NoMessage) workingServices evaluatorConfig tt
          {| Evaluator.model := Some m; Evaluator.tracker := Some 0 |})) = Some m.
Proof.
  cbv zeta.
  apply (evaluator_caches_only_a_model_that_worked (fun _ => Value NoMessage) workingServices
           evaluatorConfig tt
           {| Evaluator.model :=
                Some (ModelGenerator.getGenerativeModel "gemini-1.5-flash" evaluatorConfig tt);
              Evaluator.tracker := Some 0 |}); reflexivity.
Defined.

Lemma unparsable_verdict_is_still_charged_witness :
  let m := ModelGenerator.getGenerativeModel "gemini-exp-1206" evaluatorConfig tt in
  let out := Evaluator.evaluateAnswer (fun _ => Value NoMessage) garbledServices evaluatorConfig tt
               {| Evaluator.model := Some m; Evaluator.tracker := Some 100 |} in
  Evaluator.returned out = inl (Value (TextMessage "Unexpected token")) ∧
  Evaluator.tracker (Evaluator.memory out) = Some 130 ∧
  Evaluator.model (Evaluator.memory out) = None.
Proof.
  cbv zeta.
  destruct (unparsable_verdict_is_still_charged (fun _ => Value NoMessage) garbledServices
              evaluatorConfig tt
              {| Evaluator.model :=
                   Some (ModelGenerator.getGenerativeModel "gemini-exp-1206" evaluatorConfig tt);
                 Evaluator.tracker := Some 100 |}
              (ModelGenerator.getGenerativeModel "gemini-exp-1206" evaluatorConfig tt)
              100 (Some 30) (Value (TextMessage "Unexpected token"))
              eq_refl eq_refl eq_refl)
    as (Hr & Ht & Hm & _).
  split; [exact Hr|]. split; [exact Ht|exact Hm].
Defined.

Example evaluator_recreates_the_model_after_a_failure :
  Evaluator.created <$>
    Evaluator.evaluateAll (fun _ => Value NoMessage)
      [workingServices; workingServices; garbledServices; workingServices]
      evaluatorConfig tt {| Evaluator.model := None; Evaluator.tracker := Some 0 |} =
  [true; false; false; true].
Proof. reflexivity. Qed.

(** * [saveFinalReport] *)


Example failed_translation_keeps_the_english_report :
  saveFinalReport untranslatable
    {| getFullYear := 2025; getMonth := 1; getDate := 7; getHours := 9; getMinutes := 5 |}
    (units "# My Report") =
  ([MadeDirectory (units "outputs");
    WroteFile (units "outputs/2025-02-07-0905-My_Report.md") (units "# My Report")],
   Some (Value (TextMessage "quota"))).
Proof. vm_compute. reflexivity. Qed.

